(** * searcher.py: a card indexer and its search API, embedded in Rocq

    The program listens to chat messages, extracts card names and owner
    identifiers from embeds, keeps them in a JSON file, and answers
    substring queries over that file.  This development embeds the
    program's functions as Rocq definitions and proves properties of them.

    Conventions of the embedding:
    - a Python [str] is a list of code points ([N]);
    - the Python runtime's Unicode tables beyond ASCII are a parameter
      (class [UnicodeData]); the ASCII part is written out;
    - the library calls the program makes ([re.sub], [re.search],
      [json.dump], [json.load], text-mode file reads) are modelled by
      executable definitions;
    - effects (file system, logging, globals, the bot's in-memory
      database) are threaded through a state-and-exception monad over a
      record [World];
    - what the environment can do to a call is part of that record: a
      store that refuses a read or a change, and the interpreter's
      limits on recursion and on the length of integer literals. *)

From Stdlib Require Import String Ascii Strings.Byte.
From Stdlib Require Import List NArith ZArith Lia Bool Arith.
From Stdlib Require Import Sorting.Sorted.
Import ListNotations.

Set Implicit Arguments.
Set Warnings "-register-all".

(* ================================================================== *)
(** * Python strings *)
(* ================================================================== *)

Definition codepoint := N.
Definition pystr := list codepoint.

(** The Unicode database of the runtime beyond ASCII: which characters
    are whitespace ([Py_UNICODE_ISSPACE]), which are decimal digits
    ([Py_UNICODE_ISDECIMAL]), and the full lower-casing of a string that
    is not pure ASCII.  Its tables depend on the Unicode version the
    interpreter was built with, so they are a parameter. *)
Class UnicodeData := {
  uni_space : codepoint -> bool;
  uni_decimal : codepoint -> bool;
  uni_lower : pystr -> pystr
}.

Module Str.

(** Code point of an ASCII character, and the string of a literal. *)
Definition ch (a : ascii) : codepoint := N_of_ascii a.
Definition str (s : string) : pystr := map N_of_ascii (list_ascii_of_string s).

(** The double quote and the backslash, by code. *)
Definition DQUOTE : codepoint := 34%N.
Definition BACKSLASH : codepoint := 92%N.
Definition NEWLINE : codepoint := 10%N.

Fixpoint eqb (a b : pystr) : bool :=
  match a, b with
  | [], [] => true
  | x :: a', y :: b' => N.eqb x y && eqb a' b'
  | _, _ => false
  end.

(** Truthiness of a string: [if s] / [if not s]. *)
Definition truthy (s : pystr) : bool :=
  match s with [] => false | _ => true end.

(** Python compares strings lexicographically by code point. *)
Fixpoint ltb (a b : pystr) : bool :=
  match a, b with
  | _, [] => false
  | [], _ :: _ => true
  | x :: a', y :: b' => N.ltb x y || (N.eqb x y && ltb a' b')
  end.

Definition leb (a b : pystr) : bool := negb (ltb b a).

Fixpoint starts_with (prefix s : pystr) : bool :=
  match prefix, s with
  | [], _ => true
  | p :: prefix', c :: s' => N.eqb p c && starts_with prefix' s'
  | _ :: _, [] => false
  end.

(** [needle in hay]. *)
Fixpoint contains (needle hay : pystr) : bool :=
  starts_with needle hay ||
  match hay with
  | [] => false
  | _ :: hay' => contains needle hay'
  end.

(** [hay.find(needle)], with [None] for -1. *)
Fixpoint find (needle hay : pystr) : option nat :=
  if starts_with needle hay then Some 0
  else match hay with
       | [] => None
       | _ :: hay' => option_map S (find needle hay')
       end.

(** [s.split(sep)] for a non-empty separator: [skip] counts the
    characters of a separator occurrence still to be passed over, [cur]
    holds the current piece in reverse. *)
Fixpoint split_from (sep : pystr) (skip : nat) (cur : pystr) (s : pystr)
  : list pystr :=
  match s with
  | [] => [rev cur]
  | c :: r =>
      match skip with
      | S k => split_from sep k cur r
      | O => if starts_with sep s
             then rev cur :: split_from sep (length sep - 1) [] r
             else split_from sep 0 (c :: cur) r
      end
  end.

Definition split (sep s : pystr) : list pystr := split_from sep 0 [] s.

Fixpoint dropwhile (p : codepoint -> bool) (s : pystr) : pystr :=
  match s with
  | [] => []
  | c :: r => if p c then dropwhile p r else s
  end.

(** Decimal rendering of a natural number: [str(n)]. *)
Fixpoint of_uint (u : Decimal.uint) : pystr :=
  match u with
  | Decimal.Nil => []
  | Decimal.D0 u => 48%N :: of_uint u
  | Decimal.D1 u => 49%N :: of_uint u
  | Decimal.D2 u => 50%N :: of_uint u
  | Decimal.D3 u => 51%N :: of_uint u
  | Decimal.D4 u => 52%N :: of_uint u
  | Decimal.D5 u => 53%N :: of_uint u
  | Decimal.D6 u => 54%N :: of_uint u
  | Decimal.D7 u => 55%N :: of_uint u
  | Decimal.D8 u => 56%N :: of_uint u
  | Decimal.D9 u => 57%N :: of_uint u
  end.

Definition of_nat (n : nat) : pystr := of_uint (Nat.to_uint n).

Section Unicode.
Context {U : UnicodeData}.

(** [Py_UNICODE_ISSPACE]: the ASCII table ([_Py_ascii_whitespace]: TAB,
    LF, VT, FF, CR, FS, GS, RS, US, SPACE) and the Unicode database
    beyond it.  [str.strip] and the regex class [\s] both use it. *)
Definition is_space (c : codepoint) : bool :=
  if (c <? 128)%N
  then ((9 <=? c) && (c <=? 13) || (28 <=? c) && (c <=? 32))%N
  else uni_space c.

(** [Py_UNICODE_ISDECIMAL], the regex class [\d] on a [str] pattern. *)
Definition is_decimal (c : codepoint) : bool :=
  if (c <? 128)%N
  then ((48 <=? c) && (c <=? 57))%N
  else uni_decimal c.

Definition ascii_lower (c : codepoint) : codepoint :=
  if ((65 <=? c) && (c <=? 90))%N then (c + 32)%N else c.

(** [s.lower()]: CPython lowers a pure-ASCII string bytewise and sends
    any other string through the Unicode case mapping. *)
Definition lower (s : pystr) : pystr :=
  if forallb (fun c => (c <? 128)%N) s then map ascii_lower s
  else uni_lower s.

(** [s.strip()]: leading whitespace is dropped, then trailing. *)
Definition lstrip (s : pystr) : pystr := dropwhile is_space s.
Definition rstrip (s : pystr) : pystr := rev (dropwhile is_space (rev s)).
Definition strip (s : pystr) : pystr := rstrip (lstrip s).

End Unicode.

End Str.

Arguments Str.ch a%_char.
Arguments Str.str s%_string.

(* ================================================================== *)
(** * Regular expressions

    The two patterns of the program are sequences of literal characters
    and greedy repetitions of a character class.  [match_here] is a
    backtracking matcher for such sequences, the way [re] runs them: a
    repetition first takes as many characters as it can and gives them
    back one at a time while the rest of the pattern fails.  A match
    reports the text each atom consumed, and the rest of the subject. *)
(* ================================================================== *)

Module Re.

Inductive atom :=
| Lit (c : codepoint)
| Rep (cls : codepoint -> bool) (min : nat).

Definition pattern := list atom.
Definition result := option (list pystr * pystr).

Fixpoint span_len (cls : codepoint -> bool) (s : pystr) : nat :=
  match s with
  | c :: r => if cls c then S (span_len cls r) else O
  | [] => O
  end.

(** Give the repetition [n] characters, then [n-1], ... down to [min],
    until the continuation [k] matches what follows. *)
Fixpoint backtrack (k : pystr -> result) (s : pystr) (min n : nat) : result :=
  if (n <? min)%nat then None
  else match k (skipn n s) with
       | Some (segs, rest) => Some (firstn n s :: segs, rest)
       | None => match n with
                 | O => None
                 | S n' => backtrack k s min n'
                 end
       end.

Fixpoint match_here (re : pattern) : pystr -> result :=
  match re with
  | [] => fun s => Some ([], s)
  | Lit c :: re' => fun s =>
      match s with
      | x :: r =>
          if N.eqb x c
          then match match_here re' r with
               | Some (segs, rest) => Some ([x] :: segs, rest)
               | None => None
               end
          else None
      | [] => None
      end
  | Rep cls min :: re' => fun s =>
      backtrack (match_here re') s min (span_len cls s)
  end.

(** [re.sub('^' + re, '', s)] without [re.MULTILINE]: the anchor lets
    the pattern match at position 0 only, and the match is non-empty for
    the pattern used here, so at most one substitution happens. *)
Definition sub_prefix (re : pattern) (s : pystr) : pystr :=
  match match_here re s with
  | Some (_, rest) => rest
  | None => s
  end.

(** [re.search(re, s)]: the leftmost position where the pattern
    matches. *)
Fixpoint search (re : pattern) (s : pystr) : result :=
  match match_here re s with
  | Some r => Some r
  | None => match s with
            | [] => None
            | _ :: s' => search re s'
            end
  end.

Definition lits (s : pystr) : pattern := map Lit s.

End Re.

(* ================================================================== *)
(** * The indexer: text extraction *)
(* ================================================================== *)

Section Extraction.
Context {U : UnicodeData}.

(** The class [[A-Z-]]. *)
Definition is_tag (c : codepoint) : bool :=
  ((65 <=? c) && (c <=? 90) || (c =? 45))%N.

(** [r'^\d+\s*-\s*[A-Z-]*\s*'] (the anchor is in [Re.sub_prefix]). *)
Definition card_prefix_re : Re.pattern :=
  [ Re.Rep Str.is_decimal 1; Re.Rep Str.is_space 0; Re.Lit (Str.ch "-");
    Re.Rep Str.is_space 0; Re.Rep is_tag 0; Re.Rep Str.is_space 0 ].

(** [IndexerBot.clean_card_name].  [re.sub] and [strip] raise nothing on
    a [str], so the [except] branch is not taken. *)
Definition clean_card_name (line : pystr) : pystr :=
  Str.strip (Re.sub_prefix card_prefix_re line).

(** [r"/avatars/(\d+)/"]: nine literals, the group, one literal. *)
Definition avatar_re : Re.pattern :=
  Re.lits (Str.str "/avatars/") ++ [Re.Rep Str.is_decimal 1; Re.Lit (Str.ch "/")].

(** [owner_id_match.group(1)]: the text of the tenth atom. *)
Definition owner_id_match (icon_url : pystr) : option pystr :=
  match Re.search avatar_re icon_url with
  | Some (segs, _) => Some (nth 9 segs [])
  | None => None
  end.

(** [embed.author.name.split("'s")[0]]. *)
Definition owner_name_of (name : pystr) : pystr :=
  hd [] (Str.split (Str.str "'s") name).

(** [[self.clean_card_name(line) for line in description.split('\n')]]. *)
Definition cards_in_embed (description : pystr) : list pystr :=
  map clean_card_name (Str.split [Str.NEWLINE] description).

End Extraction.


(* ================================================================== *)
(** * UTF-8 and text-mode reads

    The database file is opened with [encoding='utf-8'] in text mode.
    A read decodes the bytes strictly (an invalid sequence raises
    [UnicodeDecodeError]) and translates line endings (universal
    newlines); a write encodes the text and, on the POSIX system the
    program's paths belong to, leaves ['\n'] as it is. *)
(* ================================================================== *)

Module Utf8.

Definition byte_of (n : N) : byte :=
  match Byte.of_N n with Some b => b | None => x00 end.

Definition is_surrogate (c : codepoint) : bool :=
  ((0xD800 <=? c) && (c <=? 0xDFFF))%N.

Definition encode_char (c : codepoint) : option (list byte) :=
  (if c <? 0x80 then Some [byte_of c]
   else if c <? 0x800 then
     Some [byte_of (0xC0 + c / 64); byte_of (0x80 + c mod 64)]
   else if c <? 0x10000 then
     if is_surrogate c then None
     else Some [byte_of (0xE0 + c / 4096); byte_of (0x80 + (c / 64) mod 64);
                byte_of (0x80 + c mod 64)]
   else if c <? 0x110000 then
     Some [byte_of (0xF0 + c / 262144); byte_of (0x80 + (c / 4096) mod 64);
           byte_of (0x80 + (c / 64) mod 64); byte_of (0x80 + c mod 64)]
   else None)%N.

(** [None] stands for [UnicodeEncodeError]. *)
Fixpoint encode (s : pystr) : option (list byte) :=
  match s with
  | [] => Some []
  | c :: r =>
      match encode_char c, encode r with
      | Some bs, Some rest => Some (bs ++ rest)
      | _, _ => None
      end
  end.

Definition cont (n : N) : bool := ((0x80 <=? n) && (n <=? 0xBF))%N.

Definition between (lo hi n : N) : bool := ((lo <=? n) && (n <=? hi))%N.

(** Strict decoding: overlong forms, surrogates and values above
    U+10FFFF are refused.  [None] stands for [UnicodeDecodeError]. *)
Fixpoint decode (bs : list byte) : option pystr :=
  match bs with
  | [] => Some []
  | b0 :: r0 =>
      let n0 := Byte.to_N b0 in
      if (n0 <? 0x80)%N then option_map (cons n0) (decode r0)
      else if between 0xC2 0xDF n0 then
        match r0 with
        | b1 :: r1 =>
            let n1 := Byte.to_N b1 in
            if cont n1
            then option_map (cons ((n0 - 0xC0) * 64 + (n1 - 0x80))%N) (decode r1)
            else None
        | _ => None
        end
      else if between 0xE0 0xEF n0 then
        match r0 with
        | b1 :: b2 :: r2 =>
            let n1 := Byte.to_N b1 in
            let n2 := Byte.to_N b2 in
            if (if (n0 =? 0xE0)%N then between 0xA0 0xBF n1
                else if (n0 =? 0xED)%N then between 0x80 0x9F n1
                else cont n1) && cont n2
            then option_map
                   (cons ((n0 - 0xE0) * 4096 + (n1 - 0x80) * 64 + (n2 - 0x80))%N)
                   (decode r2)
            else None
        | _ => None
        end
      else if between 0xF0 0xF4 n0 then
        match r0 with
        | b1 :: b2 :: b3 :: r3 =>
            let n1 := Byte.to_N b1 in
            let n2 := Byte.to_N b2 in
            let n3 := Byte.to_N b3 in
            if (if (n0 =? 0xF0)%N then between 0x90 0xBF n1
                else if (n0 =? 0xF4)%N then between 0x80 0x8F n1
                else cont n1) && cont n2 && cont n3
            then option_map
                   (cons ((n0 - 0xF0) * 262144 + (n1 - 0x80) * 4096
                          + (n2 - 0x80) * 64 + (n3 - 0x80))%N)
                   (decode r3)
            else None
        | _ => None
        end
      else None
  end.

(** Universal newlines on input: ["\r\n"] and a lone ["\r"] become
    ["\n"]. *)
Fixpoint universal_newlines (s : pystr) : pystr :=
  match s with
  | [] => []
  | c :: r =>
      if (c =? 13)%N
      then 10%N :: match r with
                   | d :: r' => if (d =? 10)%N then universal_newlines r'
                                else universal_newlines r
                   | [] => []
                   end
      else c :: universal_newlines r
  end.

End Utf8.

(* ================================================================== *)
(** * The card database *)
(* ================================================================== *)

(** The mapping from card name to owner identifiers.  A Python [dict]
    keeps its keys in insertion order, which [json.dump] follows, so the
    mapping is an association list; [db_get] and [db_set] are the
    dictionary's lookup and item assignment. *)
Definition database := list (pystr * list pystr).

Fixpoint db_get (db : database) (k : pystr) : option (list pystr) :=
  match db with
  | [] => None
  | (k', v) :: rest => if Str.eqb k' k then Some v else db_get rest k
  end.

Definition db_mem (db : database) (k : pystr) : bool :=
  match db_get db k with Some _ => true | None => false end.

Fixpoint db_set (db : database) (k : pystr) (v : list pystr) : database :=
  match db with
  | [] => [(k, v)]
  | (k', v') :: rest =>
      if Str.eqb k' k then (k', v) :: rest else (k', v') :: db_set rest k v
  end.

(** [o in owner_list]. *)
Definition mem (o : pystr) (l : list pystr) : bool := existsb (Str.eqb o) l.

(* ================================================================== *)
(** * JSON: what [json.dump(db, f, indent=4)] writes and what
      [json.load(f)] reads *)
(* ================================================================== *)

Module Json.

Inductive value :=
| JNull
| JBool (b : bool)
| JNum (lexeme : pystr)
| JStr (s : pystr)
| JArr (items : list value)
| JObj (members : list (pystr * value)).

(** ** Encoder ([json.encoder], [ensure_ascii=True], [indent=4]) *)

Definition hexdigit (d : N) : codepoint :=
  (if d <? 10 then 48 + d else 87 + d)%N.

(** ['{0:04x}'.format(n)] for [n < 0x10000]. *)
Definition hex4 (n : N) : pystr :=
  [hexdigit ((n / 4096) mod 16); hexdigit ((n / 256) mod 16);
   hexdigit ((n / 16) mod 16); hexdigit (n mod 16)]%N.

Definition u_escape (n : N) : pystr := 92%N :: 117%N :: hex4 n.

(** The replacement [py_encode_basestring_ascii] makes for one
    character: the short escapes of [ESCAPE_DCT], printable ASCII as it
    is, [\uXXXX] for the rest of the BMP, a surrogate pair above it. *)
Definition escape_char (c : codepoint) : pystr :=
  (if c =? 34 then [92; 34]
   else if c =? 92 then [92; 92]
   else if c =? 10 then [92; 110]
   else if c =? 13 then [92; 114]
   else if c =? 9 then [92; 116]
   else if c =? 8 then [92; 98]
   else if c =? 12 then [92; 102]
   else if (32 <=? c) && (c <=? 126) then [c]
   else if c <? 0x10000 then u_escape c
   else let n := c - 0x10000 in
        u_escape (N.lor 0xd800 (N.land (N.shiftr n 10) 0x3ff))
        ++ u_escape (N.lor 0xdc00 (N.land n 0x3ff)))%N.

Definition encode_string (s : pystr) : pystr :=
  34%N :: flat_map escape_char s ++ [34%N].

(** ['\n' + ' ' * (4 * level)]. *)
Definition newline_indent (level : nat) : pystr :=
  10%N :: repeat 32%N (4 * level).

(** The loop of [_iterencode_list] over string items; [first] is the
    loop's flag, [sep] its [separator]. *)
Fixpoint encode_items (sep : pystr) (first : bool) (lst : list pystr) : pystr :=
  match lst with
  | [] => []
  | v :: rest =>
      (if first then [] else sep) ++ encode_string v
      ++ encode_items sep false rest
  end.

(** [_iterencode_list(lst, level)] for a list of strings. *)
Definition encode_list (level : nat) (lst : list pystr) : pystr :=
  match lst with
  | [] => [91%N; 93%N]
  | _ => 91%N :: newline_indent (S level)
         ++ encode_items (44%N :: newline_indent (S level)) true lst
         ++ newline_indent level ++ [93%N]
  end.

(** The loop of [_iterencode_dict]; the key separator is [": "]. *)
Fixpoint encode_members (level : nat) (sep : pystr) (first : bool)
  (dct : database) : pystr :=
  match dct with
  | [] => []
  | (key, v) :: rest =>
      (if first then [] else sep) ++ encode_string key ++ [58%N; 32%N]
      ++ encode_list level v ++ encode_members level sep false rest
  end.

(** [_iterencode_dict(dct, level)] for a card database. *)
Definition encode_dict (level : nat) (dct : database) : pystr :=
  match dct with
  | [] => [123%N; 125%N]
  | _ => 123%N :: newline_indent (S level)
         ++ encode_members (S level) (44%N :: newline_indent (S level)) true dct
         ++ newline_indent level ++ [125%N]
  end.

(** The text [json.dump(db, f, indent=4)] writes to [f]. *)
Definition dumps (db : database) : pystr := encode_dict 0 db.

(** The value a card database is, as [json.load] would return it. *)
Definition of_database (db : database) : value :=
  JObj (map (fun e => (fst e, JArr (map JStr (snd e)))) db).

(** ** Decoder ([json.decoder], [json.scanner]) *)

Definition is_ws (c : codepoint) : bool :=
  ((c =? 32) || (c =? 9) || (c =? 10) || (c =? 13))%N.

Definition skip_ws (s : pystr) : pystr := Str.dropwhile is_ws s.

Definition hexval (c : codepoint) : option N :=
  (if (48 <=? c) && (c <=? 57) then Some (c - 48)
   else if (97 <=? c) && (c <=? 102) then Some (c - 87)
   else if (65 <=? c) && (c <=? 70) then Some (c - 55)
   else None)%N.

(** [_decode_uXXXX]: four hexadecimal digits. *)
Definition hex4val (a b c d : codepoint) : option N :=
  match hexval a, hexval b, hexval c, hexval d with
  | Some x, Some y, Some z, Some w => Some (((x * 16 + y) * 16 + z) * 16 + w)%N
  | _, _, _, _ => None
  end.

Definition is_high (n : N) : bool := ((0xd800 <=? n) && (n <=? 0xdbff))%N.
Definition is_low (n : N) : bool := ((0xdc00 <=? n) && (n <=? 0xdfff))%N.

Definition join_surrogates (hi lo : N) : codepoint :=
  (0x10000 + N.lor (N.shiftl (hi - 0xd800) 10) (lo - 0xdc00))%N.

(** The [BACKSLASH] table of the decoder. *)
Definition unescape (e : codepoint) : option codepoint :=
  (if e =? 34 then Some 34
   else if e =? 92 then Some 92
   else if e =? 47 then Some 47
   else if e =? 98 then Some 8
   else if e =? 102 then Some 12
   else if e =? 110 then Some 10
   else if e =? 114 then Some 13
   else if e =? 116 then Some 9
   else None)%N.

(** The test [scanstring] makes on what follows a high surrogate's
    escape: a second [\u] escape (four hexadecimal digits are then
    required) that holds a low surrogate. *)
Definition pairs_with_low (s : pystr) : bool :=
  match s with
  | b :: u :: r3 =>
      if ((b =? 92) && (u =? 117))%N then
        match r3 with
        | g1 :: g2 :: g3 :: g4 :: _ =>
            match hex4val g1 g2 g3 g4 with
            | Some uni2 => is_low uni2
            | None => true
            end
        | _ => true
        end
      else false
  | _ => false
  end.

(** [scanstring(s, end, strict=True)], from the character after the
    opening quote; [acc] is the text read so far, reversed.  [None]
    stands for [JSONDecodeError]. *)
Fixpoint scanstring (s : pystr) (acc : pystr) : option (pystr * pystr) :=
  match s with
  | [] => None
  | c :: r =>
      if (c =? 34)%N then Some (rev acc, r)
      else if (c =? 92)%N then
        match r with
        | [] => None
        | e :: r1 =>
            if (e =? 117)%N then
              match r1 with
              | h1 :: h2 :: h3 :: h4 :: r2 =>
                  match hex4val h1 h2 h3 h4 with
                  | None => None
                  | Some uni =>
                      if is_high uni then
                        match r2 with
                        | b :: u :: r3 =>
                            if ((b =? 92) && (u =? 117))%N then
                              match r3 with
                              | g1 :: g2 :: g3 :: g4 :: r4 =>
                                  match hex4val g1 g2 g3 g4 with
                                  | None => None
                                  | Some uni2 =>
                                      if is_low uni2
                                      then scanstring r4
                                             (join_surrogates uni uni2 :: acc)
                                      else scanstring r2 (uni :: acc)
                                  end
                              | _ => None
                              end
                            else scanstring r2 (uni :: acc)
                        | _ => scanstring r2 (uni :: acc)
                        end
                      else scanstring r2 (uni :: acc)
                  end
              | _ => None
              end
            else match unescape e with
                 | Some x => scanstring r1 (x :: acc)
                 | None => None
                 end
        end
      else if (c <? 32)%N then None
      else scanstring r (c :: acc)
  end.

Definition is_digit (c : codepoint) : bool := ((48 <=? c) && (c <=? 57))%N.

Definition span (p : codepoint -> bool) (s : pystr) : pystr * pystr :=
  (firstn (Re.span_len p s) s, skipn (Re.span_len p s) s).

(** [_match_number]: the lexeme of a JSON number at the head of [s] and
    what follows it, read in four steps: an optional minus sign, the
    integer digits (a lone zero, or a non-zero digit and more digits), a
    fraction if a dot and a digit follow, an exponent if [e] or [E], an
    optional sign and at least one digit follow.  The numeric value
    plays no part here, so a number is kept as its lexeme. *)
Definition number_sign (s : pystr) : pystr * pystr :=
  match s with
  | c :: r => if (c =? 45)%N then ([c], r) else ([], s)
  | [] => ([], s)
  end.

Definition number_int (s : pystr) : option (pystr * pystr) :=
  match s with
  | [] => None
  | d :: r =>
      if (d =? 48)%N then Some ([d], r)
      else if is_digit d
           then let (ds, r') := span is_digit r in Some (d :: ds, r')
           else None
  end.

Definition number_frac (s : pystr) : pystr * pystr :=
  match s with
  | dot :: f :: r =>
      if (dot =? 46)%N && is_digit f
      then let (ds, r') := span is_digit r in (dot :: f :: ds, r')
      else ([], s)
  | _ => ([], s)
  end.

Definition number_exp (s : pystr) : pystr * pystr :=
  match s with
  | e :: r =>
      if ((e =? 101) || (e =? 69))%N then
        let (sg, r1) := match r with
                        | g :: r' => if ((g =? 45) || (g =? 43))%N
                                     then ([g], r') else ([], r)
                        | [] => ([], r)
                        end in
        let (ds, r2) := span is_digit r1 in
        match ds with
        | [] => ([], s)
        | _ :: _ => (e :: sg ++ ds, r2)
        end
      else ([], s)
  | [] => ([], s)
  end.

Definition match_number (s : pystr) : option (pystr * pystr) :=
  let (sign, s1) := number_sign s in
  match number_int s1 with
  | None => None
  | Some (ip, s2) =>
      let (frac, s3) := number_frac s2 in
      let (expo, s4) := number_exp s3 in
      Some (sign ++ ip ++ frac ++ expo, s4)
  end.

(** The literals of [scan_once], then numbers. *)
Definition scan_atom (s : pystr) : option (value * pystr) :=
  let lit (word : pystr) (v : value) :=
    if Str.starts_with word s then Some (v, skipn (length word) s) else None in
  match lit (Str.str "null") JNull with Some r => Some r | None =>
  match lit (Str.str "true") (JBool true) with Some r => Some r | None =>
  match lit (Str.str "false") (JBool false) with Some r => Some r | None =>
  match lit (Str.str "NaN") (JNum (Str.str "NaN")) with Some r => Some r | None =>
  match lit (Str.str "Infinity") (JNum (Str.str "Infinity")) with Some r => Some r | None =>
  match lit (Str.str "-Infinity") (JNum (Str.str "-Infinity")) with Some r => Some r | None =>
  match match_number s with
  | Some (lexeme, rest) => Some (JNum lexeme, rest)
  | None => None
  end end end end end end end.

(** [int(lexeme)] on a lexeme without fraction or exponent.  Since the
    interpreter limits integer string conversion, a lexeme of more than
    640 digits that also has more digits than
    [sys.get_int_max_str_digits()] ([max_digits]; 0 lifts the limit)
    raises a plain [ValueError]. *)
Definition is_integer (lexeme : pystr) : bool :=
  forallb (fun c => is_digit c || (c =? 45)%N) lexeme.

Definition digits_of (lexeme : pystr) : nat := length (filter is_digit lexeme).

Definition int_too_long (max_digits : nat) (v : value) : bool :=
  match v with
  | JNum lexeme =>
      is_integer lexeme
      && Nat.ltb 640 (digits_of lexeme)
      && Nat.ltb 0 max_digits
      && Nat.ltb max_digits (digits_of lexeme)
  | _ => false
  end.

(** [PyDict_SetItem] on the members read so far. *)
Fixpoint dict_set (d : list (pystr * value)) (k : pystr) (v : value)
  : list (pystr * value) :=
  match d with
  | [] => [(k, v)]
  | (k', v') :: rest =>
      if Str.eqb k' k then (k', v) :: rest else (k', v') :: dict_set rest k v
  end.

(** Result of a scanner: a value and the rest of the input, a
    [JSONDecodeError], a [RecursionError], the [ValueError] of a long
    integer, or the recursion budget of the model used up. *)
Inductive pres :=
| POk (v : value) (rest : pystr)
| PErr
| PDeep
| PLong
| PFuel.

Section Scanner.

(** [sys.get_int_max_str_digits()]. *)
Variable max_digits : nat.

(** [scan_once], [_parse_array] and [_parse_object].  The scanners call
    each other, so they recurse on a budget; [loads] gives one that is
    never used up.  [room] is the number of nested containers the
    interpreter still lets the scanner enter: [scan_once] asks for one
    more level ([Py_EnterRecursiveCall]) as soon as it sees an opening
    brace or bracket, and a refusal is a [RecursionError]. *)
Fixpoint scan_once (fuel room : nat) (s : pystr) {struct fuel} : pres :=
  match fuel with
  | O => PFuel
  | S fuel' =>
      match s with
      | [] => PErr
      | c :: r =>
          if (c =? 34)%N then
            match scanstring r [] with
            | Some (x, rest) => POk (JStr x) rest
            | None => PErr
            end
          else if (c =? 123)%N then
            match room with
            | O => PDeep
            | S room' =>
                match skip_ws r with
                | x :: rest =>
                    if (x =? 125)%N then POk (JObj []) rest
                    else parse_members fuel' room' (x :: rest) []
                | [] => PErr
                end
            end
          else if (c =? 91)%N then
            match room with
            | O => PDeep
            | S room' =>
                match skip_ws r with
                | x :: rest =>
                    if (x =? 93)%N then POk (JArr []) rest
                    else parse_elements fuel' room' (x :: rest) []
                | [] => PErr
                end
            end
          else match scan_atom s with
               | Some (v, rest) =>
                   if int_too_long max_digits v then PLong else POk v rest
               | None => PErr
               end
      end
  end
with parse_elements (fuel room : nat) (s : pystr) (acc : list value)
  {struct fuel} : pres :=
  match fuel with
  | O => PFuel
  | S fuel' =>
      match scan_once fuel' room s with
      | POk v r =>
          match skip_ws r with
          | x :: rest =>
              if (x =? 93)%N then POk (JArr (rev (v :: acc))) rest
              else if (x =? 44)%N
                   then parse_elements fuel' room (skip_ws rest) (v :: acc)
                   else PErr
          | [] => PErr
          end
      | other => other
      end
  end
with parse_members (fuel room : nat) (s : pystr) (acc : list (pystr * value))
  {struct fuel} : pres :=
  match fuel with
  | O => PFuel
  | S fuel' =>
      match s with
      | q :: r =>
          if (q =? 34)%N then
            match scanstring r [] with
            | None => PErr
            | Some (key, r1) =>
                match skip_ws r1 with
                | col :: r2 =>
                    if (col =? 58)%N then
                      match scan_once fuel' room (skip_ws r2) with
                      | POk v r3 =>
                          match skip_ws r3 with
                          | x :: rest =>
                              if (x =? 125)%N
                              then POk (JObj (dict_set acc key v)) rest
                              else if (x =? 44)%N
                                   then parse_members fuel' room (skip_ws rest)
                                          (dict_set acc key v)
                                   else PErr
                          | [] => PErr
                          end
                      | other => other
                      end
                    else PErr
                | [] => PErr
                end
            end
          else PErr
      | [] => PErr
      end
  end.

End Scanner.

(** What [json.loads] does with a text: it returns a value or raises
    [JSONDecodeError], [RecursionError] or [ValueError]. *)
Inductive decoded :=
| Value (v : value)
| Invalid
| TooDeep
| TooLong.

(** [json.loads(s)]: leading whitespace, one value, trailing whitespace,
    end of input.  [room] and [max_digits] are the interpreter's limits
    where the call is made. *)
Definition loads (room max_digits : nat) (s : pystr) : decoded :=
  match scan_once max_digits (2 * length s + 2) room (skip_ws s) with
  | POk v rest =>
      match skip_ws rest with
      | [] => Value v
      | _ :: _ => Invalid
      end
  | PDeep => TooDeep
  | PLong => TooLong
  | PErr | PFuel => Invalid
  end.

(** A recursion budget that is enough to read back what [dumps] wrote
    for a database: three per card and one per owner. *)
Definition budget (db : database) : nat :=
  fold_right (fun e n => length (snd e) + 3 + n) 0 db.

(** The member a card's entry decodes to. *)
Definition member_of (e : pystr * list pystr) : pystr * value :=
  (fst e, JArr (map JStr (snd e))).

(** A decoded value read as a card database: an object whose members
    are arrays of strings. *)
Definition as_owner (v : value) : option pystr :=
  match v with JStr s => Some s | _ => None end.

Fixpoint as_owner_list (l : list value) : option (list pystr) :=
  match l with
  | [] => Some []
  | v :: rest =>
      match as_owner v, as_owner_list rest with
      | Some o, Some os => Some (o :: os)
      | _, _ => None
      end
  end.

Fixpoint as_members (l : list (pystr * value)) : option database :=
  match l with
  | [] => Some []
  | (k, JArr items) :: rest =>
      match as_owner_list items, as_members rest with
      | Some os, Some db => Some ((k, os) :: db)
      | _, _ => None
      end
  | _ :: _ => None
  end.

Definition as_database (v : value) : option database :=
  match v with
  | JObj members => as_members members
  | _ => None
  end.

End Json.


(* ================================================================== *)
(** * The process state and its effects *)
(* ================================================================== *)

(** The two paths the program touches: [DATA_DIR = '/var/data'] and
    [DATABASE_FILE = os.path.join(DATA_DIR, 'card_database.json')]. *)
Inductive path := DATA_DIR | DATABASE_FILE.

Definition path_text (p : path) : pystr :=
  match p with
  | DATA_DIR => Str.str "/var/data"
  | DATABASE_FILE => Str.str "/var/data/card_database.json"
  end.

(** What a store that does not accept every change does instead: it
    refuses to make a directory and to open a file for writing; or it
    makes directories but refuses to open the file for writing; or it
    opens the file for writing, which empties it, and the write fails
    (a full disk, say) when [kept] bytes have reached the file.  Each
    failing call raises [OSError] (which [IOError] names). *)
Inductive refusal :=
| RefusesAll
| RefusesFile
| FailsAfter (kept : nat).

(** The part of the file system behind those paths.  [read_ok] says
    whether opening and reading the database file succeeds; otherwise
    the call raises [OSError].  [write_ok] says whether the store
    accepts every change the program makes (creating the data
    directory, opening the database file for writing, writing it);
    when it does not, [write_fault] says which call fails. *)
Record FileSystem := {
  dir_present : bool;
  file_bytes : option (list byte);
  read_ok : bool;
  write_ok : bool;
  write_fault : refusal
}.

(** [os.makedirs(DATA_DIR)] succeeds. *)
Definition makedirs_ok (f : FileSystem) : bool :=
  write_ok f
  || match write_fault f with RefusesAll => false | _ => true end.

Definition file_present (f : FileSystem) : bool :=
  dir_present f && match file_bytes f with Some _ => true | None => false end.

Inductive io_event :=
| Exists (p : path)
| Makedirs (p : path)
| OpenRead (p : path)
| OpenWrite (p : path).

Inductive level := INFO | WARNING | ERROR | CRITICAL.

Inductive exn :=
| OSError
| JSONDecodeError
| UnicodeDecodeError
| UnicodeEncodeError
| RecursionError
| ValueError
| NotADatabase.

(** The interpreter's limits where [json.load] runs.  [spare_depth]:
    how many nested JSON containers the decoder may enter, beyond the
    two of a card database's text, before the interpreter raises
    [RecursionError]; it depends on [sys.getrecursionlimit()] (1000
    unless changed, and the program does not change it) and on the calls
    in progress, a few dozen under the event loop and under the web
    server.  [int_max_str_digits]: [sys.get_int_max_str_digits()], 4300
    unless configured, 0 for no limit. *)
Record Limits := {
  spare_depth : nat;
  int_max_str_digits : nat
}.

Definition usual_limits : Limits :=
  {| spare_depth := 900; int_max_str_digits := 4300 |}.

(** The nesting [json.load] can follow. *)
Definition decoder_room (l : Limits) : nat := 2 + spare_depth l.

Inductive outcome (A : Type) :=
| Ok (a : A)
| Raised (e : exn).
Arguments Raised {A} e.

(** Everything the process can change: the file system and the calls
    made on it, the records of the [logging] module, the wall clock as
    [time.strftime('%H:%M:%S')] renders it, the module's globals, and
    the bot's in-memory database; and the interpreter's limits, which it
    only reads. *)
Record World := {
  fs : FileSystem;
  io_trace : list io_event;
  logging_records : list (level * pystr);
  clock : pystr;
  LOG_MESSAGES : list pystr;
  BOT_STATUS : pystr * pystr;
  card_database : database;
  limits : Limits
}.

Definition with_fs (f : FileSystem) (w : World) : World :=
  {| fs := f; io_trace := io_trace w; logging_records := logging_records w;
     clock := clock w; LOG_MESSAGES := LOG_MESSAGES w;
     BOT_STATUS := BOT_STATUS w; card_database := card_database w;
     limits := limits w |}.

Definition with_io_trace (t : list io_event) (w : World) : World :=
  {| fs := fs w; io_trace := t; logging_records := logging_records w;
     clock := clock w; LOG_MESSAGES := LOG_MESSAGES w;
     BOT_STATUS := BOT_STATUS w; card_database := card_database w;
     limits := limits w |}.

Definition with_logging_records (r : list (level * pystr)) (w : World) : World :=
  {| fs := fs w; io_trace := io_trace w; logging_records := r;
     clock := clock w; LOG_MESSAGES := LOG_MESSAGES w;
     BOT_STATUS := BOT_STATUS w; card_database := card_database w;
     limits := limits w |}.

Definition with_clock (c : pystr) (w : World) : World :=
  {| fs := fs w; io_trace := io_trace w; logging_records := logging_records w;
     clock := c; LOG_MESSAGES := LOG_MESSAGES w;
     BOT_STATUS := BOT_STATUS w; card_database := card_database w;
     limits := limits w |}.

Definition with_LOG_MESSAGES (l : list pystr) (w : World) : World :=
  {| fs := fs w; io_trace := io_trace w; logging_records := logging_records w;
     clock := clock w; LOG_MESSAGES := l;
     BOT_STATUS := BOT_STATUS w; card_database := card_database w;
     limits := limits w |}.

Definition with_BOT_STATUS (s : pystr * pystr) (w : World) : World :=
  {| fs := fs w; io_trace := io_trace w; logging_records := logging_records w;
     clock := clock w; LOG_MESSAGES := LOG_MESSAGES w;
     BOT_STATUS := s; card_database := card_database w;
     limits := limits w |}.

Definition with_card_database (d : database) (w : World) : World :=
  {| fs := fs w; io_trace := io_trace w; logging_records := logging_records w;
     clock := clock w; LOG_MESSAGES := LOG_MESSAGES w;
     BOT_STATUS := BOT_STATUS w; card_database := d;
     limits := limits w |}.

(** The state of the module once it is imported, the bot not yet
    built: [LOG_MESSAGES = []], [BOT_STATUS] offline; the interpreter
    has its usual limits. *)
Definition boot (f : FileSystem) (now : pystr) : World :=
  {| fs := f; io_trace := []; logging_records := []; clock := now;
     LOG_MESSAGES := [];
     BOT_STATUS := (Str.str "Offline", Str.str "grey");
     card_database := [];
     limits := usual_limits |}.

(** ** A state-and-exception monad over the world *)

Definition M (A : Type) : Type := World -> outcome A * World.

Definition ret {A} (a : A) : M A := fun w => (Ok a, w).

Definition bind {A B} (m : M A) (k : A -> M B) : M B :=
  fun w => match m w with
           | (Ok a, w') => k a w'
           | (Raised e, w') => (Raised e, w')
           end.

Definition raise {A} (e : exn) : M A := fun w => (Raised e, w).

(** [try: body / except <caught>: handler]. *)
Definition try_except {A} (body : M A) (caught : exn -> bool) (handler : M A)
  : M A :=
  fun w => match body w with
           | (Raised e, w') => if caught e then handler w' else (Raised e, w')
           | r => r
           end.

Definition gets {A} (f : World -> A) : M A := fun w => (Ok (f w), w).
Definition modify (f : World -> World) : M unit := fun w => (Ok tt, f w).

Notation "x <- c1 ;; c2" := (bind c1 (fun x => c2))
  (at level 61, c1 at next level, right associativity).
Notation "c1 ;; c2" := (bind c1 (fun _ => c2))
  (at level 61, right associativity).

Fixpoint for_each {A} (body : A -> M unit) (l : list A) : M unit :=
  match l with
  | [] => ret tt
  | x :: rest => body x ;; for_each body rest
  end.

(** ** Primitives *)

Definition record_io (e : io_event) : M unit :=
  modify (fun w => with_io_trace (io_trace w ++ [e]) w).

Definition os_path_exists (p : path) : M bool :=
  record_io (Exists p) ;;
  gets (fun w => match p with
                 | DATA_DIR => dir_present (fs w)
                 | DATABASE_FILE => file_present (fs w)
                 end).

(** [os.makedirs(DATA_DIR)], called when the directory is missing: it
    makes the directory, or raises [OSError]. *)
Definition os_makedirs (p : path) : M unit :=
  record_io (Makedirs p) ;;
  f <- gets fs ;;
  if makedirs_ok f then
    modify (with_fs {| dir_present := true;
                       file_bytes := None;
                       read_ok := read_ok f;
                       write_ok := write_ok f;
                       write_fault := write_fault f |})
  else raise OSError.

(** [open(DATABASE_FILE, 'r', encoding='utf-8')]: the bytes behind the
    file object. *)
Definition open_read : M (list byte) :=
  record_io (OpenRead DATABASE_FILE) ;;
  f <- gets fs ;;
  match file_bytes f with
  | Some bs => if dir_present f && read_ok f then ret bs else raise OSError
  | None => raise OSError
  end.

(** [f.read()] on a text-mode file. *)
Definition read_text (bs : list byte) : M pystr :=
  match Utf8.decode bs with
  | Some text => ret (Utf8.universal_newlines text)
  | None => raise UnicodeDecodeError
  end.

(** [json.load(f)] is [json.loads(f.read())]. *)
Definition json_load (bs : list byte) : M Json.value :=
  text <- read_text bs ;;
  l <- gets limits ;;
  match Json.loads (decoder_room l) (int_max_str_digits l) text with
  | Json.Value v => ret v
  | Json.Invalid => raise JSONDecodeError
  | Json.TooDeep => raise RecursionError
  | Json.TooLong => raise ValueError
  end.

(** The file system once the database file holds [bs]. *)
Definition with_file (bs : list byte) (f : FileSystem) : FileSystem :=
  {| dir_present := true; file_bytes := Some bs;
     read_ok := read_ok f; write_ok := write_ok f;
     write_fault := write_fault f |}.

(** [with open(DATABASE_FILE, 'w', encoding='utf-8') as f: f.write(text)].
    Opening truncates the file; a write that fails after that leaves
    the part of the text that reached the file. *)
Definition write_text (text : pystr) : M unit :=
  record_io (OpenWrite DATABASE_FILE) ;;
  f <- gets fs ;;
  if negb (dir_present f) then raise OSError
  else if write_ok f then
    match Utf8.encode text with
    | Some bs => modify (with_fs (with_file bs f))
    | None => modify (with_fs (with_file [] f)) ;; raise UnicodeEncodeError
    end
  else
    match write_fault f with
    | FailsAfter kept =>
        match Utf8.encode text with
        | Some bs => modify (with_fs (with_file (firstn kept bs) f)) ;;
                     raise OSError
        | None => modify (with_fs (with_file [] f)) ;; raise UnicodeEncodeError
        end
    | RefusesAll | RefusesFile => raise OSError
    end.

(** [logging.error(msg)] and the like. *)
Definition logging_log (l : level) (msg : pystr) : M unit :=
  modify (fun w => with_logging_records (logging_records w ++ [(l, msg)]) w).

(** [time.strftime('%H:%M:%S')]. *)
Definition time_strftime : M pystr := gets clock.

(* ================================================================== *)
(** * Database functions *)
(* ================================================================== *)

Definition is_read_failure (e : exn) : bool :=
  match e with
  | JSONDecodeError | OSError => true
  | _ => false
  end.

Definition is_io_error (e : exn) : bool :=
  match e with
  | OSError => true
  | _ => false
  end.

Definition load_error_message : pystr :=
  Str.str "Could not read or parse " ++ path_text DATABASE_FILE
  ++ Str.str ". Starting with an empty database.".

Definition save_error_message : pystr :=
  Str.str "Could not write to " ++ path_text DATABASE_FILE ++ Str.str ".".

(** [load_database()]. *)
Definition load_database : M Json.value :=
  d <- os_path_exists DATA_DIR ;;
  (if negb d then os_makedirs DATA_DIR else ret tt) ;;
  f <- os_path_exists DATABASE_FILE ;;
  if negb f then ret (Json.JObj [])
  else try_except
         (bs <- open_read ;; json_load bs)
         is_read_failure
         (logging_log ERROR load_error_message ;; ret (Json.JObj [])).

(** [save_database(db)]. *)
Definition save_database (db : database) : M unit :=
  d <- os_path_exists DATA_DIR ;;
  (if negb d then os_makedirs DATA_DIR else ret tt) ;;
  try_except
    (write_text (Json.dumps db))
    is_io_error
    (logging_log ERROR save_error_message).

(* ================================================================== *)
(** * Status and log surface *)
(* ================================================================== *)

(** [update_status(text, color)]. *)
Definition update_status (text color : pystr) : M unit :=
  modify (with_BOT_STATUS (text, color)).

(** The entry [f"[{time.strftime('%H:%M:%S')}] {message}"]. *)
Definition log_entry (now message : pystr) : pystr :=
  Str.str "[" ++ now ++ Str.str "] " ++ message.

(** [log_to_global(message)]: [LOG_MESSAGES.insert(0, entry)], then
    [LOG_MESSAGES = LOG_MESSAGES[:50]]. *)
Definition log_to_global (message : pystr) : M unit :=
  now <- time_strftime ;;
  modify (fun w => with_LOG_MESSAGES (log_entry now message :: LOG_MESSAGES w) w) ;;
  modify (fun w => with_LOG_MESSAGES (firstn 50 (LOG_MESSAGES w)) w).

(** [api_status()] and [api_logs()]: the JSON bodies' contents. *)
Definition api_status : M (pystr * pystr) := gets BOT_STATUS.
Definition api_logs : M (list pystr) := gets LOG_MESSAGES.

(* ================================================================== *)
(** * The indexer: messages *)
(* ================================================================== *)

Record Author := {
  author_name : option pystr;
  author_icon_url : option pystr
}.

Record Embed := {
  embed_author : option Author;
  embed_description : option pystr
}.

Record Message := {
  msg_guild : option N;
  msg_author_id : N;
  msg_channel_name : pystr;
  msg_embeds : list Embed
}.

Definition TARGET_BOT_ID : N := 1261042392413372520%N.
Definition TARGET_SERVER_ID : N := 123456789012345678%N.

(** The loop under [with self.db_lock]: for each card name, skip a
    blank one, create the entry if absent, append the owner if new and
    record the card as updated. *)
Fixpoint index_cards (owner_id : pystr) (cards : list pystr) (db : database)
  (updated_cards : list pystr) : database * list pystr :=
  match cards with
  | [] => (db, updated_cards)
  | card_name :: rest =>
      if negb (Str.truthy card_name)
      then index_cards owner_id rest db updated_cards
      else
        let db1 := if negb (db_mem db card_name) then db_set db card_name []
                   else db in
        let owners := match db_get db1 card_name with
                      | Some l => l
                      | None => []
                      end in
        if negb (mem owner_id owners)
        then index_cards owner_id rest
               (db_set db1 card_name (owners ++ [owner_id]))
               (updated_cards ++ [card_name])
        else index_cards owner_id rest db1 updated_cards
  end.

(** [f"Indexed {len(updated_cards)} new card(s) from {owner_name} in
    #{message.channel.name}."] *)
Definition indexed_message (n : nat) (owner_name channel : pystr) : pystr :=
  Str.str "Indexed " ++ Str.of_nat n ++ Str.str " new card(s) from "
  ++ owner_name ++ Str.str " in #" ++ channel ++ Str.str ".".

Section Indexer.
Context {U : UnicodeData}.

(** The test on the author label: ['collection' in l or 'wishlist' in l]. *)
Definition is_listing (name : pystr) : bool :=
  let author_name_lower := Str.lower name in
  Str.contains (Str.str "collection") author_name_lower
  || Str.contains (Str.str "wishlist") author_name_lower.

(** What follows the owner extraction, for one embed. *)
Definition index_embed (message : Message) (owner_id owner_name : pystr)
  (cards : list pystr) : M unit :=
  db <- gets card_database ;;
  let (db', updated_cards) := index_cards owner_id cards db [] in
  modify (with_card_database db') ;;
  match updated_cards with
  | [] => ret tt
  | _ :: _ =>
      let log_message :=
        indexed_message (length updated_cards) owner_name
          (msg_channel_name message) in
      logging_log INFO log_message ;;
      log_to_global log_message ;;
      db2 <- gets card_database ;;
      save_database db2
  end.

(** The condition [embed.author and embed.author.name and
    embed.description and embed.author.icon_url]: the name, the
    description and the icon URL when all are present and non-empty. *)
Definition embed_fields (embed : Embed) : option (pystr * pystr * pystr) :=
  match embed_author embed with
  | None => None
  | Some a =>
      match author_name a, embed_description embed, author_icon_url a with
      | Some name, Some description, Some icon_url =>
          if Str.truthy name && Str.truthy description && Str.truthy icon_url
          then Some (name, description, icon_url)
          else None
      | _, _, _ => None
      end
  end.

(** The body of [for embed in message.embeds]. *)
Definition on_embed (message : Message) (embed : Embed) : M unit :=
  match embed_fields embed with
  | None => ret tt
  | Some (name, description, icon_url) =>
      if is_listing name then
        match owner_id_match icon_url with
        | None => ret tt
        | Some owner_id =>
            index_embed message owner_id (owner_name_of name)
              (cards_in_embed description)
        end
      else ret tt
  end.

(** [IndexerBot.on_message]. *)
Definition on_message (message : Message) : M unit :=
  match msg_guild message with
  | None => ret tt
  | Some guild_id =>
      if negb (guild_id =? TARGET_SERVER_ID)%N
         || negb (msg_author_id message =? TARGET_BOT_ID)%N
         || match msg_embeds message with [] => true | _ => false end
      then ret tt
      else for_each (on_embed message) (msg_embeds message)
  end.

(** [IndexerBot.__init__]: [self.card_database = load_database()].  The
    in-memory database of this model is typed; a stored value of another
    shape ends the model's run with [NotADatabase]. *)
Definition bot_init : M unit :=
  v <- load_database ;;
  match Json.as_database v with
  | Some db => modify (with_card_database db)
  | None => raise NotADatabase
  end.

(* ------------------------------------------------------------------ *)
(** ** The query service *)
(* ------------------------------------------------------------------ *)

(** [found_ids.update(owner_list)] on a set kept as a duplicate-free
    list. *)
Definition set_add (x : pystr) (s : list pystr) : list pystr :=
  if mem x s then s else s ++ [x].

Definition set_update (s : list pystr) (l : list pystr) : list pystr :=
  fold_left (fun acc x => set_add x acc) l s.

(** [sorted(...)] on strings. *)
Fixpoint insert_sorted (x : pystr) (l : list pystr) : list pystr :=
  match l with
  | [] => [x]
  | y :: r => if Str.leb x y then x :: l else y :: insert_sorted x r
  end.

Definition sorted (l : list pystr) : list pystr :=
  fold_right insert_sorted [] l.

(** The body of the loop of [api_search] over [db.items()]. *)
Definition found_step (query : pystr) (found : list pystr)
  (item : pystr * list pystr) : list pystr :=
  if Str.contains query (Str.lower (fst item))
  then set_update found (snd item)
  else found.

Definition found_ids (query : pystr) (db : database) : list pystr :=
  fold_left (found_step query) db [].

(** [api_search()], with [q] the request's parameter if it has one.  The
    result is the list under ["owners"].  A stored value that is not a
    card database is outside the typed model ([NotADatabase]). *)
Definition api_search (q : option pystr) : M (list pystr) :=
  let query :=
    Str.strip (Str.lower (match q with Some s => s | None => [] end)) in
  if negb (Str.truthy query) then ret []
  else
    v <- load_database ;;
    match Json.as_database v with
    | Some db => ret (sorted (found_ids query db))
    | None => raise NotADatabase
    end.

(** The query service in the words of its description: lower-case the
    query, collect the owners of every card whose lower-cased name
    contains it, return them sorted and without duplicates. *)
Definition described_search (q : pystr) (db : database) : list pystr :=
  sorted (found_ids (Str.lower q) db).

End Indexer.

(* ================================================================== *)
(** * Observations and examples used in the statements *)
(* ================================================================== *)

(** A Unicode database that classifies nothing beyond ASCII; it serves to
    run the program on ASCII inputs, where the tables are not consulted. *)
Definition ascii_only : UnicodeData :=
  {| uni_space := fun _ => false;
     uni_decimal := fun _ => false;
     uni_lower := fun s => s |}.

Definition io_event_eq_dec (a b : io_event) : {a = b} + {a <> b}.
Proof. decide equality; decide equality. Defined.

(** How many times the database file was opened for writing. *)
Definition writes (w : World) : nat :=
  count_occ io_event_eq_dec (io_trace w) (OpenWrite DATABASE_FILE).

(** The world after the file-system calls [evs] were recorded. *)
Definition traced (evs : list io_event) (w : World) : World :=
  with_io_trace (io_trace w ++ evs) w.

(** A run of log-recording calls, each at its own wall-clock time. *)
Definition log_calls (calls : list (pystr * pystr)) : M unit :=
  for_each (fun c => modify (with_clock (fst c)) ;; log_to_global (snd c)) calls.

Definition pystr_eq_dec : forall a b : pystr, {a = b} + {a <> b} :=
  list_eq_dec N.eq_dec.

(** The owner list of a card, empty when the card has no entry. *)
Definition owners_of (db : database) (card_name : pystr) : list pystr :=
  match db_get db card_name with Some l => l | None => [] end.

(** The invariant of the data model: no owner identifier occurs twice
    in a card's list. *)
Definition owners_unique (db : database) : Prop :=
  Forall (fun e => NoDup (snd e)) db.

(** A card name is a non-blank string: the mutator passes over blank
    ones. *)
Definition is_card_name (n : pystr) : Prop := Str.truthy n = true.

Definition first_char (s : pystr) : option codepoint := hd_error s.
Definition last_char (s : pystr) : option codepoint := hd_error (rev s).

(** Printable ASCII and the line feed: the characters a text-mode file
    stores as one byte each and returns as they are. *)
Definition plain (c : codepoint) : bool :=
  ((c <? 128) && negb (c =? 13))%N.

Definition all_plain (s : pystr) : Prop := Forall (fun c => plain c = true) s.

(** A string [json.dump] and [json.load] carry through unchanged: its
    code points are below 0x110000, and no high surrogate is directly
    followed by a low surrogate. *)
Fixpoint json_safe (s : pystr) : bool :=
  match s with
  | [] => true
  | c :: r =>
      (c <? 0x110000)%N
      && match r with
         | d :: _ => negb (Json.is_high c && Json.is_low d)
         | [] => true
         end
      && json_safe r
  end.

Definition safe_entry (e : pystr * list pystr) : Prop :=
  json_safe (fst e) = true /\ Forall (fun o => json_safe o = true) (snd e).

(** A database as a Python [dict] holds it, with strings that JSON
    carries through: the keys are distinct. *)
Definition db_json_safe (db : database) : Prop :=
  NoDup (map fst db)
  /\ Forall safe_entry db.

(** The embed body ["12 - AB Firebolt Dragon\n\n34 -  Shield Knight"]. *)
Definition example_body : pystr :=
  Str.str "12 - AB Firebolt Dragon" ++ [Str.NEWLINE; Str.NEWLINE]
  ++ Str.str "34 -  Shield Knight".

(** The database [{"Firebolt Dragon": ["1","2"], "Shield Knight": ["3"]}]. *)
Definition example_db : database :=
  [ (Str.str "Firebolt Dragon", [Str.str "1"; Str.str "2"]);
    (Str.str "Shield Knight", [Str.str "3"]) ].

(** A file system whose database file holds [bs]. *)
Definition fs_with (bs : list byte) : FileSystem :=
  {| dir_present := true; file_bytes := Some bs;
     read_ok := true; write_ok := true; write_fault := RefusesAll |}.

(** A process just started whose database file holds the JSON text of
    [example_db]. *)
Definition example_world : World :=
  boot (fs_with (map Utf8.byte_of (Json.dumps example_db)))
       (Str.str "12:00:00").

(** Strictly ascending order on strings. *)
Definition str_lt (a b : pystr) : Prop := Str.ltb a b = true.

(** An embed with the given author label, icon URL and body. *)
Definition embed_of (name icon_url description : pystr) : Embed :=
  {| embed_author := Some {| author_name := Some name;
                             author_icon_url := Some icon_url |};
     embed_description := Some description |}.

(** An embed of Alice's collection, in a message from the indexed bot on
    the indexed server. *)
Definition example_url : pystr :=
  Str.str "https://cdn.discordapp.com/avatars/555/abc.png".

Definition example_embed : Embed :=
  embed_of (Str.str "Alice's Collection") example_url
    (Str.str "12 - AB Firebolt Dragon").

Definition example_message : Message :=
  {| msg_guild := Some TARGET_SERVER_ID;
     msg_author_id := TARGET_BOT_ID;
     msg_channel_name := Str.str "cards";
     msg_embeds := [example_embed] |}.

Definition empty_fs : FileSystem :=
  {| dir_present := false; file_bytes := None;
     read_ok := true; write_ok := true; write_fault := RefusesAll |}.

(* ================================================================== *)
(** * What the indexer has already seen, and the shape of its database *)
(* ================================================================== *)

(** The owner is listed under every non-blank card of [cards]. *)
Definition covered (o : pystr) (cards : list pystr) (db : database) : Prop :=
  forall n, In n cards -> is_card_name n -> In o (owners_of db n).

Section Settled.
Context {U : UnicodeData}.

(** The owner id and the card names [on_embed] indexes for an embed, if
    the embed qualifies. *)
Definition embed_pairs (embed : Embed) : option (pystr * list pystr) :=
  match embed_fields embed with
  | None => None
  | Some (name, description, icon_url) =>
      if is_listing name then
        match owner_id_match icon_url with
        | None => None
        | Some owner_id => Some (owner_id, cards_in_embed description)
        end
      else None
  end.

(** Everything the embed would index is in the database already. *)
Definition settled (embed : Embed) (db : database) : Prop :=
  match embed_pairs embed with
  | Some (o, cards) => covered o cards db
  | None => True
  end.

(** A clean card name: not blank, no whitespace at either end. *)
Definition clean_name (k : pystr) : Prop :=
  is_card_name k
  /\ (forall c, first_char k = Some c -> Str.is_space c = false)
  /\ (forall c, last_char k = Some c -> Str.is_space c = false).

(** An owner id as the avatar pattern captures it: a non-empty run of
    decimal digits. *)
Definition digit_run (d : pystr) : Prop :=
  d <> [] /\ forallb Str.is_decimal d = true.

(** A database the indexer could have built: every key is a clean card
    name, every owner a digit run. *)
Definition tidy (db : database) : Prop :=
  Forall (fun e => clean_name (fst e) /\ Forall digit_run (snd e)) db.

(** The start of [s], if any, is not in the class. *)
Definition head_not (cls : codepoint -> bool) (s : pystr) : Prop :=
  match s with
  | x :: _ => cls x = false
  | [] => True
  end.

End Settled.


(** The data directory is there or can be made: [save_database] and
    [load_database] get past their first two lines. *)
Definition store_ready (f : FileSystem) : bool :=
  dir_present f || makedirs_ok f.

(** What the database file holds after [save_database] tried to write
    [bs] to a store that did not accept the write: the part that
    reached the file if the write failed after the file was opened,
    what it held before otherwise. *)
Definition after_failed_write (f : FileSystem) (bs : list byte)
  : option (list byte) :=
  match write_fault f with
  | FailsAfter kept => Some (firstn kept bs)
  | RefusesAll | RefusesFile => if dir_present f then file_bytes f else None
  end.

(** A store whose directory exists and whose disk is full: the file is
    opened, and emptied, and nothing more reaches it. *)
Definition full_disk_fs (bs : list byte) : FileSystem :=
  {| dir_present := true; file_bytes := Some bs;
     read_ok := true; write_ok := false; write_fault := FailsAfter 0 |}.

(** A store without the data directory, which cannot be made. *)
Definition no_directory_fs : FileSystem :=
  {| dir_present := false; file_bytes := None;
     read_ok := true; write_ok := false; write_fault := RefusesAll |}.

(** A store whose directory exists and which refuses every write. *)
Definition read_only_fs : FileSystem :=
  {| dir_present := true; file_bytes := None;
     read_ok := true; write_ok := false; write_fault := RefusesAll |}.

(** The database once the embed of Alice's collection is indexed. *)
Definition indexed_db : database :=
  [ (Str.str "Firebolt Dragon", [Str.str "555"]) ].

(** A process just started, with no data directory yet. *)
Definition fresh_world : World := boot empty_fs (Str.str "12:00:00").

(* ================================================================== *)
(** * Facts about strings *)
(* ================================================================== *)

Unset Implicit Arguments.

Module StrFacts.

Lemma eqb_eq (a b : pystr) : Str.eqb a b = true <-> a = b.
Proof.
  revert b; induction a as [|x a IH]; intros [|y b]; simpl; split;
    try congruence; try reflexivity.
  - intros H. apply andb_true_iff in H as [Hx Hr].
    apply N.eqb_eq in Hx. apply IH in Hr. congruence.
  - intros H. injection H as -> ->. rewrite N.eqb_refl. simpl. now apply IH.
Qed.

Lemma eqb_refl (a : pystr) : Str.eqb a a = true.
Proof. now apply eqb_eq. Qed.

Lemma eqb_neq (a b : pystr) : Str.eqb a b = false <-> a <> b.
Proof.
  split.
  - intros H E. apply eqb_eq in E. congruence.
  - intros H. destruct (Str.eqb a b) eqn:E; [|reflexivity].
    apply eqb_eq in E. contradiction.
Qed.

Lemma eqb_sym (a b : pystr) : Str.eqb a b = Str.eqb b a.
Proof.
  destruct (Str.eqb a b) eqn:E.
  - apply eqb_eq in E. subst. symmetry. apply eqb_refl.
  - apply eqb_neq in E. symmetry. apply eqb_neq. congruence.
Qed.

Lemma dropwhile_head (p : codepoint -> bool) (s : pystr) (c : codepoint) :
  hd_error (Str.dropwhile p s) = Some c -> p c = false.
Proof.
  induction s as [|x s IH]; simpl; [discriminate|].
  destruct (p x) eqn:E; [exact IH|].
  simpl. congruence.
Qed.

Lemma dropwhile_suffix (p : codepoint -> bool) (s : pystr) :
  exists pre, s = pre ++ Str.dropwhile p s.
Proof.
  induction s as [|x s [pre IH]]; simpl.
  - now exists [].
  - destruct (p x).
    + exists (x :: pre). simpl. now f_equal.
    + now exists [].
Qed.

Lemma hd_error_app_some (A : Type) (a b : list A) x :
  hd_error a = Some x -> hd_error (a ++ b) = Some x.
Proof. destruct a; simpl; congruence. Qed.

Section WithUnicode.
Context {U : UnicodeData}.

Lemma strip_last (s : pystr) (c : codepoint) :
  last_char (Str.strip s) = Some c -> Str.is_space c = false.
Proof.
  unfold last_char, Str.strip, Str.rstrip. rewrite rev_involutive.
  apply dropwhile_head.
Qed.

Lemma strip_first (s : pystr) (c : codepoint) :
  first_char (Str.strip s) = Some c -> Str.is_space c = false.
Proof.
  unfold first_char, Str.strip, Str.rstrip, Str.lstrip. intros H.
  destruct (dropwhile_suffix Str.is_space (rev (Str.dropwhile Str.is_space s)))
    as [pre Hpre].
  apply (f_equal (@rev _)) in Hpre.
  rewrite rev_involutive, rev_app_distr in Hpre.
  apply (dropwhile_head Str.is_space s).
  rewrite Hpre. now apply hd_error_app_some.
Qed.

End WithUnicode.

End StrFacts.

(* ================================================================== *)
(** * Card-name cleaning *)
(* ================================================================== *)

Section CleaningFacts.
Context {U : UnicodeData}.

(** C10.  Whatever the line, the string [clean_card_name] returns has
    no whitespace at either end: its first and its last character, when
    it has any, are not whitespace.  A line without the numeric prefix
    goes through [strip] all the same. *)
Theorem clean_card_name_is_stripped (line : pystr) :
  (forall c, first_char (clean_card_name line) = Some c ->
             Str.is_space c = false)
  /\ (forall c, last_char (clean_card_name line) = Some c ->
                Str.is_space c = false)
  /\ (Re.match_here card_prefix_re line = None ->
      clean_card_name line = Str.strip line).
Proof.
  unfold clean_card_name. repeat split.
  - intros c. apply StrFacts.strip_first.
  - intros c. apply StrFacts.strip_last.
  - intros H. unfold Re.sub_prefix. now rewrite H.
Qed.

(** C1 (the code at the claim's input).  On the embed body
    ["12 - AB Firebolt Dragon\n\n34 -  Shield Knight"] the lines,
    cleaned and with blank results dropped, are ["Firebolt Dragon"] and
    ["hield Knight"]: with no tag on the second line, the class
    [[A-Z-]*] of the prefix pattern takes the capital letter the card
    name starts with.  The result is not the list the description
    gives. *)
Theorem example_body_cards :
  filter Str.truthy (cards_in_embed example_body)
  = [Str.str "Firebolt Dragon"; Str.str "hield Knight"]
  /\ filter Str.truthy (cards_in_embed example_body)
     <> [Str.str "Firebolt Dragon"; Str.str "Shield Knight"].
Proof.
  assert (E : filter Str.truthy (cards_in_embed example_body)
              = [Str.str "Firebolt Dragon"; Str.str "hield Knight"])
    by (vm_compute; reflexivity).
  split; [exact E|]. rewrite E. vm_compute. discriminate.
Qed.

End CleaningFacts.

(* ================================================================== *)
(** * The log surface *)
(* ================================================================== *)

Arguments firstn : simpl never.

Lemma firstn_app_firstn (A : Type) (n : nat) (a b : list A) :
  firstn n (a ++ firstn n b) = firstn n (a ++ b).
Proof.
  rewrite !firstn_app, firstn_firstn.
  f_equal. f_equal. lia.
Qed.

Lemma log_to_global_run (message : pystr) (w : World) :
  log_to_global message w
  = (Ok tt,
     with_LOG_MESSAGES
       (firstn 50 (log_entry (clock w) message :: LOG_MESSAGES w)) w).
Proof. reflexivity. Qed.

Lemma log_calls_cons (c : pystr * pystr) (calls : list (pystr * pystr))
  (w : World) :
  log_calls (c :: calls) w
  = log_calls calls
      (with_LOG_MESSAGES
         (firstn 50 (log_entry (fst c) (snd c) :: LOG_MESSAGES w))
         (with_clock (fst c) w)).
Proof. reflexivity. Qed.

Lemma log_calls_from (calls : list (pystr * pystr)) (w : World) :
  length (LOG_MESSAGES w) <= 50 ->
  fst (log_calls calls w) = Ok tt
  /\ LOG_MESSAGES (snd (log_calls calls w))
     = firstn 50 (rev (map (fun c => log_entry (fst c) (snd c)) calls)
                  ++ LOG_MESSAGES w).
Proof.
  revert w. induction calls as [|c calls IH]; intros w Hlen.
  - split; [reflexivity|]. symmetry. now apply firstn_all2.
  - rewrite log_calls_cons.
    set (w1 := with_LOG_MESSAGES _ _).
    assert (H1 : length (LOG_MESSAGES w1) <= 50)
      by (subst w1; cbn [LOG_MESSAGES with_LOG_MESSAGES]; apply firstn_le_length).
    destruct (IH w1 H1) as [Hok Hlog].
    split; [exact Hok|].
    rewrite Hlog. subst w1. cbn [LOG_MESSAGES with_LOG_MESSAGES with_clock clock].
    rewrite firstn_app_firstn. cbn [map rev].
    now rewrite <- app_assoc.
Qed.

(** C9.  One call of [log_to_global] puts the new entry at the front
    and keeps the first 50 entries; from the state the module starts in,
    any run of calls leaves the entries newest first and cut to 50, at
    most 50 of them; and [/api/logs] returns that list and changes
    nothing. *)
Theorem log_messages_newest_first_at_most_50 :
  (forall message w,
      LOG_MESSAGES (snd (log_to_global message w))
      = firstn 50 (log_entry (clock w) message :: LOG_MESSAGES w))
  /\ (forall f now calls,
         let w := snd (log_calls calls (boot f now)) in
         LOG_MESSAGES w
         = firstn 50 (rev (map (fun c => log_entry (fst c) (snd c)) calls))
         /\ length (LOG_MESSAGES w) <= 50
         /\ api_logs w = (Ok (LOG_MESSAGES w), w)).
Proof.
  split.
  - intros message w. now rewrite log_to_global_run.
  - intros f now calls w.
    assert (E : LOG_MESSAGES w
                = firstn 50 (rev (map (fun c => log_entry (fst c) (snd c)) calls))).
    { subst w.
      destruct (log_calls_from calls (boot f now)) as [_ H];
        [simpl; lia|].
      rewrite H. cbn [LOG_MESSAGES boot]. now rewrite app_nil_r. }
    repeat split.
    + exact E.
    + rewrite E. apply firstn_le_length.
Qed.

(* ================================================================== *)
(** * Loading and saving: how the calls run *)
(* ================================================================== *)

(** Unfold the monad and the primitives down to the world record. *)
Ltac unfold_io :=
  cbv beta iota zeta delta
    [load_database save_database bind os_path_exists record_io modify gets
     os_makedirs ret try_except open_read json_load read_text write_text
     logging_log raise traced file_present with_io_trace
     with_logging_records with_fs with_card_database with_LOG_MESSAGES
     with_clock with_BOT_STATUS log_to_global time_strftime
     fs io_trace logging_records clock LOG_MESSAGES BOT_STATUS card_database
     dir_present file_bytes read_ok write_ok write_fault makedirs_ok
     with_file limits andb negb orb
     is_read_failure is_io_error fst snd].

Lemma load_database_absent (w : World) :
  file_present (fs w) = false ->
  dir_present (fs w) = true \/ makedirs_ok (fs w) = true ->
  exists w',
    load_database w = (Ok (Json.JObj []), w')
    /\ exists evs, io_trace w' = io_trace w ++ Exists DATA_DIR :: evs.
Proof.
  destruct w as [[d fb r wo wf] tr lr ck lm st db [sd md]].
  unfold file_present, makedirs_ok. cbn. intros Habs Hdir. unfold_io.
  destruct d; cbn in *.
  - rewrite Habs. cbn. eexists. split; [reflexivity|]. cbn.
    eexists. rewrite <- app_assoc. reflexivity.
  - destruct Hdir as [Hdir|Hdir]; [discriminate|].
    destruct wo, wf; cbn in Hdir; try discriminate;
      (eexists; split; [reflexivity|]; cbn;
       eexists; rewrite <- !app_assoc; reflexivity).
Qed.

(** The data directory is missing and cannot be made: [os.makedirs]
    raises, outside every [try]. *)
Lemma load_database_no_directory (w : World) :
  dir_present (fs w) = false ->
  makedirs_ok (fs w) = false ->
  load_database w
  = (Raised OSError, traced [Exists DATA_DIR; Makedirs DATA_DIR] w).
Proof.
  destruct w as [[d fb r wo wf] tr lr ck lm st db [sd md]].
  unfold makedirs_ok. cbn. intros -> Hm.
  destruct wo, wf; cbn in Hm; try discriminate.
  unfold_io. rewrite <- app_assoc. reflexivity.
Qed.

Lemma load_database_present (w : World) (bs : list byte) :
  dir_present (fs w) = true ->
  file_bytes (fs w) = Some bs ->
  load_database w
  = let w1 := traced [Exists DATA_DIR; Exists DATABASE_FILE;
                      OpenRead DATABASE_FILE] w in
    let recovered :=
      (Ok (Json.JObj []),
       with_logging_records
         (logging_records w ++ [(ERROR, load_error_message)]) w1) in
    if read_ok (fs w) then
      match Utf8.decode bs with
      | None => (Raised UnicodeDecodeError, w1)
      | Some text =>
          match Json.loads (decoder_room (limits w))
                  (int_max_str_digits (limits w))
                  (Utf8.universal_newlines text) with
          | Json.Value v => (Ok v, w1)
          | Json.Invalid => recovered
          | Json.TooDeep => (Raised RecursionError, w1)
          | Json.TooLong => (Raised ValueError, w1)
          end
      end
    else recovered.
Proof.
  destruct w as [[d fb r wo wf] tr lr ck lm st db [sd md]]. cbn. intros -> ->.
  unfold_io. rewrite <- !app_assoc. cbn [app].
  destruct r; unfold_io; [|reflexivity].
  destruct (Utf8.decode bs) as [text|]; unfold_io; [|reflexivity].
  destruct (Json.loads _ _ _); reflexivity.
Qed.

Lemma load_database_leaves_a_trace (w : World) :
  exists evs,
    io_trace (snd (load_database w)) = io_trace w ++ Exists DATA_DIR :: evs.
Proof.
  destruct (file_present (fs w)) eqn:Hp.
  - unfold file_present in Hp. apply andb_true_iff in Hp as [Hd Hf].
    destruct (file_bytes (fs w)) as [bs|] eqn:Hb; [|discriminate].
    rewrite (load_database_present w bs Hd Hb). cbv zeta.
    exists [Exists DATABASE_FILE; OpenRead DATABASE_FILE].
    destruct (read_ok (fs w)); [destruct (Utf8.decode bs) as [text|];
      [destruct (Json.loads _ _ _)|]|]; reflexivity.
  - destruct (dir_present (fs w)) eqn:Hd;
      [|destruct (makedirs_ok (fs w)) eqn:Hm].
    + destruct (load_database_absent w Hp (or_introl Hd))
        as (w' & E & evs & Ht).
      rewrite E. exists evs. exact Ht.
    + destruct (load_database_absent w Hp (or_intror Hm))
        as (w' & E & evs & Ht).
      rewrite E. exists evs. exact Ht.
    + rewrite (load_database_no_directory w Hd Hm).
      exists [Makedirs DATA_DIR]. reflexivity.
Qed.

Section QueryFacts.
Context {U : UnicodeData}.

(** C4.  A search with an empty query string (or with no [q] parameter,
    which defaults to the empty string) returns the empty owners list
    and leaves the whole process state as it was, the record of
    file-system calls included; any call of [load_database] would have
    added to that record, starting with its check of the data
    directory. *)
Theorem empty_query_reads_nothing (w : World) :
  api_search (Some []) w = (Ok [], w)
  /\ api_search None w = (Ok [], w)
  /\ exists evs,
       io_trace (snd (load_database w))
       = io_trace w ++ Exists DATA_DIR :: evs.
Proof.
  repeat split. apply load_database_leaves_a_trace.
Qed.

End QueryFacts.

(* ================================================================== *)
(** * The database mutator *)
(* ================================================================== *)

Module DbFacts.

Lemma mem_In (o : pystr) (l : list pystr) : mem o l = true <-> In o l.
Proof.
  unfold mem. rewrite existsb_exists. split.
  - intros (x & Hx & E). apply StrFacts.eqb_eq in E. now subst.
  - intros H. exists o. split; [exact H|apply StrFacts.eqb_refl].
Qed.

Lemma mem_false (o : pystr) (l : list pystr) : mem o l = false <-> ~ In o l.
Proof.
  rewrite <- mem_In. destruct (mem o l); split; congruence.
Qed.

Lemma get_set_same (db : database) (k : pystr) (v : list pystr) :
  db_get (db_set db k v) k = Some v.
Proof.
  induction db as [|[k' v'] db IH]; simpl.
  - now rewrite StrFacts.eqb_refl.
  - destruct (Str.eqb k' k) eqn:E; simpl; rewrite E; [reflexivity|exact IH].
Qed.

Lemma get_set_other (db : database) (k k' : pystr) (v : list pystr) :
  k <> k' -> db_get (db_set db k v) k' = db_get db k'.
Proof.
  intros Hne. induction db as [|[k0 v0] db IH]; simpl.
  - apply StrFacts.eqb_neq in Hne. now rewrite Hne.
  - destruct (Str.eqb k0 k) eqn:E; simpl.
    + apply StrFacts.eqb_eq in E. subst k0.
      apply StrFacts.eqb_neq in Hne. now rewrite Hne.
    + now rewrite IH.
Qed.

Lemma unique_get (db : database) (k : pystr) (l : list pystr) :
  owners_unique db -> db_get db k = Some l -> NoDup l.
Proof.
  unfold owners_unique. induction db as [|[k' v'] db IH]; simpl; [discriminate|].
  intros H Hg. inversion H; subst.
  destruct (Str.eqb k' k); [injection Hg as <-; assumption|auto].
Qed.

Lemma unique_set (db : database) (k : pystr) (v : list pystr) :
  owners_unique db -> NoDup v -> owners_unique (db_set db k v).
Proof.
  unfold owners_unique. intros H Hv.
  induction db as [|[k' v'] db IH]; simpl.
  - constructor; [exact Hv|constructor].
  - inversion H; subst. destruct (Str.eqb k' k); constructor; auto.
Qed.

Lemma NoDup_snoc (l : list pystr) (o : pystr) :
  NoDup l -> ~ In o l -> NoDup (l ++ [o]).
Proof.
  intros Hl Hn. apply NoDup_rev in Hl.
  rewrite <- (rev_involutive (l ++ [o])). apply NoDup_rev.
  rewrite rev_app_distr. simpl. constructor; [|exact Hl].
  now rewrite <- in_rev.
Qed.

(** One pass of the loop body on a non-blank card name. *)
Lemma index_cards_cons (o n : pystr) (rest : list pystr) (db : database)
  (upd : list pystr) :
  is_card_name n ->
  index_cards o (n :: rest) db upd
  = if mem o (owners_of db n)
    then index_cards o rest db upd
    else index_cards o rest (db_set db n (owners_of db n ++ [o])) (upd ++ [n]).
Proof.
  unfold is_card_name. intros Hn. cbn [index_cards]. rewrite Hn. cbn [negb].
  unfold db_mem, owners_of.
  destruct (db_get db n) as [l|] eqn:Hg; cbn [negb].
  - rewrite Hg. now destruct (mem o l).
  - rewrite get_set_same. cbn [mem existsb negb app].
    f_equal. clear Hn.
    induction db as [|[k' v'] db IH]; simpl in *.
    + now rewrite StrFacts.eqb_refl.
    + destruct (Str.eqb k' n) eqn:E; [discriminate|]. simpl. rewrite E.
      now rewrite IH.
Qed.

Lemma index_cards_blank (o : pystr) (rest : list pystr) (db : database)
  (upd : list pystr) :
  index_cards o ([] :: rest) db upd = index_cards o rest db upd.
Proof. reflexivity. Qed.

Lemma blank_or_card_name (n : pystr) : n = [] \/ is_card_name n.
Proof. destruct n; [now left|now right]. Qed.

Lemma index_cards_unique (o : pystr) (cards : list pystr) :
  forall db upd,
    owners_unique db -> owners_unique (fst (index_cards o cards db upd)).
Proof.
  induction cards as [|n cards IH]; intros db upd Hu; [exact Hu|].
  destruct (blank_or_card_name n) as [->|Hn].
  - rewrite index_cards_blank. now apply IH.
  - rewrite (index_cards_cons o n cards db upd Hn).
    destruct (mem o (owners_of db n)) eqn:Hm; [now apply IH|].
    apply IH. apply unique_set; [exact Hu|].
    apply NoDup_snoc; [|now apply mem_false].
    unfold owners_of. destruct (db_get db n) eqn:Hg; [|constructor].
    eapply unique_get; eassumption.
Qed.

(** The cards recorded as updated are appended to [upd]; when none is,
    the mapping has not changed. *)
Lemma index_cards_updated (o : pystr) (cards : list pystr) :
  forall db upd,
    exists news,
      snd (index_cards o cards db upd) = upd ++ news
      /\ (news = [] -> fst (index_cards o cards db upd) = db).
Proof.
  induction cards as [|n cards IH]; intros db upd.
  - exists []. simpl. now rewrite app_nil_r.
  - destruct (blank_or_card_name n) as [->|Hn].
    + rewrite index_cards_blank. apply IH.
    + rewrite (index_cards_cons o n cards db upd Hn).
      destruct (mem o (owners_of db n)) eqn:Hm; [apply IH|].
      destruct (IH (db_set db n (owners_of db n ++ [o])) (upd ++ [n]))
        as (news & Hs & _).
      exists (n :: news). split; [|discriminate].
      rewrite Hs. now rewrite <- app_assoc.
Qed.

Lemma index_cards_none_updated (o : pystr) (cards : list pystr) (db : database) :
  snd (index_cards o cards db []) = [] ->
  fst (index_cards o cards db []) = db.
Proof.
  destruct (index_cards_updated o cards db []) as (news & Hs & Hdb).
  simpl in Hs. intros E. apply Hdb. congruence.
Qed.

End DbFacts.

(* ================================================================== *)
(** * Saving, and what one embed does to the world *)
(* ================================================================== *)

Lemma writes_traced (evs : list io_event) (w : World) :
  writes (traced evs w) = writes w + writes (with_io_trace evs w).
Proof. unfold writes, traced. cbn [io_trace with_io_trace]. apply count_occ_app. Qed.

(** Case analysis on the store, for a call of [save_database db]. *)
Ltac save_cases db d wo wf :=
  unfold_io; destruct d, wo, wf; unfold_io;
  try destruct (Utf8.encode (Json.dumps db)); unfold_io.

Lemma save_database_keeps_memory (db : database) (w : World) :
  card_database (snd (save_database db w)) = card_database w
  /\ LOG_MESSAGES (snd (save_database db w)) = LOG_MESSAGES w.
Proof.
  destruct w as [[d fb r wo wf] tr lr ck lm st cdb [sd md]].
  save_cases db d wo wf; split; reflexivity.
Qed.

Lemma save_database_writes_once (db : database) (w : World) :
  dir_present (fs w) = true \/ makedirs_ok (fs w) = true ->
  writes (snd (save_database db w)) = S (writes w).
Proof.
  destruct w as [[d fb r wo wf] tr lr ck lm st cdb [sd md]].
  unfold makedirs_ok. cbn [fs dir_present write_ok write_fault]. intros H.
  save_cases db d wo wf;
    try (destruct H as [H|H]; discriminate H);
    unfold writes; cbn [io_trace]; rewrite !count_occ_app; cbn; lia.
Qed.

(** The data directory is missing and cannot be made: [os.makedirs]
    raises, outside the [try]. *)
Lemma save_database_no_directory (db : database) (w : World) :
  dir_present (fs w) = false ->
  makedirs_ok (fs w) = false ->
  save_database db w
  = (Raised OSError, traced [Exists DATA_DIR; Makedirs DATA_DIR] w).
Proof.
  destruct w as [[d fb r wo wf] tr lr ck lm st cdb [sd md]].
  unfold makedirs_ok. cbn. intros -> Hm.
  destruct wo, wf; cbn in Hm; try discriminate.
  unfold_io. rewrite <- app_assoc. reflexivity.
Qed.

Lemma save_database_stores (db : database) (w : World) (bs : list byte) :
  write_ok (fs w) = true ->
  Utf8.encode (Json.dumps db) = Some bs ->
  fst (save_database db w) = Ok tt
  /\ fs (snd (save_database db w))
     = {| dir_present := true; file_bytes := Some bs;
          read_ok := read_ok (fs w); write_ok := true;
          write_fault := write_fault (fs w) |}.
Proof.
  destruct w as [[d fb r wo wf] tr lr ck lm st cdb [sd md]]. cbn. intros -> He.
  unfold_io. destruct d; unfold_io; rewrite He; split; reflexivity.
Qed.

Section IndexerFacts.
Context {U : UnicodeData}.

Lemma index_embed_run (message : Message) (owner_id owner_name : pystr)
  (cards : list pystr) (w : World) :
  index_embed message owner_id owner_name cards w
  = let r := index_cards owner_id cards (card_database w) [] in
    match snd r with
    | [] => (Ok tt, with_card_database (fst r) w)
    | _ :: _ =>
        let log_message :=
          indexed_message (length (snd r)) owner_name (msg_channel_name message) in
        save_database (fst r)
          (with_LOG_MESSAGES
             (firstn 50 (log_entry (clock w) log_message :: LOG_MESSAGES w))
             (with_logging_records (logging_records w ++ [(INFO, log_message)])
                (with_card_database (fst r) w)))
    end.
Proof.
  unfold index_embed. unfold bind at 1. cbn [gets].
  destruct (index_cards owner_id cards (card_database w) []) as [db' upd].
  cbv zeta. cbn [fst snd]. destruct upd as [|u upd]; reflexivity.
Qed.

Lemma with_card_database_same (w : World) :
  with_card_database (card_database w) w = w.
Proof. now destruct w. Qed.

Lemma index_embed_unique (message : Message) (owner_id owner_name : pystr)
  (cards : list pystr) (w : World) :
  owners_unique (card_database w) ->
  owners_unique
    (card_database (snd (index_embed message owner_id owner_name cards w))).
Proof.
  intros Hu. rewrite index_embed_run. cbv zeta.
  pose proof (DbFacts.index_cards_unique owner_id cards (card_database w) [] Hu)
    as Hu'.
  destruct (snd (index_cards owner_id cards (card_database w) [])) as [|p l].
  - exact Hu'.
  - destruct (save_database_keeps_memory
                (fst (index_cards owner_id cards (card_database w) []))
                (with_LOG_MESSAGES
                   (firstn 50
                      (log_entry (clock w)
                         (indexed_message (length (p :: l)) owner_name
                            (msg_channel_name message)) :: LOG_MESSAGES w))
                   (with_logging_records
                      (logging_records w ++
                       [(INFO, indexed_message (length (p :: l)) owner_name
                                 (msg_channel_name message))])
                      (with_card_database
                         (fst (index_cards owner_id cards (card_database w) []))
                         w)))) as [E _].
    rewrite E. exact Hu'.
Qed.

Lemma on_embed_unique (message : Message) (embed : Embed) (w : World) :
  owners_unique (card_database w) ->
  owners_unique (card_database (snd (on_embed message embed w))).
Proof.
  intros Hu. unfold on_embed.
  destruct (embed_fields embed) as [[[name description] icon_url]|]; [|exact Hu].
  destruct (is_listing name); [|exact Hu].
  destruct (owner_id_match icon_url); [|exact Hu].
  now apply index_embed_unique.
Qed.

Lemma for_each_on_embed_unique (message : Message) (embeds : list Embed) :
  forall w,
    owners_unique (card_database w) ->
    owners_unique
      (card_database (snd (for_each (on_embed message) embeds w))).
Proof.
  induction embeds as [|e embeds IH]; intros w Hu; [exact Hu|].
  cbn [for_each]. unfold bind.
  pose proof (on_embed_unique message e w Hu) as H1.
  destruct (on_embed message e w) as [[[]|ex] w1]; cbn [snd] in *.
  - now apply IH.
  - exact H1.
Qed.

Lemma on_message_unique (message : Message) (w : World) :
  owners_unique (card_database w) ->
  owners_unique (card_database (snd (on_message message w))).
Proof.
  intros Hu. unfold on_message.
  destruct (msg_guild message); [|exact Hu].
  match goal with |- context [if ?c then _ else _] => destruct c end;
    [exact Hu|].
  now apply for_each_on_embed_unique.
Qed.

(** C2.  On a database that keeps the invariant, indexing the pair of a
    card name [n] and an owner [o] twice leaves exactly one occurrence
    of [o] in the owner list of [n], the second pass changing nothing;
    and the invariant (no owner twice in a card's list) is kept by the
    mutator, whatever cards it is given, and by [on_message] as a
    whole, whatever the message. *)
Theorem index_twice_one_occurrence (db : database) (n o : pystr) :
  is_card_name n ->
  owners_unique db ->
  let db1 := fst (index_cards o [n] db []) in
  let db2 := fst (index_cards o [n] db1 []) in
  count_occ pystr_eq_dec (owners_of db2 n) o = 1
  /\ db2 = db1
  /\ (forall cards upd, owners_unique (fst (index_cards o cards db upd)))
  /\ (forall message w,
         owners_unique (card_database w) ->
         owners_unique (card_database (snd (on_message message w)))).
Proof.
  intros Hn Hu db1 db2.
  assert (Hu1 : owners_unique db1)
    by (apply DbFacts.index_cards_unique; exact Hu).
  assert (Hin : In o (owners_of db1 n)).
  { subst db1. rewrite (DbFacts.index_cards_cons o n [] db [] Hn).
    destruct (mem o (owners_of db n)) eqn:Hm; cbn [index_cards fst].
    - now apply DbFacts.mem_In.
    - unfold owners_of at 1. rewrite DbFacts.get_set_same.
      apply in_or_app. right. now left. }
  assert (E : db2 = db1).
  { subst db2. rewrite (DbFacts.index_cards_cons o n [] db1 [] Hn).
    apply DbFacts.mem_In in Hin. now rewrite Hin. }
  repeat split.
  - rewrite E.
    assert (Hnd : NoDup (owners_of db1 n)).
    { unfold owners_of in *. destruct (db_get db1 n) eqn:Hg; [|constructor].
      eapply DbFacts.unique_get; eassumption. }
    pose proof (proj1 (NoDup_count_occ pystr_eq_dec _) Hnd o) as Hle.
    pose proof (proj1 (count_occ_In pystr_eq_dec _ o) Hin) as Hge.
    lia.
  - exact E.
  - intros cards upd. now apply DbFacts.index_cards_unique.
  - intros message w. apply on_message_unique.
Qed.

End IndexerFacts.

(* ================================================================== *)
(** * JSON: the decoder reads back what the encoder writes *)
(* ================================================================== *)

Module JsonFacts.
Import Json.

Local Open Scope N_scope.

Ltac div_lia := zify; Z.to_euclidean_division_equations; lia.

(** Case analysis on the comparisons of a goal. *)
Ltac ncases :=
  repeat match goal with
         | |- context [(?a <? ?b)] => destruct (N.ltb_spec a b)
         | |- context [(?a <=? ?b)] => destruct (N.leb_spec a b)
         | |- context [(?a =? ?b)] => destruct (N.eqb_spec a b)
         end;
  cbn [andb orb negb].

Lemma hexval_hexdigit (d : N) : d < 16 -> hexval (hexdigit d) = Some d.
Proof.
  intros H. unfold hexval, hexdigit.
  destruct (N.ltb_spec d 10); ncases; try lia; f_equal; lia.
Qed.

Lemma hex4val_hex4 (n : N) (t : pystr) :
  n < 65536 ->
  exists g1 g2 g3 g4,
    hex4 n ++ t = g1 :: g2 :: g3 :: g4 :: t
    /\ hex4val g1 g2 g3 g4 = Some n.
Proof.
  intros H. unfold hex4. do 4 eexists. split; [reflexivity|].
  unfold hex4val.
  rewrite !hexval_hexdigit by (apply N.mod_lt; lia).
  f_equal. clear t.
  div_lia.
Qed.


Lemma land_shifted_small (a b k : N) : b < 2 ^ k -> N.land (a * 2 ^ k) b = 0.
Proof.
  intros Hb. apply N.bits_inj. intros m. rewrite N.land_spec, N.bits_0.
  destruct (N.ltb_spec m k) as [Hm|Hm].
  - now rewrite N.mul_pow2_bits_low.
  - destruct (N.eq_dec b 0) as [->|Hnz]; [now rewrite N.bits_0, andb_false_r|].
    rewrite (N.bits_above_log2 b m), andb_false_r; [reflexivity|].
    apply N.lt_le_trans with k; [|exact Hm].
    apply N.log2_lt_pow2; lia.
Qed.

Lemma lor_shifted_small (a b k : N) :
  b < 2 ^ k -> N.lor (a * 2 ^ k) b = a * 2 ^ k + b.
Proof.
  intros Hb. pose proof (land_shifted_small a b k Hb) as H0.
  now rewrite (N.add_nocarry_lxor _ _ H0), (N.lxor_lor _ _ H0).
Qed.

(** The surrogate pair the encoder writes for a code point above the
    BMP, and the decoder's way back. *)
Lemma surrogate_pair (c : N) :
  0x10000 <= c < 0x110000 ->
  let n := c - 0x10000 in
  let s1 := N.lor 0xd800 (N.land (N.shiftr n 10) 0x3ff) in
  let s2 := N.lor 0xdc00 (N.land n 0x3ff) in
  s1 < 65536 /\ s2 < 65536
  /\ is_high s1 = true /\ is_low s2 = true
  /\ join_surrogates s1 s2 = c.
Proof.
  intros Hc. cbv zeta.
  remember (c - 0x10000) as n eqn:En.
  assert (Hn : n < 1048576) by lia.
  assert (B1 : n / 1024 < 1024) by div_lia.
  assert (B2 : n mod 1024 < 1024) by div_lia.
  assert (E1 : N.lor 0xd800 (N.land (N.shiftr n 10) 0x3ff) = 0xd800 + n / 1024).
  { rewrite N.shiftr_div_pow2.
    change 0x3ff with (N.ones 10). rewrite N.land_ones.
    change (2 ^ 10) with 1024.
    rewrite (N.mod_small (n / 1024) 1024) by exact B1.
    change 0xd800 with (54 * 2 ^ 10). rewrite lor_shifted_small; [reflexivity|].
    exact B1. }
  assert (E2 : N.lor 0xdc00 (N.land n 0x3ff) = 0xdc00 + n mod 1024).
  { change 0x3ff with (N.ones 10). rewrite N.land_ones.
    change (2 ^ 10) with 1024.
    change 0xdc00 with (55 * 2 ^ 10). rewrite lor_shifted_small; [reflexivity|].
    exact B2. }
  rewrite E1, E2. clear E1 E2.
  assert (D : n = 1024 * (n / 1024) + n mod 1024) by div_lia.
  set (q := n / 1024) in *. set (r := n mod 1024) in *.
  clearbody q r.
  repeat split.
  - lia.
  - lia.
  - unfold is_high. destruct (N.leb_spec 0xd800 (0xd800 + q));
      destruct (N.leb_spec (0xd800 + q) 0xdbff); cbn [andb]; try reflexivity; lia.
  - unfold is_low. destruct (N.leb_spec 0xdc00 (0xdc00 + r));
      destruct (N.leb_spec (0xdc00 + r) 0xdfff); cbn [andb]; try reflexivity; lia.
  - unfold join_surrogates. rewrite N.shiftl_mul_pow2.
    replace (0xd800 + q - 0xd800) with q by lia.
    replace (0xdc00 + r - 0xdc00) with r by lia.
    rewrite lor_shifted_small by exact B2.
    change (2 ^ 10) with 1024. lia.
Qed.

(** ** Unfolding [scanstring] on the forms the encoder writes *)

Lemma scanstring_quote (r acc : pystr) :
  scanstring (34 :: r) acc = Some (rev acc, r).
Proof. reflexivity. Qed.

Lemma scanstring_plain (c : codepoint) (r acc : pystr) :
  c <> 34 -> c <> 92 -> 32 <= c ->
  scanstring (c :: r) acc = scanstring r (c :: acc).
Proof.
  intros H1 H2 H3. cbn [scanstring].
  destruct (N.eqb_spec c 34); [contradiction|].
  destruct (N.eqb_spec c 92); [contradiction|].
  destruct (N.ltb_spec c 32); [lia|reflexivity].
Qed.

Lemma scanstring_short (e x : codepoint) (r acc : pystr) :
  e <> 117 -> unescape e = Some x ->
  scanstring (92 :: e :: r) acc = scanstring r (x :: acc).
Proof.
  intros H1 H2. cbn [scanstring]. cbn [N.eqb Pos.eqb].
  destruct (N.eqb_spec e 117); [contradiction|]. now rewrite H2.
Qed.

Lemma scanstring_u (g1 g2 g3 g4 : codepoint) (uni : N) (r2 acc : pystr) :
  hex4val g1 g2 g3 g4 = Some uni ->
  is_high uni = false ->
  scanstring (92 :: 117 :: g1 :: g2 :: g3 :: g4 :: r2) acc
  = scanstring r2 (uni :: acc).
Proof.
  intros H1 H2. cbn [scanstring]. cbn [N.eqb Pos.eqb].
  now rewrite H1, H2.
Qed.

Lemma scanstring_u_lone (g1 g2 g3 g4 : codepoint) (uni : N) (r2 acc : pystr) :
  hex4val g1 g2 g3 g4 = Some uni ->
  pairs_with_low r2 = false ->
  scanstring (92 :: 117 :: g1 :: g2 :: g3 :: g4 :: r2) acc
  = scanstring r2 (uni :: acc).
Proof.
  intros H1 H2. cbn [scanstring]. cbn [N.eqb Pos.eqb].
  rewrite H1. destruct (is_high uni); [|reflexivity].
  unfold pairs_with_low in H2.
  destruct r2 as [|b [|u r3]]; try reflexivity.
  destruct ((b =? 92) && (u =? 117)); [|reflexivity].
  destruct r3 as [|h1 [|h2 [|h3 [|h4 r4]]]]; try discriminate.
  destruct (hex4val h1 h2 h3 h4); [|discriminate].
  now rewrite H2.
Qed.

Lemma scanstring_u_pair (g1 g2 g3 g4 h1 h2 h3 h4 : codepoint) (hi lo : N)
  (r4 acc : pystr) :
  hex4val g1 g2 g3 g4 = Some hi -> is_high hi = true ->
  hex4val h1 h2 h3 h4 = Some lo -> is_low lo = true ->
  scanstring (92 :: 117 :: g1 :: g2 :: g3 :: g4
              :: 92 :: 117 :: h1 :: h2 :: h3 :: h4 :: r4) acc
  = scanstring r4 (join_surrogates hi lo :: acc).
Proof.
  intros H1 H2 H3 H4. cbn [scanstring]. cbn [N.eqb Pos.eqb andb].
  now rewrite H1, H2, H3, H4.
Qed.


Lemma high_not_low (n : N) : is_high n = true -> is_low n = false.
Proof. unfold is_high, is_low. ncases; try discriminate; intros _; try reflexivity; lia. Qed.

Lemma u_escape_app (n : N) (t : pystr) :
  n < 65536 ->
  exists g1 g2 g3 g4,
    u_escape n ++ t = 92 :: 117 :: g1 :: g2 :: g3 :: g4 :: t
    /\ hex4val g1 g2 g3 g4 = Some n.
Proof.
  intros H. destruct (hex4val_hex4 n t H) as (g1 & g2 & g3 & g4 & E & Hv).
  exists g1, g2, g3, g4. split; [|exact Hv].
  unfold u_escape. cbn [app]. now rewrite E.
Qed.

(** What the encoder writes for a character that is not a low
    surrogate does not read as the second half of a pair. *)
Lemma pairs_with_low_escape (d : codepoint) (t : pystr) :
  d < 0x110000 -> is_low d = false ->
  pairs_with_low (escape_char d ++ t) = false.
Proof.
  intros Hd Hl. unfold escape_char.
  destruct (N.eqb_spec d 34); [reflexivity|].
  destruct (N.eqb_spec d 92); [reflexivity|].
  destruct (N.eqb_spec d 10); [reflexivity|].
  destruct (N.eqb_spec d 13); [reflexivity|].
  destruct (N.eqb_spec d 9); [reflexivity|].
  destruct (N.eqb_spec d 8); [reflexivity|].
  destruct (N.eqb_spec d 12); [reflexivity|].
  destruct ((32 <=? d) && (d <=? 126)).
  - cbn [app]. unfold pairs_with_low. destruct t as [|u r3]; [reflexivity|].
    destruct (N.eqb_spec d 92); [contradiction|reflexivity].
  - destruct (N.ltb_spec d 0x10000) as [Hb|Hb].
    + destruct (u_escape_app d t Hb) as (g1 & g2 & g3 & g4 & E & Hv).
      rewrite E. unfold pairs_with_low. cbn [N.eqb Pos.eqb andb].
      now rewrite Hv.
    + cbv zeta.
      destruct (surrogate_pair d (conj Hb Hd)) as (L1 & L2 & Hh & Hlo & J).
      rewrite <- app_assoc.
      destruct (u_escape_app _ (u_escape (N.lor 0xdc00 (N.land (d - 0x10000) 0x3ff)) ++ t) L1)
        as (g1 & g2 & g3 & g4 & E & Hv).
      rewrite E. unfold pairs_with_low. cbn [N.eqb Pos.eqb andb].
      rewrite Hv. now apply high_not_low.
Qed.

(** Reading back what the encoder writes for one character. *)
Lemma scanstring_escape_char (c : codepoint) (t acc : pystr) :
  c < 0x110000 ->
  (is_high c = true -> pairs_with_low t = false) ->
  scanstring (escape_char c ++ t) acc = scanstring t (c :: acc).
Proof.
  intros Hc Hp. unfold escape_char.
  destruct (N.eqb_spec c 34) as [->|N1]; [reflexivity|].
  destruct (N.eqb_spec c 92) as [->|N2]; [reflexivity|].
  destruct (N.eqb_spec c 10) as [->|N3]; [reflexivity|].
  destruct (N.eqb_spec c 13) as [->|N4]; [reflexivity|].
  destruct (N.eqb_spec c 9) as [->|N5]; [reflexivity|].
  destruct (N.eqb_spec c 8) as [->|N6]; [reflexivity|].
  destruct (N.eqb_spec c 12) as [->|N7]; [reflexivity|].
  destruct (N.leb_spec 32 c) as [Lo|Lo]; cbn [andb].
  - destruct (N.leb_spec c 126) as [Hi|Hi].
    + cbn [app]. now apply scanstring_plain.
    + destruct (N.ltb_spec c 0x10000) as [Hb|Hb].
      * destruct (u_escape_app c t Hb) as (g1 & g2 & g3 & g4 & E & Hv).
        rewrite E. destruct (is_high c) eqn:Hh.
        -- apply scanstring_u_lone; auto.
        -- now apply scanstring_u.
      * cbv zeta.
        destruct (surrogate_pair c (conj Hb Hc)) as (L1 & L2 & Hh & Hlo & J).
        rewrite <- app_assoc.
        destruct (u_escape_app _ t L2) as (h1 & h2 & h3 & h4 & E2 & Hv2).
        rewrite E2.
        destruct (u_escape_app _ (92 :: 117 :: h1 :: h2 :: h3 :: h4 :: t) L1)
          as (g1 & g2 & g3 & g4 & E1 & Hv1).
        rewrite E1.
        rewrite (scanstring_u_pair g1 g2 g3 g4 h1 h2 h3 h4 _ _ t acc Hv1 Hh Hv2 Hlo).
        now rewrite J.
  - destruct (N.ltb_spec c 0x10000) as [Hb|Hb]; [|lia].
    destruct (u_escape_app c t Hb) as (g1 & g2 & g3 & g4 & E & Hv).
    rewrite E. apply scanstring_u; [exact Hv|].
    unfold is_high. ncases; try reflexivity; lia.
Qed.

Lemma json_safe_cons (c : codepoint) (s : pystr) :
  json_safe (c :: s) = true ->
  c < 0x110000 /\ json_safe s = true
  /\ (is_high c = true ->
      match s with d :: _ => is_low d = false /\ d < 0x110000 | [] => True end).
Proof.
  cbn [json_safe]. intros H.
  apply andb_true_iff in H as [H Hs]. apply andb_true_iff in H as [Hc Hn].
  apply N.ltb_lt in Hc. repeat split; auto.
  intros Hh. destruct s as [|d s']; [exact I|].
  rewrite Hh in Hn. cbn [andb] in Hn. apply negb_true_iff in Hn.
  split; [exact Hn|].
  cbn [json_safe] in Hs. apply andb_true_iff in Hs as [Hs _].
  apply andb_true_iff in Hs as [Hs _]. now apply N.ltb_lt in Hs.
Qed.

(** [scanstring] reads back the string [encode_string] wrote. *)
Lemma scanstring_encoded (s : pystr) :
  json_safe s = true ->
  forall rest acc,
    scanstring (flat_map escape_char s ++ 34 :: rest) acc
    = Some (rev acc ++ s, rest).
Proof.
  induction s as [|c s IH]; intros Hs rest acc.
  - cbn [flat_map app]. rewrite scanstring_quote. now rewrite app_nil_r.
  - destruct (json_safe_cons c s Hs) as (Hc & Hs' & Hnext).
    cbn [flat_map]. rewrite <- app_assoc.
    rewrite scanstring_escape_char; [|exact Hc|].
    + rewrite IH by exact Hs'. cbn [rev]. now rewrite <- app_assoc.
    + intros Hh. specialize (Hnext Hh). destruct s as [|d s'].
      * cbn [flat_map app]. unfold pairs_with_low.
        destruct rest; reflexivity.
      * destruct Hnext as [Hl Hd]. cbn [flat_map]. rewrite <- app_assoc.
        now apply pairs_with_low_escape.
Qed.


(** ** Unfolding the scanners *)

Section Scanners.
Variable md : nat.

Lemma scan_once_string (f room : nat) (r : pystr) :
  scan_once md (S f) room (34 :: r)
  = match scanstring r [] with
    | Some (x, rest) => POk (JStr x) rest
    | None => PErr
    end.
Proof. reflexivity. Qed.

Lemma scan_once_array (f room : nat) (r : pystr) :
  scan_once md (S f) (S room) (91 :: r)
  = match skip_ws r with
    | x :: rest =>
        if x =? 93 then POk (JArr []) rest
        else parse_elements md f room (x :: rest) []
    | [] => PErr
    end.
Proof. reflexivity. Qed.

Lemma scan_once_object (f room : nat) (r : pystr) :
  scan_once md (S f) (S room) (123 :: r)
  = match skip_ws r with
    | x :: rest =>
        if x =? 125 then POk (JObj []) rest
        else parse_members md f room (x :: rest) []
    | [] => PErr
    end.
Proof. reflexivity. Qed.

Lemma parse_elements_step (f room : nat) (s : pystr) (acc : list value) :
  parse_elements md (S f) room s acc
  = match scan_once md f room s with
    | POk v r =>
        match skip_ws r with
        | x :: rest =>
            if x =? 93 then POk (JArr (rev (v :: acc))) rest
            else if x =? 44
                 then parse_elements md f room (skip_ws rest) (v :: acc)
                 else PErr
        | [] => PErr
        end
    | other => other
    end.
Proof. reflexivity. Qed.

Lemma parse_members_step (f room : nat) (r : pystr)
  (acc : list (pystr * value)) :
  parse_members md (S f) room (34 :: r) acc
  = match scanstring r [] with
    | None => PErr
    | Some (key, r1) =>
        match skip_ws r1 with
        | col :: r2 =>
            if col =? 58 then
              match scan_once md f room (skip_ws r2) with
              | POk v r3 =>
                  match skip_ws r3 with
                  | x :: rest =>
                      if x =? 125 then POk (JObj (dict_set acc key v)) rest
                      else if x =? 44
                           then parse_members md f room (skip_ws rest)
                                  (dict_set acc key v)
                           else PErr
                  | [] => PErr
                  end
              | other => other
              end
            else PErr
        | [] => PErr
        end
    end.
Proof. reflexivity. Qed.

(** ** Whitespace *)

Lemma skip_ws_spaces (n : nat) (t : pystr) :
  skip_ws (repeat 32 n ++ t) = skip_ws t.
Proof. induction n as [|n IH]; [reflexivity|exact IH]. Qed.

Lemma skip_ws_indent (level : nat) (t : pystr) :
  skip_ws (newline_indent level ++ t) = skip_ws t.
Proof. unfold newline_indent. cbn [app]. apply (skip_ws_spaces (4 * level)). Qed.

Lemma skip_ws_stop (c : codepoint) (t : pystr) :
  is_ws c = false -> skip_ws (c :: t) = c :: t.
Proof. intros H. unfold skip_ws. cbn [Str.dropwhile]. now rewrite H. Qed.

Lemma encode_string_app (v rest : pystr) :
  encode_string v ++ rest = 34 :: flat_map escape_char v ++ 34 :: rest.
Proof. unfold encode_string. cbn [app]. now rewrite <- app_assoc. Qed.

(** ** Reading back an encoded string, list and dictionary *)

Lemma scan_once_encoded_string (f room : nat) (v rest : pystr) :
  json_safe v = true ->
  scan_once md (S f) room (encode_string v ++ rest) = POk (JStr v) rest.
Proof.
  intros Hv. rewrite encode_string_app, scan_once_string.
  now rewrite (scanstring_encoded v Hv rest []).
Qed.

Lemma parse_elements_encoded (level level' room : nat) (vs : list pystr) :
  forall (v : pystr) (acc : list value) (f : nat) (rest : pystr),
    Forall (fun o => json_safe o = true) (v :: vs) ->
    (length vs + 2 <= f)%nat ->
    parse_elements md f room
      (encode_string v
       ++ encode_items (44 :: newline_indent level') false vs
       ++ newline_indent level ++ 93 :: rest) acc
    = POk (JArr (rev acc ++ map JStr (v :: vs))) rest.
Proof.
  induction vs as [|v2 vs IH]; intros v acc f rest Hs Hf.
  - destruct f as [|[|f]]; [cbn in Hf; lia|cbn in Hf; lia|].
    rewrite parse_elements_step, scan_once_encoded_string
      by (now inversion Hs).
    cbn [encode_items app]. rewrite skip_ws_indent, skip_ws_stop by reflexivity.
    reflexivity.
  - destruct f as [|[|f]]; [cbn in Hf; lia|cbn in Hf; lia|].
    inversion Hs as [|? ? Hv Hvs]; subst.
    rewrite parse_elements_step, scan_once_encoded_string by exact Hv.
    cbn [encode_items]. rewrite <- !app_assoc. cbn [app].
    rewrite skip_ws_stop by reflexivity. cbn [N.eqb Pos.eqb].
    rewrite skip_ws_indent.
    rewrite encode_string_app, skip_ws_stop by reflexivity.
    rewrite <- encode_string_app.
    rewrite (IH v2 (JStr v :: acc) (S f) rest Hvs) by (cbn in Hf |- *; lia).
    cbn [rev map]. now rewrite <- app_assoc.
Qed.

Lemma scan_once_encoded_list (level room : nat) (l : list pystr) (f : nat)
  (rest : pystr) :
  Forall (fun o => json_safe o = true) l ->
  (length l + 1 <= f)%nat ->
  scan_once md (S f) (S room) (encode_list level l ++ rest)
  = POk (JArr (map JStr l)) rest.
Proof.
  intros Hs Hf. destruct l as [|v vs]; [reflexivity|].
  unfold encode_list. cbn [app]. rewrite scan_once_array.
  rewrite <- !app_assoc. rewrite skip_ws_indent. cbn [encode_items app].
  rewrite <- !app_assoc.
  rewrite encode_string_app, skip_ws_stop by reflexivity.
  cbn [N.eqb Pos.eqb]. rewrite <- encode_string_app. cbn [app].
  apply (parse_elements_encoded level (S level) room vs v [] f rest Hs).
  cbn in Hf. lia.
Qed.


Lemma skip_ws_encode_list (level : nat) (l : list pystr) (t : pystr) :
  skip_ws (encode_list level l ++ t) = encode_list level l ++ t.
Proof. destruct l; reflexivity. Qed.

Lemma parse_members_entry (level room : nat) (k : pystr) (l : list pystr)
  (acc : list (pystr * value)) (g : nat) (t : pystr) :
  json_safe k = true ->
  Forall (fun o => json_safe o = true) l ->
  (length l + 1 <= g)%nat ->
  parse_members md (S (S g)) (S room)
    (encode_string k ++ [58; 32] ++ encode_list level l ++ t) acc
  = match skip_ws t with
    | x :: rest =>
        if x =? 125
        then POk (JObj (dict_set acc k (JArr (map JStr l)))) rest
        else if x =? 44
             then parse_members md (S g) (S room) (skip_ws rest)
                    (dict_set acc k (JArr (map JStr l)))
             else PErr
    | [] => PErr
    end.
Proof.
  intros Hk Hl Hg.
  rewrite encode_string_app, parse_members_step, (scanstring_encoded k Hk).
  cbn [app rev]. rewrite skip_ws_stop by reflexivity. cbn [N.eqb Pos.eqb].
  change (skip_ws (32 :: encode_list level l ++ t))
    with (skip_ws (encode_list level l ++ t)).
  rewrite skip_ws_encode_list.
  now rewrite (scan_once_encoded_list level room l g t Hl Hg).
Qed.

Lemma parse_members_encoded (level0 level1 room : nat) (ms : database) :
  forall (k : pystr) (l : list pystr) (acc : list (pystr * value)) (f : nat)
         (rest : pystr),
    Forall safe_entry ((k, l) :: ms) ->
    (budget ((k, l) :: ms) <= f)%nat ->
    parse_members md f (S room)
      (encode_string k ++ [58; 32] ++ encode_list level1 l
       ++ encode_members level1 (44 :: newline_indent level1) false ms
       ++ newline_indent level0 ++ 125 :: rest) acc
    = POk (JObj (fold_left (fun d e => dict_set d (fst e) (snd e))
                   (map member_of ((k, l) :: ms)) acc)) rest.
Proof.
  induction ms as [|[k2 l2] ms IH]; intros k l acc f rest Hs Hf;
    inversion Hs as [|? ? [Hk Hl] Hms]; subst; cbn [fst snd] in *;
    (destruct f as [|[|g]]; [cbn in Hf; lia|cbn in Hf; lia|]);
    rewrite (parse_members_entry level1 room k l acc g _ Hk Hl)
      by (cbn in Hf; lia).
  - cbn [encode_members app].
    rewrite skip_ws_indent, skip_ws_stop by reflexivity.
    reflexivity.
  - cbn [encode_members]. rewrite <- !app_assoc. cbn [app].
    rewrite skip_ws_stop by reflexivity. cbn [N.eqb Pos.eqb].
    rewrite skip_ws_indent.
    rewrite encode_string_app, skip_ws_stop by reflexivity.
    rewrite <- encode_string_app.
    apply (IH k2 l2 (dict_set acc k (JArr (map JStr l))) (S g) rest Hms).
    cbn in Hf |- *. lia.
Qed.

End Scanners.

Lemma dict_set_fresh (d : list (pystr * value)) (k : pystr) (v : value) :
  ~ In k (map fst d) -> dict_set d k v = d ++ [(k, v)].
Proof.
  induction d as [|[k' v'] d IH]; intros Hn; [reflexivity|].
  cbn [dict_set map fst In] in *.
  destruct (Str.eqb k' k) eqn:E.
  - apply StrFacts.eqb_eq in E. tauto.
  - cbn [app]. f_equal. apply IH. tauto.
Qed.

Lemma fold_dict_set_distinct (ms acc : list (pystr * value)) :
  NoDup (map fst (acc ++ ms)) ->
  fold_left (fun d e => dict_set d (fst e) (snd e)) ms acc = acc ++ ms.
Proof.
  revert acc. induction ms as [|[k v] ms IH]; intros acc Hnd.
  - now rewrite app_nil_r.
  - cbn [fold_left fst snd].
    assert (Hfresh : ~ In k (map fst acc)).
    { rewrite map_app in Hnd. cbn [map fst] in Hnd.
      apply NoDup_remove_2 in Hnd. intros Hin. apply Hnd.
      apply in_or_app. now left. }
    rewrite (dict_set_fresh acc k v Hfresh).
    rewrite IH; rewrite <- app_assoc; [reflexivity|exact Hnd].
Qed.

Lemma map_fst_member_of (db : database) :
  map fst (map member_of db) = map fst db.
Proof. rewrite map_map. reflexivity. Qed.

(** ** Length of the encoding against the budget *)

Lemma encode_items_length (sep : pystr) (first : bool) (l : list pystr) :
  (length l <= length (encode_items sep first l))%nat.
Proof.
  revert first. induction l as [|v l IH]; intros first; [apply Nat.le_refl|].
  cbn [encode_items length]. rewrite !length_app.
  specialize (IH false). unfold encode_string. cbn [length]. lia.
Qed.

Lemma encode_list_length (level : nat) (l : list pystr) :
  (length l <= length (encode_list level l))%nat.
Proof.
  destruct l as [|v l]; [cbn; lia|].
  unfold encode_list. cbn [length]. rewrite !length_app.
  pose proof (encode_items_length (44 :: newline_indent (S level)) true (v :: l)).
  cbn [length] in *. lia.
Qed.

Lemma encode_members_length (level : nat) (sep : pystr) (first : bool)
  (ms : database) :
  (budget ms <= length (encode_members level sep first ms))%nat.
Proof.
  revert first. induction ms as [|[k l] ms IH]; intros first; [apply Nat.le_refl|].
  cbn [encode_members budget fold_right snd]. rewrite !length_app.
  specialize (IH false). pose proof (encode_list_length level l).
  unfold encode_string. cbn [length]. rewrite length_app. cbn [length].
  unfold budget in IH. lia.
Qed.

Lemma dumps_length (db : database) : (budget db <= length (dumps db))%nat.
Proof.
  unfold dumps, encode_dict. destruct db as [|e db]; [cbn; lia|].
  cbn [length]. rewrite !length_app.
  pose proof (encode_members_length 1 (44 :: newline_indent 1) true (e :: db)).
  lia.
Qed.

(** ** The round trip of [dumps] and [loads] *)

Lemma safe_entries (db : database) :
  db_json_safe db -> Forall safe_entry db.
Proof. intros [_ H]. exact H. Qed.

(** What [dumps] wrote for a database is read back whenever the decoder
    may enter two nested containers, whatever the limit on integers. *)
Theorem loads_dumps (db : database) (room md : nat) :
  db_json_safe db ->
  loads (S (S room)) md (dumps db) = Value (of_database db).
Proof.
  intros Hsafe. pose proof (safe_entries db Hsafe) as Hs.
  destruct Hsafe as [Hnd _].
  unfold loads. pose proof (dumps_length db) as Hlen.
  remember (length (dumps db)) as n eqn:En. clear En.
  replace (2 * n + 2)%nat with (S (2 * n + 1)) by lia.
  unfold dumps, encode_dict in *. destruct db as [|[k l] db]; [reflexivity|].
  rewrite skip_ws_stop by reflexivity.
  rewrite scan_once_object, skip_ws_indent.
  cbn [encode_members]. cbn [app]. rewrite <- !app_assoc.
  rewrite encode_string_app, skip_ws_stop by reflexivity.
  cbn [N.eqb Pos.eqb]. rewrite <- encode_string_app.
  pose proof (parse_members_encoded md 0 1 room db k l [] (2 * n + 1) [] Hs
                ltac:(lia)) as E.
  match goal with
  | |- context [parse_members md ?f ?r ?s ?a] =>
      replace (parse_members md f r s a)
        with (POk (JObj (fold_left (fun d e => dict_set d (fst e) (snd e))
                           (map member_of ((k, l) :: db)) [])) [])
  end.
  - cbn [skip_ws Str.dropwhile].
    rewrite fold_dict_set_distinct; [reflexivity|].
    cbn [app]. now rewrite map_fst_member_of.
  - rewrite <- E. f_equal. cbn [app]. rewrite <- ?app_assoc. reflexivity.
Qed.

Lemma as_owner_list_strings (l : list pystr) :
  as_owner_list (map JStr l) = Some l.
Proof. induction l as [|o l IH]; [reflexivity|]. cbn. now rewrite IH. Qed.

Lemma as_database_of_database (db : database) :
  as_database (of_database db) = Some db.
Proof.
  unfold as_database, of_database.
  induction db as [|[k l] db IH]; [reflexivity|].
  cbn [map as_members fst snd]. now rewrite as_owner_list_strings, IH.
Qed.

End JsonFacts.

(* ================================================================== *)
(** * JSON: the decoder's recursion budget *)
(* ================================================================== *)

Module FuelFacts.
Import Json.

Lemma skip_ws_length (s : pystr) : length (skip_ws s) <= length s.
Proof.
  unfold skip_ws. induction s as [|c s IH]; cbn [Str.dropwhile length]; [lia|].
  destruct (is_ws c); cbn [length]; lia.
Qed.

Lemma skip_ws_cons_length (s : pystr) (x : codepoint) (rest : pystr) :
  skip_ws s = x :: rest -> S (length rest) <= length s.
Proof.
  intros H. pose proof (skip_ws_length s) as L. rewrite H in L. exact L.
Qed.

(** [scanstring] returns a suffix strictly shorter than its input. *)
Lemma scanstring_length (n : nat) :
  forall s acc x rest,
    length s <= n ->
    scanstring s acc = Some (x, rest) -> length rest < length s.
Proof.
  induction n as [|n IH]; intros s acc x rest Hn H.
  - destruct s; [discriminate|cbn in Hn; lia].
  - destruct s as [|c r]; [discriminate|].
    cbn [scanstring] in H. cbn [length] in *.
    destruct (c =? 34)%N; [injection H as <- <-; lia|].
    destruct (c =? 92)%N.
    + destruct r as [|e r1]; [discriminate|]. cbn [length] in *.
      destruct (e =? 117)%N.
      * destruct r1 as [|h1 [|h2 [|h3 [|h4 r2]]]]; try discriminate.
        cbn [length] in *.
        destruct (hex4val h1 h2 h3 h4) as [uni|]; [|discriminate].
        assert (Hr2 : forall a, scanstring r2 a = Some (x, rest) ->
                                length rest < S (S (S (S (S (S (length r2))))))).
        { intros a Ha. apply IH in Ha; lia. }
        destruct (is_high uni); [|now apply Hr2 in H].
        destruct r2 as [|b [|u r3]]; try (now apply Hr2 in H).
        destruct ((b =? 92) && (u =? 117))%N; [|now apply Hr2 in H].
        destruct r3 as [|g1 [|g2 [|g3 [|g4 r4]]]]; try discriminate.
        destruct (hex4val g1 g2 g3 g4) as [uni2|]; [|discriminate].
        destruct (is_low uni2); [|now apply Hr2 in H].
        apply IH in H; cbn [length] in *; lia.
      * destruct (unescape e); [|discriminate].
        apply IH in H; lia.
    + destruct (c <? 32)%N; [discriminate|].
      apply IH in H; lia.
Qed.


Lemma span_length (p : codepoint -> bool) (s ds r : pystr) :
  span p s = (ds, r) -> length r <= length s.
Proof.
  unfold span. intros H. injection H as _ <-. rewrite length_skipn. lia.
Qed.

Lemma number_sign_length (s sign r : pystr) :
  number_sign s = (sign, r) -> length r <= length s.
Proof.
  unfold number_sign. destruct s as [|c s']; [intros [= _ <-]; lia|].
  destruct (c =? 45)%N; intros [= _ <-]; cbn [length]; lia.
Qed.

Lemma number_int_length (s ip r : pystr) :
  number_int s = Some (ip, r) -> length r < length s.
Proof.
  unfold number_int. destruct s as [|d s']; [discriminate|].
  destruct (d =? 48)%N; [intros [= _ <-]; cbn [length]; lia|].
  destruct (is_digit d); [|discriminate].
  destruct (span is_digit s') as [ds r'] eqn:E. intros [= _ <-].
  apply span_length in E. cbn [length]. lia.
Qed.

Lemma number_frac_length (s frac r : pystr) :
  number_frac s = (frac, r) -> length r <= length s.
Proof.
  unfold number_frac. destruct s as [|dot [|f s']]; try (intros [= _ <-]; lia).
  destruct ((dot =? 46)%N && is_digit f); [|intros [= _ <-]; lia].
  destruct (span is_digit s') as [ds r'] eqn:E. intros [= _ <-].
  apply span_length in E. cbn [length]. lia.
Qed.

Lemma number_exp_length (s expo r : pystr) :
  number_exp s = (expo, r) -> length r <= length s.
Proof.
  unfold number_exp. destruct s as [|e s']; [intros [= _ <-]; lia|].
  destruct ((e =? 101) || (e =? 69))%N; [|intros [= _ <-]; lia].
  destruct s' as [|g s''].
  - cbn. intros [= _ <-]. cbn [length]. lia.
  - destruct ((g =? 45) || (g =? 43))%N.
    + destruct (span is_digit s'') as [ds r2] eqn:E.
      apply span_length in E.
      destruct ds; intros [= _ <-]; cbn [length] in *; lia.
    + destruct (span is_digit (g :: s'')) as [ds r2] eqn:E.
      apply span_length in E.
      destruct ds; intros [= _ <-]; cbn [length] in *; lia.
Qed.

Lemma match_number_length (s lexeme rest : pystr) :
  match_number s = Some (lexeme, rest) -> length rest < length s.
Proof.
  unfold match_number.
  destruct (number_sign s) as [sign s1] eqn:E1.
  destruct (number_int s1) as [[ip s2]|] eqn:E2; [|discriminate].
  destruct (number_frac s2) as [frac s3] eqn:E3.
  destruct (number_exp s3) as [expo s4] eqn:E4.
  intros [= _ <-].
  apply number_sign_length in E1. apply number_int_length in E2.
  apply number_frac_length in E3. apply number_exp_length in E4. lia.
Qed.

Lemma scan_atom_length (s : pystr) (v : value) (rest : pystr) :
  scan_atom s = Some (v, rest) -> length rest < length s.
Proof.
  unfold scan_atom. cbv beta zeta.
  assert (L : forall word : pystr,
             word <> [] -> Str.starts_with word s = true ->
             length (skipn (length word) s) < length s).
  { intros word Hne Hs. rewrite length_skipn.
    destruct word as [|c word]; [contradiction|].
    destruct s as [|x s']; [discriminate|]. cbn [length]. lia. }
  destruct (Str.starts_with (Str.str "null") s) eqn:E1;
    [intros [= _ <-]; apply (L (Str.str "null")); [discriminate|exact E1]|].
  destruct (Str.starts_with (Str.str "true") s) eqn:E2;
    [intros [= _ <-]; apply (L (Str.str "true")); [discriminate|exact E2]|].
  destruct (Str.starts_with (Str.str "false") s) eqn:E3;
    [intros [= _ <-]; apply (L (Str.str "false")); [discriminate|exact E3]|].
  destruct (Str.starts_with (Str.str "NaN") s) eqn:E4;
    [intros [= _ <-]; apply (L (Str.str "NaN")); [discriminate|exact E4]|].
  destruct (Str.starts_with (Str.str "Infinity") s) eqn:E5;
    [intros [= _ <-]; apply (L (Str.str "Infinity")); [discriminate|exact E5]|].
  destruct (Str.starts_with (Str.str "-Infinity") s) eqn:E6;
    [intros [= _ <-]; apply (L (Str.str "-Infinity")); [discriminate|exact E6]|].
  destruct (match_number s) as [[lexeme r]|] eqn:E; [|discriminate].
  intros [= _ <-]. now apply match_number_length in E.
Qed.

Section Scanners.
Variable md : nat.

(** Every scanner returns a rest that is strictly shorter than its
    input. *)
Lemma scanners_consume (f : nat) :
  (forall room s v rest,
      scan_once md f room s = POk v rest -> length rest < length s)
  /\ (forall room s acc v rest,
         parse_elements md f room s acc = POk v rest ->
         length rest < length s)
  /\ (forall room s acc v rest,
         parse_members md f room s acc = POk v rest ->
         length rest < length s).
Proof.
  induction f as [|f (IHv & IHe & IHm)]; [repeat split; discriminate|].
  repeat split.
  - intros room s v rest H. cbn [scan_once] in H.
    destruct s as [|c r]; [discriminate|].
    destruct (c =? 34)%N.
    { destruct (scanstring r []) as [[x r']|] eqn:E; [|discriminate].
      injection H as _ <-. apply (scanstring_length (length r)) in E; [|lia].
      cbn [length]. lia. }
    destruct (c =? 123)%N.
    { destruct room as [|room]; [discriminate|].
      destruct (skip_ws r) as [|x r'] eqn:E; [discriminate|].
      apply skip_ws_cons_length in E.
      destruct (x =? 125)%N.
      - injection H as _ <-. cbn [length]. lia.
      - apply IHm in H. cbn [length] in *. lia. }
    destruct (c =? 91)%N.
    { destruct room as [|room]; [discriminate|].
      destruct (skip_ws r) as [|x r'] eqn:E; [discriminate|].
      apply skip_ws_cons_length in E.
      destruct (x =? 93)%N.
      - injection H as _ <-. cbn [length]. lia.
      - apply IHe in H. cbn [length] in *. lia. }
    destruct (scan_atom (c :: r)) as [[v' r']|] eqn:E; [|discriminate].
    destruct (int_too_long md v'); [discriminate|].
    injection H as _ <-. now apply scan_atom_length in E.
  - intros room s acc v rest H. cbn [parse_elements] in H.
    destruct (scan_once md f room s) as [v1 r1| | | |] eqn:E1;
      try discriminate.
    apply IHv in E1.
    destruct (skip_ws r1) as [|x r2] eqn:E2; [discriminate|].
    apply skip_ws_cons_length in E2.
    destruct (x =? 93)%N; [injection H as _ <-; lia|].
    destruct (x =? 44)%N; [|discriminate].
    apply IHe in H. pose proof (skip_ws_length r2). lia.
  - intros room s acc v rest H. cbn [parse_members] in H.
    destruct s as [|q r]; [discriminate|].
    destruct (q =? 34)%N; [|discriminate].
    destruct (scanstring r []) as [[key r1]|] eqn:E0; [|discriminate].
    apply (scanstring_length (length r)) in E0; [|lia].
    destruct (skip_ws r1) as [|col r2] eqn:E1; [discriminate|].
    apply skip_ws_cons_length in E1.
    destruct (col =? 58)%N; [|discriminate].
    destruct (scan_once md f room (skip_ws r2)) as [v1 r3| | | |] eqn:E2;
      try discriminate.
    apply IHv in E2. pose proof (skip_ws_length r2).
    destruct (skip_ws r3) as [|x r4] eqn:E3; [discriminate|].
    apply skip_ws_cons_length in E3.
    destruct (x =? 125)%N; [injection H as _ <-; cbn [length]; lia|].
    destruct (x =? 44)%N; [|discriminate].
    apply IHm in H. pose proof (skip_ws_length r4). cbn [length]. lia.
Qed.

(** With a budget above twice the length of the input the scanners
    never run out of it. *)
Lemma scanners_budget (f : nat) :
  (forall room s, 2 * length s < f -> scan_once md f room s <> PFuel)
  /\ (forall room s acc,
         2 * length s + 1 < f -> parse_elements md f room s acc <> PFuel)
  /\ (forall room s acc,
         2 * length s + 1 < f -> parse_members md f room s acc <> PFuel).
Proof.
  induction f as [|f (IHv & IHe & IHm)]; [repeat split; intros; lia|].
  destruct (scanners_consume f) as (Cv & Ce & Cm).
  repeat split.
  - intros room s Hf. cbn [scan_once].
    destruct s as [|c r]; [discriminate|]. cbn [length] in Hf.
    destruct (c =? 34)%N.
    { destruct (scanstring r []) as [[x r']|]; discriminate. }
    destruct (c =? 123)%N.
    { destruct room as [|room]; [discriminate|].
      destruct (skip_ws r) as [|x r'] eqn:E; [discriminate|].
      apply skip_ws_cons_length in E.
      destruct (x =? 125)%N; [discriminate|].
      apply IHm. cbn [length]. lia. }
    destruct (c =? 91)%N.
    { destruct room as [|room]; [discriminate|].
      destruct (skip_ws r) as [|x r'] eqn:E; [discriminate|].
      apply skip_ws_cons_length in E.
      destruct (x =? 93)%N; [discriminate|].
      apply IHe. cbn [length]. lia. }
    destruct (scan_atom (c :: r)) as [[v' r']|]; [|discriminate].
    destruct (int_too_long md v'); discriminate.
  - intros room s acc Hf. cbn [parse_elements].
    destruct (scan_once md f room s) as [v1 r1| | | |] eqn:E1;
      try discriminate.
    + apply Cv in E1.
      destruct (skip_ws r1) as [|x r2] eqn:E2; [discriminate|].
      apply skip_ws_cons_length in E2.
      destruct (x =? 93)%N; [discriminate|].
      destruct (x =? 44)%N; [|discriminate].
      apply IHe. pose proof (skip_ws_length r2). lia.
    + exfalso. revert E1. apply IHv. lia.
  - intros room s acc Hf. cbn [parse_members].
    destruct s as [|q r]; [discriminate|]. cbn [length] in Hf.
    destruct (q =? 34)%N; [|discriminate].
    destruct (scanstring r []) as [[key r1]|] eqn:E0; [|discriminate].
    apply (scanstring_length (length r)) in E0; [|lia].
    destruct (skip_ws r1) as [|col r2] eqn:E1; [discriminate|].
    apply skip_ws_cons_length in E1.
    destruct (col =? 58)%N; [|discriminate].
    pose proof (skip_ws_length r2).
    destruct (scan_once md f room (skip_ws r2)) as [v1 r3| | | |] eqn:E2;
      try discriminate.
    + apply Cv in E2.
      destruct (skip_ws r3) as [|x r4] eqn:E3; [discriminate|].
      apply skip_ws_cons_length in E3.
      destruct (x =? 125)%N; [discriminate|].
      destruct (x =? 44)%N; [|discriminate].
      apply IHm. pose proof (skip_ws_length r4). lia.
    + exfalso. revert E2. apply IHv. lia.
Qed.

(** The budget [loads] gives is never used up: when [loads] reports
    invalid text, the scanner found an error in it. *)
Theorem loads_budget_suffices (room : nat) (s : pystr) :
  scan_once md (2 * length s + 2) room (skip_ws s) <> PFuel.
Proof.
  destruct (scanners_budget (2 * length s + 2)) as (Hv & _ & _).
  apply Hv. pose proof (skip_ws_length s). lia.
Qed.

(** When [loads] reports invalid text, the scanner reported an error or
    text is left after the value. *)
Corollary loads_invalid_is_an_error (room : nat) (s : pystr) :
  loads room md s = Invalid ->
  scan_once md (2 * length s + 2) room (skip_ws s) = PErr
  \/ exists v c rest rest',
       scan_once md (2 * length s + 2) room (skip_ws s) = POk v rest
       /\ skip_ws rest = c :: rest'.
Proof.
  unfold loads. pose proof (loads_budget_suffices room s) as Hf.
  destruct (scan_once md (2 * length s + 2) room (skip_ws s))
    as [v rest| | | |]; try discriminate.
  - destruct (skip_ws rest) as [|c rest'] eqn:E; [discriminate|].
    intros _. right. now exists v, c, rest, rest'.
  - now left.
  - contradiction.
Qed.

End Scanners.

End FuelFacts.

(* ================================================================== *)
(** * The text of a dump on disk *)
(* ================================================================== *)

Module TextFacts.
Import Json JsonFacts.
Local Open Scope N_scope.

Ltac split_plain :=
  repeat match goal with
         | |- all_plain (_ ++ _) => apply Forall_app; split
         | |- Forall _ (_ ++ _) => apply Forall_app; split
         end.

Lemma hexdigit_plain (d : N) : d < 16 -> plain (hexdigit d) = true.
Proof. intros H. unfold plain, hexdigit. ncases; try reflexivity; lia. Qed.

Lemma hex4_plain (n : N) : all_plain (hex4 n).
Proof.
  unfold hex4. repeat constructor; apply hexdigit_plain; apply N.mod_lt; lia.
Qed.

Lemma u_escape_plain (n : N) : all_plain (u_escape n).
Proof.
  unfold u_escape. constructor; [reflexivity|]. constructor; [reflexivity|].
  apply hex4_plain.
Qed.

Lemma escape_char_plain (c : codepoint) : all_plain (escape_char c).
Proof.
  unfold escape_char.
  destruct (N.eqb_spec c 34); [repeat constructor|].
  destruct (N.eqb_spec c 92); [repeat constructor|].
  destruct (N.eqb_spec c 10); [repeat constructor|].
  destruct (N.eqb_spec c 13); [repeat constructor|].
  destruct (N.eqb_spec c 9); [repeat constructor|].
  destruct (N.eqb_spec c 8); [repeat constructor|].
  destruct (N.eqb_spec c 12); [repeat constructor|].
  destruct (N.leb_spec 32 c); cbn [andb].
  - destruct (N.leb_spec c 126).
    + repeat constructor. unfold plain. ncases; try reflexivity; lia.
    + destruct (c <? 65536); [apply u_escape_plain|].
      cbv zeta. apply Forall_app. split; apply u_escape_plain.
  - destruct (c <? 65536); [apply u_escape_plain|].
    cbv zeta. apply Forall_app. split; apply u_escape_plain.
Qed.

Lemma encode_string_plain (s : pystr) : all_plain (encode_string s).
Proof.
  unfold encode_string. constructor; [reflexivity|].
  apply Forall_app. split; [|repeat constructor].
  induction s as [|c s IH]; [constructor|].
  cbn [flat_map]. apply Forall_app. split; [apply escape_char_plain|exact IH].
Qed.

Lemma newline_indent_plain (level : nat) : all_plain (newline_indent level).
Proof.
  unfold newline_indent. constructor; [reflexivity|].
  induction (4 * level)%nat; constructor; [reflexivity|assumption].
Qed.

Lemma encode_items_plain (sep : pystr) (first : bool) (l : list pystr) :
  all_plain sep -> all_plain (encode_items sep first l).
Proof.
  intros Hsep. revert first. induction l as [|v l IH]; intros first;
    [constructor|].
  cbn [encode_items]. split_plain.
  - destruct first; [constructor|exact Hsep].
  - apply encode_string_plain.
  - apply IH.
Qed.

Lemma encode_list_plain (level : nat) (l : list pystr) :
  all_plain (encode_list level l).
Proof.
  destruct l as [|v l]; [repeat constructor|].
  unfold encode_list. constructor; [reflexivity|].
  split_plain.
  - apply newline_indent_plain.
  - apply encode_items_plain. constructor; [reflexivity|].
    apply newline_indent_plain.
  - apply newline_indent_plain.
  - repeat constructor.
Qed.

Lemma encode_members_plain (level : nat) (sep : pystr) (first : bool)
  (ms : database) :
  all_plain sep -> all_plain (encode_members level sep first ms).
Proof.
  intros Hsep. revert first. induction ms as [|[k l] ms IH]; intros first;
    [constructor|].
  cbn [encode_members]. split_plain.
  - destruct first; [constructor|exact Hsep].
  - apply encode_string_plain.
  - repeat constructor.
  - apply encode_list_plain.
  - apply IH.
Qed.

Lemma dumps_plain (db : database) : all_plain (dumps db).
Proof.
  unfold dumps, encode_dict. destruct db as [|e db]; [repeat constructor|].
  constructor; [reflexivity|].
  split_plain.
  - apply newline_indent_plain.
  - apply encode_members_plain. constructor; [reflexivity|].
    apply newline_indent_plain.
  - apply newline_indent_plain.
  - repeat constructor.
Qed.

Lemma plain_bounds (c : codepoint) : plain c = true -> c < 128 /\ c <> 13.
Proof.
  unfold plain. intros H. apply andb_true_iff in H as [H1 H2].
  apply N.ltb_lt in H1. apply negb_true_iff, N.eqb_neq in H2. now split.
Qed.

Lemma to_N_byte_of (c : N) : c < 256 -> Byte.to_N (Utf8.byte_of c) = c.
Proof.
  intros H. unfold Utf8.byte_of.
  destruct (Byte.of_N c) as [b|] eqn:E.
  - now apply Byte.to_of_N.
  - apply Byte.of_N_None_iff in E. lia.
Qed.

Lemma encode_plain (s : pystr) :
  all_plain s -> Utf8.encode s = Some (map Utf8.byte_of s).
Proof.
  induction 1 as [|c s Hc Hs IH]; [reflexivity|].
  cbn [Utf8.encode map]. rewrite IH. unfold Utf8.encode_char.
  apply plain_bounds in Hc as [Hc _].
  destruct (N.ltb_spec c 128); [reflexivity|lia].
Qed.

Lemma decode_plain (s : pystr) :
  all_plain s -> Utf8.decode (map Utf8.byte_of s) = Some s.
Proof.
  induction 1 as [|c s Hc Hs IH]; [reflexivity|].
  cbn [Utf8.decode map]. cbv zeta.
  apply plain_bounds in Hc as [Hc _].
  rewrite to_N_byte_of by lia.
  destruct (N.ltb_spec c 128); [|lia]. now rewrite IH.
Qed.

Lemma universal_newlines_plain (s : pystr) :
  all_plain s -> Utf8.universal_newlines s = s.
Proof.
  induction 1 as [|c s Hc Hs IH]; [reflexivity|].
  cbn [Utf8.universal_newlines].
  apply plain_bounds in Hc as [_ Hc].
  destruct (N.eqb_spec c 13); [contradiction|]. now rewrite IH.
Qed.

End TextFacts.

(* ================================================================== *)
(** * Persistence: save, load, and what a bad file does *)
(* ================================================================== *)

Lemma dumps_on_disk (db : database) :
  Utf8.encode (Json.dumps db) = Some (map Utf8.byte_of (Json.dumps db))
  /\ Utf8.decode (map Utf8.byte_of (Json.dumps db)) = Some (Json.dumps db)
  /\ Utf8.universal_newlines (Json.dumps db) = Json.dumps db.
Proof.
  pose proof (TextFacts.dumps_plain db) as H. repeat split.
  - now apply TextFacts.encode_plain.
  - now apply TextFacts.decode_plain.
  - now apply TextFacts.universal_newlines_plain.
Qed.

(** [save_database] returns normally unless the directory is missing
    and cannot be made. *)
Lemma save_database_returns (db : database) (w : World) :
  dir_present (fs w) = true \/ makedirs_ok (fs w) = true ->
  fst (save_database db w) = Ok tt
  /\ dir_present (fs (snd (save_database db w))) = true.
Proof.
  destruct (dumps_on_disk db) as (He & _ & _).
  destruct w as [[d fb r wo wf] tr lr ck lm st cdb [sd md]].
  unfold makedirs_ok. cbn [fs dir_present write_ok write_fault]. intros H.
  unfold_io. rewrite He.
  destruct d, wo, wf; unfold_io;
    try (destruct H as [H|H]; discriminate H); split; reflexivity.
Qed.

(** A write the store does not accept, the directory being there or
    made: the [OSError] is caught and logged, and the file holds what
    the failed write left. *)
Lemma save_database_refused (db : database) (w : World) :
  dir_present (fs w) = true \/ makedirs_ok (fs w) = true ->
  write_ok (fs w) = false ->
  let w' := snd (save_database db w) in
  fst (save_database db w) = Ok tt
  /\ logging_records w' = logging_records w ++ [(ERROR, save_error_message)]
  /\ file_bytes (fs w')
     = after_failed_write (fs w) (map Utf8.byte_of (Json.dumps db))
  /\ writes w' = S (writes w).
Proof.
  intros Hdir Hw. cbv zeta.
  split; [apply (save_database_returns db w Hdir)|].
  split; [|split; [|apply (save_database_writes_once db w Hdir)]];
    destruct (dumps_on_disk db) as (He & _ & _);
    destruct w as [[d fb r wo wf] tr lr ck lm st cdb [sd md]];
    unfold makedirs_ok, after_failed_write in *;
    cbn [fs dir_present write_ok write_fault file_bytes logging_records] in *;
    subst wo; unfold_io; rewrite He;
    destruct d, wf; unfold_io;
    try (destruct Hdir as [H|H]; discriminate H); reflexivity.
Qed.

(** What [load_database] does on a store that holds the text [dumps]
    wrote for a database. *)
Lemma load_database_dumped (db : database) (w : World) :
  db_json_safe db ->
  dir_present (fs w) = true ->
  file_bytes (fs w) = Some (map Utf8.byte_of (Json.dumps db)) ->
  read_ok (fs w) = true ->
  load_database w
  = (Ok (Json.of_database db),
     traced [Exists DATA_DIR; Exists DATABASE_FILE; OpenRead DATABASE_FILE] w).
Proof.
  intros Hsafe Hdir Hfile Hr.
  destruct (dumps_on_disk db) as (_ & Hd & Hn).
  rewrite (load_database_present w _ Hdir Hfile). cbv zeta.
  rewrite Hr, Hd, Hn. unfold decoder_room. cbn [Nat.add].
  now rewrite (JsonFacts.loads_dumps db _ _ Hsafe).
Qed.

Lemma save_then_load_run (db : database) (w : World) :
  db_json_safe db ->
  write_ok (fs w) = true ->
  read_ok (fs w) = true ->
  exists w',
    bind (save_database db) (fun _ => load_database) w
    = (Ok (Json.of_database db), w').
Proof.
  intros Hsafe Hw Hr.
  destruct (dumps_on_disk db) as (He & Hd & Hn).
  destruct (save_database_stores db w _ Hw He) as [Hok Hfs].
  unfold bind.
  destruct (save_database db w) as [[[]|e] w1]; cbn [fst snd] in *;
    [|discriminate].
  rewrite (load_database_dumped db w1 Hsafe)
    by (rewrite Hfs; cbn; first [reflexivity|assumption]).
  eexists. reflexivity.
Qed.

(** C6 (amended).  When the write succeeds and the file can be read, a
    database whose strings JSON carries through (code points below
    0x110000, no high surrogate directly followed by a low surrogate)
    comes back from [save_database] then [load_database] as an equal
    mapping: the same keys in the same order, each with the same owner
    list in the same order. *)
Theorem save_then_load_roundtrip (db : database) (w : World) :
  db_json_safe db ->
  write_ok (fs w) = true ->
  read_ok (fs w) = true ->
  exists v w',
    bind (save_database db) (fun _ => load_database) w = (Ok v, w')
    /\ Json.as_database v = Some db.
Proof.
  intros Hsafe Hw Hr.
  destruct (save_then_load_run db w Hsafe Hw Hr) as [w' E].
  exists (Json.of_database db), w'. split; [exact E|].
  apply JsonFacts.as_database_of_database.
Qed.

(** C6 (the claim as stated fails).  A card name made of a high
    surrogate followed by a low surrogate (a two-character Python
    string) is written as two [\u] escapes, which the decoder joins
    into the single character U+1F600: the mapping read back has
    another key. *)
Lemma surrogate_key_not_restored :
  let db : database := [([0xD83D; 0xDE00]%N, [])] in
  fst (bind (save_database db) (fun _ => load_database)
         (boot empty_fs (Str.str "00:00:00")))
  = Ok (Json.of_database [([0x1F600]%N, [])])
  /\ Json.as_database (Json.of_database [([0x1F600]%N, [])]) <> Some db.
Proof.
  cbv zeta. split; [vm_compute; reflexivity|].
  vm_compute. discriminate.
Qed.




(** Two thousand opening brackets: the decoder raises [RecursionError]
    long before it could find the text unfinished, and [load_database]
    does not catch it. *)
Example deep_nesting_raises :
  fst (load_database (boot (fs_with (repeat x5b 2000)) (Str.str "12:00:00")))
  = Raised RecursionError.
Proof. vm_compute. reflexivity. Qed.

(** An integer of five thousand digits is valid JSON; the interpreter
    refuses to convert it, and the [ValueError] is not caught either. *)
Example long_integer_raises :
  fst (load_database (boot (fs_with (repeat x31 5000)) (Str.str "12:00:00")))
  = Raised ValueError.
Proof. vm_compute. reflexivity. Qed.

(* ================================================================== *)
(** * One embed: when the database is written *)
(* ================================================================== *)

Section EmbedFacts.
Context {U : UnicodeData}.

Lemma on_embed_qualifying (message : Message) (embed : Embed)
  (name description icon_url owner_id : pystr) (w : World) :
  embed_fields embed = Some (name, description, icon_url) ->
  is_listing name = true ->
  owner_id_match icon_url = Some owner_id ->
  on_embed message embed w
  = index_embed message owner_id (owner_name_of name)
      (cards_in_embed description) w.
Proof.
  intros Hf Hl Ho. unfold on_embed. now rewrite Hf, Hl, Ho.
Qed.

(** C7 (amended).  For an embed that qualifies (its fields are present,
    its author label names a collection or a wishlist, its icon URL
    yields an owner id): when no card received a new owner on this
    call, the whole state, file and in-memory mapping included, is as
    before and no write is attempted.  When some card did, the
    in-memory mapping is the updated one and [save_database] is called:
    if the store accepts the write, the file holds the JSON text of the
    updated mapping; if the data directory is there or can be made but
    the write is not accepted, the file is opened for writing once, the
    failure is logged and swallowed, and the file holds what the failed
    write left; if the directory is missing and cannot be made, the call
    raises [OSError] and no write is attempted.  So the file is opened
    for writing only when some card received a new owner. *)
Theorem persisted_iff_new_owner (message : Message) (embed : Embed)
  (name description icon_url owner_id : pystr) (w : World) :
  embed_fields embed = Some (name, description, icon_url) ->
  is_listing name = true ->
  owner_id_match icon_url = Some owner_id ->
  let r := index_cards owner_id (cards_in_embed description)
             (card_database w) [] in
  let run := on_embed message embed w in
  let text := map Utf8.byte_of (Json.dumps (fst r)) in
  (snd r = [] -> run = (Ok tt, w))
  /\ (snd r <> [] ->
      card_database (snd run) = fst r
      /\ (write_ok (fs w) = true ->
          fst run = Ok tt
          /\ writes (snd run) = S (writes w)
          /\ file_bytes (fs (snd run)) = Some text)
      /\ (dir_present (fs w) = true \/ makedirs_ok (fs w) = true ->
          write_ok (fs w) = false ->
          fst run = Ok tt
          /\ writes (snd run) = S (writes w)
          /\ file_bytes (fs (snd run)) = after_failed_write (fs w) text
          /\ In (ERROR, save_error_message) (logging_records (snd run)))
      /\ (dir_present (fs w) = false ->
          makedirs_ok (fs w) = false ->
          fst run = Raised OSError
          /\ writes (snd run) = writes w
          /\ fs (snd run) = fs w))
  /\ (writes (snd run) = S (writes w) -> snd r <> []).
Proof.
  intros Hf Hl Ho r run text. subst run.
  rewrite (on_embed_qualifying message embed name description icon_url
             owner_id w Hf Hl Ho), index_embed_run.
  cbv zeta. fold r.
  destruct (snd r) as [|p l] eqn:Hupd.
  - assert (E : with_card_database (fst r) w = w).
    { subst r. rewrite DbFacts.index_cards_none_updated by exact Hupd.
      apply with_card_database_same. }
    cbn [snd]. rewrite E. split; [reflexivity|]. split; [congruence|].
    intros H. lia.
  - set (w2 := with_LOG_MESSAGES _ _).
    destruct (save_database_keeps_memory (fst r) w2) as [Hdb _].
    assert (Hwz : writes w2 = writes w) by reflexivity.
    assert (Hfz : fs w2 = fs w) by reflexivity.
    rewrite <- Hwz, <- Hfz.
    split; [discriminate|]. split; [|discriminate]. intros _.
    split; [rewrite Hdb; reflexivity|]. split; [|split].
    + intros Hok.
      destruct (dumps_on_disk (fst r)) as (He & _ & _).
      destruct (save_database_stores (fst r) w2 _ Hok He) as [Hret Hfs].
      split; [exact Hret|]. split; [|rewrite Hfs; reflexivity].
      apply save_database_writes_once. right. unfold makedirs_ok.
      now rewrite Hok.
    + intros Hdir Hno.
      destruct (save_database_refused (fst r) w2 Hdir Hno)
        as (Hret & Hlog & Hfile & Hwr).
      split; [exact Hret|]. split; [exact Hwr|]. split; [exact Hfile|].
      rewrite Hlog. apply in_or_app. right. now left.
    + intros Hdir Hno.
      rewrite (save_database_no_directory (fst r) w2 Hdir Hno).
      cbn [fst snd]. split; [reflexivity|]. split; [|reflexivity].
      unfold writes, traced. cbn [io_trace with_io_trace].
      rewrite count_occ_app. cbn [count_occ].
      repeat match goal with
             | |- context [io_event_eq_dec ?a ?b] =>
                 destruct (io_event_eq_dec a b); try discriminate
             end.
      lia.
Qed.

(** C7 (the claim as stated fails).  On a store that refuses the write,
    the embed of Alice's collection gives a card a new owner, the
    in-memory mapping is updated, and the database is not serialized:
    the file is as absent as before. *)
Lemma refused_write_not_serialized :
  let w := boot read_only_fs (Str.str "12:00:00") in
  let r := index_cards (Str.str "555")
             (@cards_in_embed ascii_only (Str.str "12 - AB Firebolt Dragon"))
             (card_database w) [] in
  let run := @on_embed ascii_only example_message example_embed w in
  snd r <> []
  /\ fst run = Ok tt
  /\ card_database (snd run) = indexed_db
  /\ file_bytes (fs (snd run)) = None.
Proof.
  cbv zeta. split; [vm_compute; discriminate|].
  split; [vm_compute; reflexivity|]. split; vm_compute; reflexivity.
Qed.

End EmbedFacts.

(* ================================================================== *)
(** * The avatar pattern and the owner of an embed *)
(* ================================================================== *)

Module ReFacts.

Lemma starts_with_app (p s : pystr) : Str.starts_with p (p ++ s) = true.
Proof.
  induction p as [|c p IH]; [reflexivity|].
  cbn [Str.starts_with app]. now rewrite N.eqb_refl, IH.
Qed.

Lemma skipn_length_app (p s : pystr) : skipn (length p) (p ++ s) = s.
Proof. induction p as [|c p IH]; [reflexivity|exact IH]. Qed.

(** A run of literals matches exactly when the subject starts with
    them. *)
Lemma match_lits (p : pystr) (re : Re.pattern) :
  forall s,
    Re.match_here (Re.lits p ++ re) s
    = if Str.starts_with p s
      then match Re.match_here re (skipn (length p) s) with
           | Some (segs, rest) => Some (map (fun c => [c]) p ++ segs, rest)
           | None => None
           end
      else None.
Proof.
  induction p as [|c p IH]; intros s.
  - cbn. destruct (Re.match_here re s) as [[segs rest]|]; reflexivity.
  - destruct s as [|x s]; [reflexivity|].
    cbn [Re.lits map app Re.match_here Str.starts_with length skipn].
    fold (Re.lits p). rewrite IH.
    rewrite N.eqb_sym.
    destruct (N.eqb_spec c x) as [->|]; [|reflexivity].
    cbn [andb]. destruct (Str.starts_with p s); [|reflexivity].
    destruct (Re.match_here re (skipn (length p) s)) as [[segs rest]|];
      reflexivity.
Qed.

Lemma search_unfold (re : Re.pattern) (s : pystr) :
  Re.search re s
  = match Re.match_here re s with
    | Some r => Some r
    | None => match s with
              | [] => None
              | _ :: s' => Re.search re s'
              end
    end.
Proof. destruct s; reflexivity. Qed.

Lemma span_len_run (cls : codepoint -> bool) (d : pystr) (x : codepoint)
  (t : pystr) :
  forallb cls d = true -> cls x = false ->
  Re.span_len cls (d ++ x :: t) = length d.
Proof.
  intros Hd Hx. induction d as [|c d IH]; cbn [app Re.span_len length].
  - now rewrite Hx.
  - cbn [forallb] in Hd. apply andb_true_iff in Hd as [Hc Hd].
    rewrite Hc. f_equal. now apply IH.
Qed.

Lemma firstn_length_app (d t : pystr) : firstn (length d) (d ++ t) = d.
Proof.
  induction d as [|c d IH]; [reflexivity|].
  cbn [length app]. rewrite firstn_cons. now f_equal.
Qed.

Section WithUnicode.
Context {U : UnicodeData}.

(** The group and the closing slash on digits followed by a slash. *)
Lemma match_digits_slash (d t : pystr) :
  d <> [] -> forallb Str.is_decimal d = true ->
  Re.match_here [Re.Rep Str.is_decimal 1; Re.Lit (Str.ch "/")]
    (d ++ Str.ch "/" :: t)
  = Some ([d; [Str.ch "/"]], t).
Proof.
  intros Hne Hd. cbn [Re.match_here].
  rewrite (span_len_run Str.is_decimal d (Str.ch "/") t Hd eq_refl).
  destruct d as [|c d]; [contradiction|].
  cbn [length]. unfold Re.backtrack at 1. fold Re.backtrack.
  cbn [Nat.ltb Nat.leb].
  change (S (length d)) with (length (c :: d)).
  rewrite skipn_length_app, firstn_length_app.
  cbn. reflexivity.
Qed.

Lemma avatar_match_here (d t : pystr) :
  d <> [] -> forallb Str.is_decimal d = true ->
  exists segs,
    Re.match_here avatar_re (Str.str "/avatars/" ++ d ++ Str.ch "/" :: t)
    = Some (segs, t)
    /\ nth 9 segs [] = d.
Proof.
  intros Hne Hd. unfold avatar_re. rewrite match_lits.
  rewrite starts_with_app, skipn_length_app, (match_digits_slash d t Hne Hd).
  eexists. split; reflexivity.
Qed.

Lemma avatar_no_match_here (s : pystr) :
  Str.starts_with (Str.str "/avatars/") s = false ->
  Re.match_here avatar_re s = None.
Proof. intros H. unfold avatar_re. now rewrite match_lits, H. Qed.

(** [re.search] passes over the positions before the first occurrence
    of the pattern's literal head. *)
Lemma search_from_first_occurrence (s : pystr) :
  forall i,
    Str.find (Str.str "/avatars/") s = Some i ->
    Re.search avatar_re s = Re.search avatar_re (skipn i s).
Proof.
  induction s as [|c s IH]; intros i Hfind.
  - cbn in Hfind. discriminate.
  - cbn [Str.find] in Hfind.
    destruct (Str.starts_with (Str.str "/avatars/") (c :: s)) eqn:Hs.
    + injection Hfind as <-. reflexivity.
    + destruct (Str.find (Str.str "/avatars/") s) as [j|] eqn:Hj;
        [|discriminate].
      cbn in Hfind. injection Hfind as <-.
      cbn [Re.search skipn]. rewrite (avatar_no_match_here _ Hs).
      now apply IH.
Qed.

(** The owner id is the run of digits after the first ["/avatars/"],
    when a slash closes it. *)
Lemma owner_id_leftmost (icon_url d t : pystr) (i : nat) :
  Str.find (Str.str "/avatars/") icon_url = Some i ->
  skipn i icon_url = Str.str "/avatars/" ++ d ++ Str.ch "/" :: t ->
  d <> [] -> forallb Str.is_decimal d = true ->
  owner_id_match icon_url = Some d.
Proof.
  intros Hfind Hskip Hne Hd. unfold owner_id_match.
  rewrite (search_from_first_occurrence icon_url i Hfind), Hskip.
  destruct (avatar_match_here d t Hne Hd) as (segs & Hm & Hnth).
  rewrite search_unfold, Hm. now rewrite Hnth.
Qed.

End WithUnicode.

End ReFacts.

Section OwnerFacts.
Context {U : UnicodeData}.

(** C8 (amended).  For an embed whose author name is
    ["Alice's Collection"] and in whose icon URL the first occurrence
    of ["/avatars/"] is the one of ["/avatars/555/"], the owner label
    is ["Alice"] and the owner id is ["555"], and the embed (its body
    not empty) is indexed under them.  Whatever the embed, when the
    avatar pattern does not match its icon URL the embed is passed over
    and the whole state is unchanged. *)
Theorem alice_555_owner (icon_url t : pystr) (i : nat) :
  Str.find (Str.str "/avatars/") icon_url = Some i ->
  skipn i icon_url = Str.str "/avatars/555/" ++ t ->
  owner_name_of (Str.str "Alice's Collection") = Str.str "Alice"
  /\ owner_id_match icon_url = Some (Str.str "555")
  /\ (forall message description w,
         Str.truthy description = true ->
         on_embed message
           (embed_of (Str.str "Alice's Collection") icon_url description) w
         = index_embed message (Str.str "555") (Str.str "Alice")
             (cards_in_embed description) w)
  /\ (forall message embed name description url w,
         embed_fields embed = Some (name, description, url) ->
         owner_id_match url = None ->
         on_embed message embed w = (Ok tt, w)).
Proof.
  intros Hfind Hskip.
  assert (Hid : owner_id_match icon_url = Some (Str.str "555")).
  { apply (ReFacts.owner_id_leftmost icon_url (Str.str "555") t i Hfind).
    - exact Hskip.
    - discriminate.
    - reflexivity. }
  assert (Hname : owner_name_of (Str.str "Alice's Collection") = Str.str "Alice")
    by (vm_compute; reflexivity).
  split; [exact Hname|]. split; [exact Hid|]. split.
  - intros message description w Hd.
    assert (Hurl : Str.truthy icon_url = true).
    { destruct icon_url; [|reflexivity].
      rewrite skipn_nil in Hskip. discriminate. }
    rewrite <- Hname.
    apply on_embed_qualifying with (icon_url := icon_url).
    + unfold embed_fields, embed_of. cbn [embed_author author_name
        author_icon_url embed_description]. now rewrite Hd, Hurl.
    + vm_compute. reflexivity.
    + exact Hid.
  - intros message embed name description url w Hf Hnone.
    unfold on_embed. rewrite Hf, Hnone. now destruct (is_listing name).
Qed.

End OwnerFacts.

(** C8 (the claim as stated fails).  An icon URL can contain
    ["/avatars/555/"] after an earlier ["/avatars/123/"]: [re.search]
    returns the leftmost match, so the owner id is ["123"]. *)
Lemma earlier_avatar_segment_wins :
  let url := Str.str "https://cdn.example/avatars/123/avatars/555/a.png" in
  Str.contains (Str.str "/avatars/555/") url = true
  /\ @owner_id_match ascii_only url = Some (Str.str "123")
  /\ @owner_id_match ascii_only url <> Some (Str.str "555").
Proof.
  cbv zeta. split; [vm_compute; reflexivity|].
  split; [vm_compute; reflexivity|]. vm_compute. discriminate.
Qed.

(* ================================================================== *)
(** * The query service *)
(* ================================================================== *)

Module OrderFacts.

Lemma ltb_irrefl (a : pystr) : Str.ltb a a = false.
Proof.
  induction a as [|x a IH]; [reflexivity|].
  cbn [Str.ltb]. now rewrite N.ltb_irrefl, N.eqb_refl, IH.
Qed.

Lemma ltb_cons (x y : codepoint) (a b : pystr) :
  Str.ltb (x :: a) (y :: b) = true
  <-> (x < y)%N \/ (x = y /\ Str.ltb a b = true).
Proof.
  cbn [Str.ltb]. rewrite orb_true_iff, andb_true_iff, N.ltb_lt, N.eqb_eq.
  reflexivity.
Qed.

Lemma ltb_trans (a : pystr) :
  forall b c, Str.ltb a b = true -> Str.ltb b c = true -> Str.ltb a c = true.
Proof.
  induction a as [|x a IH]; intros [|y b] [|z c] H1 H2;
    try discriminate; try reflexivity.
  apply ltb_cons in H1, H2. apply ltb_cons.
  destruct H1 as [H1|[-> H1]], H2 as [H2|[-> H2]].
  - left. lia.
  - now left.
  - now left.
  - right. split; [reflexivity|]. now apply (IH b c).
Qed.

Lemma ltb_total (a : pystr) :
  forall b, Str.ltb a b = false -> Str.ltb b a = false -> a = b.
Proof.
  induction a as [|x a IH]; intros [|y b] H1 H2; try discriminate;
    [reflexivity|].
  cbn [Str.ltb] in H1, H2.
  apply orb_false_iff in H1 as [H1 H1'], H2 as [H2 H2'].
  apply N.ltb_ge in H1, H2.
  assert (x = y) by lia. subst y.
  rewrite N.eqb_refl in H1', H2'. cbn [andb] in H1', H2'.
  f_equal. now apply IH.
Qed.

Section WithUnicode.
Context {U : UnicodeData}.

Lemma insert_sorted_In (x : pystr) (l : list pystr) (o : pystr) :
  In o (insert_sorted x l) <-> o = x \/ In o l.
Proof.
  induction l as [|y l IH]; cbn [insert_sorted In].
  - intuition congruence.
  - destruct (Str.leb x y); cbn [In]; [intuition congruence|].
    rewrite IH. intuition congruence.
Qed.

Lemma insert_sorted_strict (x : pystr) (l : list pystr) :
  StronglySorted str_lt l -> ~ In x l ->
  StronglySorted str_lt (insert_sorted x l).
Proof.
  induction l as [|y l IH]; intros Hs Hn; cbn [insert_sorted].
  - constructor; constructor.
  - inversion Hs as [|? ? Hl Hy]; subst.
    destruct (Str.leb x y) eqn:E.
    + assert (Hxy : str_lt x y).
      { unfold Str.leb in E. apply negb_true_iff in E.
        unfold str_lt. destruct (Str.ltb x y) eqn:E2; [reflexivity|].
        exfalso. apply Hn. left. symmetry. now apply ltb_total. }
      constructor; [exact Hs|]. constructor; [exact Hxy|].
      rewrite Forall_forall in *. intros z Hz.
      apply (ltb_trans x y z Hxy). now apply Hy.
    + unfold Str.leb in E. apply negb_false_iff in E.
      constructor.
      * apply IH; [exact Hl|]. intros Hin. apply Hn. now right.
      * rewrite Forall_forall in *. intros z Hz.
        apply insert_sorted_In in Hz as [->|Hz]; [exact E|now apply Hy].
Qed.

Lemma sorted_strict (l : list pystr) :
  NoDup l ->
  StronglySorted str_lt (sorted l) /\ forall o, In o (sorted l) <-> In o l.
Proof.
  induction 1 as [|x l Hx Hnd [IHs IHi]]; cbn [sorted fold_right].
  - split; [constructor|reflexivity].
  - fold (sorted l). split.
    + apply insert_sorted_strict; [exact IHs|]. now rewrite IHi.
    + intros o. rewrite insert_sorted_In, IHi. cbn [In]. intuition congruence.
Qed.

Lemma set_add_spec (x : pystr) (s : list pystr) :
  NoDup s ->
  NoDup (set_add x s) /\ forall o, In o (set_add x s) <-> o = x \/ In o s.
Proof.
  intros Hs. unfold set_add. destruct (mem x s) eqn:E.
  - apply DbFacts.mem_In in E. split; [exact Hs|].
    intros o. intuition congruence.
  - apply DbFacts.mem_false in E. split.
    + now apply DbFacts.NoDup_snoc.
    + intros o. rewrite in_app_iff. cbn [In]. intuition congruence.
Qed.

Lemma set_update_spec (l : list pystr) :
  forall s,
    NoDup s ->
    NoDup (set_update s l)
    /\ forall o, In o (set_update s l) <-> In o s \/ In o l.
Proof.
  induction l as [|x l IH]; intros s Hs; cbn [set_update fold_left].
  - split; [exact Hs|]. intros o. cbn [In]. tauto.
  - destruct (set_add_spec x s Hs) as [Hnd Hin].
    destruct (IH (set_add x s) Hnd) as [Hnd' Hin'].
    split; [exact Hnd'|]. intros o.
    unfold set_update in Hin'. rewrite Hin', Hin. cbn [In].
    intuition congruence.
Qed.

(** The matching cards' owners, each once. *)
Lemma found_ids_from (query : pystr) (db : database) :
  forall acc,
    NoDup acc ->
    NoDup (fold_left (found_step query) db acc)
    /\ forall o,
        In o (fold_left (found_step query) db acc)
        <-> In o acc
            \/ exists name l,
                In (name, l) db
                /\ Str.contains query (Str.lower name) = true
                /\ In o l.
Proof.
  induction db as [|[name l] db IH]; intros acc Hacc.
  - cbn [fold_left]. split; [exact Hacc|]. intros o. split; [now left|].
    intros [H|(n & l0 & [] & _)]. exact H.
  - cbn [fold_left]. unfold found_step at 2 4. cbn [fst snd].
    destruct (Str.contains query (Str.lower name)) eqn:E.
    + destruct (set_update_spec l acc Hacc) as [Hnd Hin].
      destruct (IH (set_update acc l) Hnd) as [Hnd' Hin'].
      split; [exact Hnd'|]. intros o. rewrite Hin', Hin.
      split.
      * intros [[H|H]|(n & l0 & Hm & Hc & Ho)].
        -- now left.
        -- right. exists name, l. repeat split; [now left|exact E|exact H].
        -- right. exists n, l0. repeat split; [now right|exact Hc|exact Ho].
      * intros [H|(n & l0 & [Hm|Hm] & Hc & Ho)].
        -- left. now left.
        -- injection Hm as <- <-. left. now right.
        -- right. exists n, l0. now repeat split.
    + destruct (IH acc Hacc) as [Hnd' Hin'].
      split; [exact Hnd'|]. intros o. rewrite Hin'.
      split.
      * intros [H|(n & l0 & Hm & Hc & Ho)]; [now left|].
        right. exists n, l0. repeat split; [now right|exact Hc|exact Ho].
      * intros [H|(n & l0 & [Hm|Hm] & Hc & Ho)]; [now left| |].
        -- injection Hm as <- <-. congruence.
        -- right. exists n, l0. now repeat split.
Qed.

Lemma sorted_found_ids (query : pystr) (db : database) :
  StronglySorted str_lt (sorted (found_ids query db))
  /\ forall o,
      In o (sorted (found_ids query db))
      <-> exists name l,
            In (name, l) db
            /\ Str.contains query (Str.lower name) = true
            /\ In o l.
Proof.
  destruct (found_ids_from query db [] (NoDup_nil _)) as [Hnd Hin].
  destruct (sorted_strict (found_ids query db) Hnd) as [Hs Hi].
  split; [exact Hs|]. intros o. rewrite Hi. unfold found_ids.
  rewrite Hin. cbn [In]. tauto.
Qed.

End WithUnicode.

End OrderFacts.

Section SearchFacts.
Context {U : UnicodeData}.

(** C3 (amended).  The search lower-cases the query and strips the
    whitespace at its ends.  When nothing is left it returns the empty
    list and reads nothing; otherwise it loads the database from the
    file and returns, in strictly ascending order (sorted, no
    duplicates), exactly the owner identifiers attached to a card whose
    lower-cased name contains the normalised query.  On the database
    [{"Firebolt Dragon": ["1","2"], "Shield Knight": ["3"]}] the query
    ["drag"] returns [["1","2"]]. *)
Theorem api_search_owners (q : pystr) (w w' : World) (v : Json.value)
  (db : database) :
  load_database w = (Ok v, w') ->
  Json.as_database v = Some db ->
  let query := Str.strip (Str.lower q) in
  (exists owners,
      api_search (Some q) w = (Ok owners, if Str.truthy query then w' else w)
      /\ StronglySorted str_lt owners
      /\ (forall o,
             In o owners
             <-> Str.truthy query = true
                 /\ exists name l,
                     In (name, l) db
                     /\ Str.contains query (Str.lower name) = true
                     /\ In o l))
  /\ fst (api_search (Some (Str.str "drag")) example_world)
     = Ok [Str.str "1"; Str.str "2"].
Proof.
  intros Hload Hdb query. split; [|vm_compute; reflexivity].
  unfold api_search. fold query.
  destruct (Str.truthy query) eqn:Hq; cbn [negb].
  - unfold bind. rewrite Hload, Hdb.
    destruct (OrderFacts.sorted_found_ids query db) as [Hs Hi].
    exists (sorted (found_ids query db)). split; [reflexivity|].
    split; [exact Hs|]. intros o. rewrite Hi. tauto.
  - exists []. split; [reflexivity|]. split; [constructor|].
    intros o. cbn [In]. split; [tauto|]. intros [H _]. discriminate.
Qed.

End SearchFacts.

(** C3 (the claim as stated fails).  The query ["drag "], with a space
    at its end, lower-cased as it stands is contained in no card name of
    the example database, so the search as described returns nothing;
    [api_search] strips the space and returns [["1","2"]]. *)
Lemma trailing_space_query_matches :
  fst (@api_search ascii_only (Some (Str.str "drag ")) example_world)
  = Ok [Str.str "1"; Str.str "2"]
  /\ @described_search ascii_only (Str.str "drag ") example_db = []
  /\ fst (@api_search ascii_only (Some (Str.str "drag ")) example_world)
     <> Ok (@described_search ascii_only (Str.str "drag ") example_db).
Proof.
  split; [vm_compute; reflexivity|]. split; [vm_compute; reflexivity|].
  vm_compute. discriminate.
Qed.

(* ================================================================== *)
(** * The theorems at concrete inputs *)
(* ================================================================== *)

Ltac distinct :=
  repeat first
    [ apply NoDup_nil
    | apply NoDup_cons; [cbn [In]; intuition discriminate|] ].

Lemma index_twice_one_occurrence_example :
  is_card_name (Str.str "Firebolt Dragon")
  /\ owners_unique example_db
  /\ (let db1 := fst (index_cards (Str.str "7") [Str.str "Firebolt Dragon"]
                        example_db []) in
      let db2 := fst (index_cards (Str.str "7") [Str.str "Firebolt Dragon"]
                        db1 []) in
      count_occ pystr_eq_dec (owners_of db2 (Str.str "Firebolt Dragon"))
        (Str.str "7") = 1
      /\ db2 = db1).
Proof.
  assert (H1 : is_card_name (Str.str "Firebolt Dragon")) by reflexivity.
  assert (H2 : owners_unique example_db).
  { unfold owners_unique, example_db.
    repeat (apply Forall_cons; [cbn [snd]; distinct|]). apply Forall_nil. }
  split; [exact H1|]. split; [exact H2|].
  destruct (@index_twice_one_occurrence ascii_only example_db
              (Str.str "Firebolt Dragon") (Str.str "7") H1 H2)
    as (Hc & He & _).
  split; [exact Hc|exact He].
Defined.

Lemma save_then_load_roundtrip_example :
  db_json_safe example_db
  /\ write_ok (fs (boot empty_fs (Str.str "12:00:00"))) = true
  /\ read_ok (fs (boot empty_fs (Str.str "12:00:00"))) = true
  /\ exists v w',
       bind (save_database example_db) (fun _ => load_database)
         (boot empty_fs (Str.str "12:00:00")) = (Ok v, w')
       /\ Json.as_database v = Some example_db.
Proof.
  assert (H : db_json_safe example_db).
  { split.
    - cbn [map fst example_db]. distinct.
    - repeat constructor. }
  split; [exact H|]. split; [reflexivity|]. split; [reflexivity|].
  exact (save_then_load_roundtrip example_db
           (boot empty_fs (Str.str "12:00:00")) H eq_refl eq_refl).
Defined.

Lemma persisted_iff_new_owner_example :
  @embed_fields example_embed
  = Some (Str.str "Alice's Collection", Str.str "12 - AB Firebolt Dragon",
          example_url)
  /\ @is_listing ascii_only (Str.str "Alice's Collection") = true
  /\ @owner_id_match ascii_only example_url = Some (Str.str "555")
  /\ (let w := boot empty_fs (Str.str "12:00:00") in
      let r := index_cards (Str.str "555")
                 (@cards_in_embed ascii_only (Str.str "12 - AB Firebolt Dragon"))
                 (card_database w) [] in
      let run := @on_embed ascii_only example_message example_embed w in
      snd r <> []
      /\ card_database (snd run) = fst r
      /\ fst run = Ok tt
      /\ writes (snd run) = S (writes w)
      /\ file_bytes (fs (snd run))
         = Some (map Utf8.byte_of (Json.dumps (fst r)))).
Proof.
  split; [reflexivity|]. split; [vm_compute; reflexivity|].
  split; [vm_compute; reflexivity|]. cbv zeta.
  assert (Hne : snd (index_cards (Str.str "555")
                       (@cards_in_embed ascii_only
                          (Str.str "12 - AB Firebolt Dragon"))
                       (card_database (boot empty_fs (Str.str "12:00:00"))) [])
                <> []) by (vm_compute; discriminate).
  split; [exact Hne|].
  pose proof (@persisted_iff_new_owner ascii_only example_message example_embed
                (Str.str "Alice's Collection")
                (Str.str "12 - AB Firebolt Dragon")
                example_url (Str.str "555") (boot empty_fs (Str.str "12:00:00"))
                eq_refl eq_refl eq_refl) as P.
  cbv zeta in P. destruct P as (_ & P & _).
  destruct (P Hne) as (Hdb & Hok & _).
  split; [exact Hdb|]. exact (Hok eq_refl).
Defined.

Lemma alice_555_owner_example :
  Str.find (Str.str "/avatars/") example_url = Some 26
  /\ skipn 26 example_url = Str.str "/avatars/555/" ++ Str.str "abc.png"
  /\ owner_name_of (Str.str "Alice's Collection") = Str.str "Alice"
  /\ @owner_id_match ascii_only example_url = Some (Str.str "555").
Proof.
  split; [vm_compute; reflexivity|]. split; [vm_compute; reflexivity|].
  destruct (@alice_555_owner ascii_only example_url (Str.str "abc.png") 26)
    as (Hn & Hi & _).
  - vm_compute; reflexivity.
  - vm_compute; reflexivity.
  - split; [exact Hn|exact Hi].
Defined.

Lemma api_search_owners_example :
  load_database example_world
  = (Ok (Json.of_database example_db),
     traced [Exists DATA_DIR; Exists DATABASE_FILE; OpenRead DATABASE_FILE]
       example_world)
  /\ Json.as_database (Json.of_database example_db) = Some example_db
  /\ exists owners,
       @api_search ascii_only (Some (Str.str " Knight")) example_world
       = (Ok owners,
          traced [Exists DATA_DIR; Exists DATABASE_FILE;
                  OpenRead DATABASE_FILE] example_world)
       /\ StronglySorted str_lt owners
       /\ (In (Str.str "3") owners).
Proof.
  assert (H1 : load_database example_world
               = (Ok (Json.of_database example_db),
                  traced [Exists DATA_DIR; Exists DATABASE_FILE;
                          OpenRead DATABASE_FILE] example_world))
    by (vm_compute; reflexivity).
  assert (H2 : Json.as_database (Json.of_database example_db) = Some example_db)
    by reflexivity.
  split; [exact H1|]. split; [exact H2|].
  destruct (@api_search_owners ascii_only (Str.str " Knight") example_world _ _ _
              H1 H2) as [(owners & Hrun & Hsorted & Hin) _].
  exists owners. split; [exact Hrun|]. split; [exact Hsorted|].
  apply Hin. split; [reflexivity|].
  exists (Str.str "Shield Knight"), [Str.str "3"].
  split; [right; left; reflexivity|]. split; [vm_compute; reflexivity|].
  left; reflexivity.
Defined.

(* ================================================================== *)
(** * The mutator loop, card by card *)
(* ================================================================== *)

Module IndexFacts.

Lemma owners_of_set_same (db : database) (k : pystr) (v : list pystr) :
  owners_of (db_set db k v) k = v.
Proof. unfold owners_of. now rewrite DbFacts.get_set_same. Qed.

Lemma owners_of_set_other (db : database) (k k' : pystr) (v : list pystr) :
  k <> k' -> owners_of (db_set db k v) k' = owners_of db k'.
Proof. intros H. unfold owners_of. now rewrite DbFacts.get_set_other. Qed.

Lemma in_cards (k : pystr) (cards : list pystr) :
  existsb (Str.eqb k) cards = true <-> In k cards.
Proof.
  rewrite existsb_exists. split.
  - intros (x & Hx & E). apply StrFacts.eqb_eq in E. now subst.
  - intros H. exists k. split; [exact H|apply StrFacts.eqb_refl].
Qed.

(** The owner list of every card after the loop. *)
Lemma index_cards_owners (o : pystr) (cards : list pystr) :
  forall (db : database) (upd : list pystr) (k : pystr),
    owners_of (fst (index_cards o cards db upd)) k
    = if existsb (Str.eqb k) cards && Str.truthy k
         && negb (mem o (owners_of db k))
      then owners_of db k ++ [o]
      else owners_of db k.
Proof.
  induction cards as [|n cards IH]; intros db upd k; [reflexivity|].
  destruct (DbFacts.blank_or_card_name n) as [->|Hn].
  - rewrite DbFacts.index_cards_blank, IH. cbn [existsb].
    destruct k as [|c k']; [|reflexivity].
    cbn [Str.truthy]. now rewrite !andb_false_r.
  - rewrite (DbFacts.index_cards_cons o n cards db upd Hn).
    cbn [existsb].
    destruct (Str.eqb k n) eqn:Ekn.
    + apply StrFacts.eqb_eq in Ekn. subst k. cbn [orb].
      unfold is_card_name in Hn. rewrite Hn. cbn [andb].
      destruct (mem o (owners_of db n)) eqn:Hm; rewrite IH.
      * rewrite Hm. cbn [negb]. now rewrite !andb_false_r.
      * rewrite owners_of_set_same.
        assert (Hin : mem o (owners_of db n ++ [o]) = true).
        { apply DbFacts.mem_In. apply in_or_app. right. now left. }
        rewrite Hin. cbn [negb]. now rewrite !andb_false_r.
    + cbn [orb]. assert (Hne : n <> k).
      { intros ->. now rewrite StrFacts.eqb_refl in Ekn. }
      destruct (mem o (owners_of db n)) eqn:Hm; rewrite IH; [reflexivity|].
      now rewrite (owners_of_set_other db n k _ Hne).
Qed.


(** The cards recorded as updated: each once, and exactly the non-blank
    cards of the embed that did not list the owner before. *)
Lemma index_cards_news (o : pystr) (cards : list pystr) :
  forall (db : database) (upd : list pystr),
    exists news,
      snd (index_cards o cards db upd) = upd ++ news
      /\ NoDup news
      /\ forall n, In n news
                   <-> In n cards /\ is_card_name n
                       /\ ~ In o (owners_of db n).
Proof.
  induction cards as [|n cards IH]; intros db upd.
  - exists []. cbn [index_cards snd]. rewrite app_nil_r.
    split; [reflexivity|]. split; [constructor|]. intros n. cbn [In]. tauto.
  - destruct (DbFacts.blank_or_card_name n) as [->|Hn].
    + rewrite DbFacts.index_cards_blank.
      destruct (IH db upd) as (news & E & Hnd & Hin).
      exists news. split; [exact E|]. split; [exact Hnd|].
      intros x. rewrite Hin. cbn [In]. split; [tauto|].
      intros ([<-|H] & Hc & Ho); [discriminate Hc|tauto].
    + rewrite (DbFacts.index_cards_cons o n cards db upd Hn).
      destruct (mem o (owners_of db n)) eqn:Hm.
      * apply DbFacts.mem_In in Hm.
        destruct (IH db upd) as (news & E & Hnd & Hin).
        exists news. split; [exact E|]. split; [exact Hnd|].
        intros x. rewrite Hin. cbn [In]. split; [tauto|].
        intros ([<-|H] & Hc & Ho); [contradiction|tauto].
      * apply DbFacts.mem_false in Hm.
        destruct (IH (db_set db n (owners_of db n ++ [o])) (upd ++ [n]))
          as (news & E & Hnd & Hin).
        assert (Hnew : In o (owners_of (db_set db n (owners_of db n ++ [o])) n)).
        { rewrite owners_of_set_same. apply in_or_app. right. now left. }
        exists (n :: news). split; [rewrite E; now rewrite <- app_assoc|].
        split.
        { constructor; [|exact Hnd]. intros H. apply Hin in H. tauto. }
        intros x. cbn [In]. rewrite Hin. split.
        -- intros [<-|(Hx & Hc & Ho)]; [tauto|].
           destruct (pystr_eq_dec n x) as [<-|Hne]; [contradiction|].
           rewrite (owners_of_set_other db n x _ Hne) in Ho. tauto.
        -- intros (Hx & Hc & Ho).
           destruct (pystr_eq_dec n x) as [<-|Hne]; [now left|].
           right. rewrite (owners_of_set_other db n x _ Hne).
           destruct Hx as [Hx|Hx]; [contradiction|tauto].
Qed.

Lemma db_mem_In (db : database) (k : pystr) :
  db_mem db k = true <-> In k (map fst db).
Proof.
  unfold db_mem. induction db as [|[k' v] db IH]; cbn [db_get map fst In].
  - split; [discriminate|tauto].
  - destruct (Str.eqb k' k) eqn:E.
    + apply StrFacts.eqb_eq in E. split; [now left|reflexivity].
    + apply StrFacts.eqb_neq in E. rewrite IH. tauto.
Qed.

Lemma db_set_keys (db : database) (k : pystr) (v : list pystr) :
  map fst (db_set db k v)
  = if db_mem db k then map fst db else map fst db ++ [k].
Proof.
  unfold db_mem. induction db as [|[k' v'] db IH]; cbn [db_set db_get map fst];
    [reflexivity|].
  destruct (Str.eqb k' k) eqn:E; [reflexivity|].
  cbn [map fst]. rewrite IH. now destruct (db_get db k).
Qed.

Lemma owners_of_absent (db : database) (k : pystr) :
  db_mem db k = false -> owners_of db k = [].
Proof. unfold db_mem, owners_of. now destruct (db_get db k). Qed.

(** The keys after the loop: the old ones in their order, then the new
    cards in the order they were met; distinct if they were. *)
Lemma index_cards_keys (o : pystr) (cards : list pystr) :
  forall (db : database) (upd : list pystr),
    exists added,
      map fst (fst (index_cards o cards db upd)) = map fst db ++ added
      /\ (forall k, In k added -> In k cards /\ is_card_name k)
      /\ (NoDup (map fst db) ->
          NoDup (map fst (fst (index_cards o cards db upd)))).
Proof.
  induction cards as [|n cards IH]; intros db upd.
  - exists []. cbn [index_cards fst]. rewrite app_nil_r.
    split; [reflexivity|]. split; [intros k []|tauto].
  - destruct (DbFacts.blank_or_card_name n) as [->|Hn].
    + rewrite DbFacts.index_cards_blank.
      destruct (IH db upd) as (added & E & Hin & Hnd).
      exists added. split; [exact E|]. split; [|exact Hnd].
      intros k Hk. destruct (Hin k Hk). split; [now right|assumption].
    + rewrite (DbFacts.index_cards_cons o n cards db upd Hn).
      destruct (mem o (owners_of db n)) eqn:Hm.
      * destruct (IH db upd) as (added & E & Hin & Hnd).
        exists added. split; [exact E|]. split; [|exact Hnd].
        intros k Hk. destruct (Hin k Hk). split; [now right|assumption].
      * destruct (IH (db_set db n (owners_of db n ++ [o])) (upd ++ [n]))
          as (added & E & Hin & Hnd).
        rewrite db_set_keys in E, Hnd.
        destruct (db_mem db n) eqn:Hmem.
        -- exists added. split; [exact E|]. split; [|exact Hnd].
           intros k Hk. destruct (Hin k Hk). split; [now right|assumption].
        -- exists (n :: added). split; [rewrite E; now rewrite <- app_assoc|].
           split.
           ++ intros k [<-|Hk]; [split; [now left|exact Hn]|].
              destruct (Hin k Hk). split; [now right|assumption].
           ++ intros Hd. apply Hnd.
              rewrite <- (rev_involutive (map fst db ++ [n])).
              apply NoDup_rev. rewrite rev_app_distr. cbn [rev app].
              constructor; [|now apply NoDup_rev].
              rewrite <- in_rev. intros Hk. apply db_mem_In in Hk. congruence.
Qed.

End IndexFacts.

(* ================================================================== *)
(** * The outcomes of a save; replaying an embed *)
(* ================================================================== *)

Lemma store_ready_cases (f : FileSystem) :
  (store_ready f = true <-> dir_present f = true \/ makedirs_ok f = true)
  /\ (store_ready f = false
      <-> dir_present f = false /\ makedirs_ok f = false).
Proof.
  unfold store_ready. destruct (dir_present f), (makedirs_ok f); cbn;
    intuition discriminate.
Qed.

(** What [save_database] leaves alone, and what it does to the store's
    readiness: once a save has returned, the directory is there. *)
Lemma save_database_frame (db : database) (w : World) :
  clock (snd (save_database db w)) = clock w
  /\ BOT_STATUS (snd (save_database db w)) = BOT_STATUS w
  /\ makedirs_ok (fs (snd (save_database db w))) = makedirs_ok (fs w)
  /\ (dir_present (fs w) = true ->
      dir_present (fs (snd (save_database db w))) = true).
Proof.
  destruct w as [[d fb r wo wf] tr lr ck lm st cdb [sd md]].
  save_cases db d wo wf; repeat split; try reflexivity; discriminate.
Qed.

(** The two outcomes of [save_database]. *)
Lemma save_database_outcome (db : database) (w : World) :
  (store_ready (fs w) = true ->
   fst (save_database db w) = Ok tt
   /\ store_ready (fs (snd (save_database db w))) = true)
  /\ (store_ready (fs w) = false ->
      fst (save_database db w) = Raised OSError
      /\ fs (snd (save_database db w)) = fs w).
Proof.
  destruct (store_ready_cases (fs w)) as [Ht Hf]. split.
  - intros H. apply Ht in H.
    destruct (save_database_returns db w H) as [Hok Hdir].
    split; [exact Hok|]. unfold store_ready. now rewrite Hdir.
  - intros H. apply Hf in H as [Hd Hm].
    rewrite (save_database_no_directory db w Hd Hm). split; reflexivity.
Qed.

Module ReplayFacts.
Import IndexFacts.

Lemma covered_after (o : pystr) (cards : list pystr) (db : database)
  (upd : list pystr) :
  covered o cards (fst (index_cards o cards db upd)).
Proof.
  intros n Hin Hn. rewrite index_cards_owners.
  apply in_cards in Hin. rewrite Hin. unfold is_card_name in Hn. rewrite Hn.
  cbn [andb]. destruct (mem o (owners_of db n)) eqn:Hm; cbn [negb].
  - now apply DbFacts.mem_In.
  - apply in_or_app. right. now left.
Qed.

Lemma owners_kept (o x : pystr) (cards : list pystr) (db : database)
  (upd : list pystr) (k : pystr) :
  In x (owners_of db k) ->
  In x (owners_of (fst (index_cards o cards db upd)) k).
Proof.
  intros H. rewrite index_cards_owners.
  destruct (_ && _ && _); [apply in_or_app; now left|exact H].
Qed.

Lemma covered_kept (o o' : pystr) (cards cards' : list pystr) (db : database)
  (upd : list pystr) :
  covered o cards db ->
  covered o cards (fst (index_cards o' cards' db upd)).
Proof. intros H n Hin Hn. apply owners_kept. now apply H. Qed.

Lemma covered_noop (o : pystr) (cards : list pystr) (db : database) :
  covered o cards db -> index_cards o cards db [] = (db, []).
Proof.
  intros Hc.
  destruct (index_cards_news o cards db []) as (news & E & _ & Hin).
  cbn [app] in E.
  assert (Hnil : news = []).
  { destruct news as [|n news]; [reflexivity|].
    destruct (proj1 (Hin n) (or_introl eq_refl)) as (H1 & H2 & H3).
    exfalso. apply H3. now apply Hc. }
  rewrite Hnil in E. clear Hin Hnil.
  pose proof (DbFacts.index_cards_none_updated o cards db E) as Hdb.
  destruct (index_cards o cards db []) as [db' upd']. cbn [fst snd] in *.
  now subst.
Qed.

Section WithUnicode.
Context {U : UnicodeData}.

Lemma on_embed_by_pairs (message : Message) (embed : Embed) (w : World) :
  on_embed message embed w
  = match embed_pairs embed with
    | None => (Ok tt, w)
    | Some (o, cards) =>
        match embed_fields embed with
        | Some (name, _, _) =>
            index_embed message o (owner_name_of name) cards w
        | None => (Ok tt, w)
        end
    end.
Proof.
  unfold on_embed, embed_pairs.
  destruct (embed_fields embed) as [[[name description] icon_url]|];
    [|reflexivity].
  destruct (is_listing name); [|reflexivity].
  destruct (owner_id_match icon_url); reflexivity.
Qed.

(** One embed's indexing returns normally when the data directory is
    there or can be made; when it is not, the only exception is the
    [OSError] of [os.makedirs], and the store is as it was. *)
Lemma index_embed_outcome (message : Message) (o name : pystr)
  (cards : list pystr) (w : World) :
  (store_ready (fs w) = true ->
   fst (index_embed message o name cards w) = Ok tt
   /\ store_ready (fs (snd (index_embed message o name cards w))) = true)
  /\ (store_ready (fs w) = false ->
      (fst (index_embed message o name cards w) = Ok tt
       \/ fst (index_embed message o name cards w) = Raised OSError)
      /\ fs (snd (index_embed message o name cards w)) = fs w).
Proof.
  rewrite index_embed_run. cbv zeta.
  destruct (snd (index_cards o cards (card_database w) [])).
  - cbn [fst snd]. split; intros H; [now split|].
    split; [now left|reflexivity].
  - match goal with
    | |- context [save_database ?d ?w2] =>
        destruct (save_database_outcome d w2) as [Ht Hf];
        change (fs w2) with (fs w) in Ht, Hf
    end.
    split; [exact Ht|]. intros H. destruct (Hf H) as [E1 E2].
    split; [now right|exact E2].
Qed.

Lemma index_embed_database (message : Message) (o name : pystr)
  (cards : list pystr) (w : World) :
  card_database (snd (index_embed message o name cards w))
  = fst (index_cards o cards (card_database w) []).
Proof.
  rewrite index_embed_run. cbv zeta.
  destruct (snd (index_cards o cards (card_database w) [])); [reflexivity|].
  match goal with
  | |- card_database (snd (save_database ?d ?w2)) = _ =>
      destruct (save_database_keeps_memory d w2) as [E _]; rewrite E
  end.
  reflexivity.
Qed.

Lemma on_embed_outcome (message : Message) (embed : Embed) (w : World) :
  (store_ready (fs w) = true ->
   fst (on_embed message embed w) = Ok tt
   /\ store_ready (fs (snd (on_embed message embed w))) = true)
  /\ (store_ready (fs w) = false ->
      (fst (on_embed message embed w) = Ok tt
       \/ fst (on_embed message embed w) = Raised OSError)
      /\ fs (snd (on_embed message embed w)) = fs w).
Proof.
  assert (Hskip : (store_ready (fs w) = true ->
                   fst (@ret unit tt w) = Ok tt
                   /\ store_ready (fs (snd (@ret unit tt w))) = true)
                  /\ (store_ready (fs w) = false ->
                      (fst (@ret unit tt w) = Ok tt
                       \/ fst (@ret unit tt w) = Raised OSError)
                      /\ fs (snd (@ret unit tt w)) = fs w)).
  { cbn. split; intros H; [now split|]. split; [now left|reflexivity]. }
  rewrite on_embed_by_pairs.
  destruct (embed_pairs embed) as [[o cards]|]; [|exact Hskip].
  destruct (embed_fields embed) as [[[name d] u]|]; [|exact Hskip].
  apply index_embed_outcome.
Qed.

Lemma on_embed_database (message : Message) (embed : Embed) (w : World) :
  card_database (snd (on_embed message embed w))
  = match embed_pairs embed with
    | Some (o, cards) => fst (index_cards o cards (card_database w) [])
    | None => card_database w
    end.
Proof.
  rewrite on_embed_by_pairs. unfold embed_pairs.
  destruct (embed_fields embed) as [[[name d] u]|]; [|reflexivity].
  destruct (is_listing name); [|reflexivity].
  destruct (owner_id_match u); [|reflexivity].
  apply index_embed_database.
Qed.

Lemma on_embed_settles (message : Message) (embed : Embed) (w : World) :
  settled embed (card_database (snd (on_embed message embed w))).
Proof.
  rewrite on_embed_database. unfold settled.
  destruct (embed_pairs embed) as [[o cards]|]; [|exact I].
  apply covered_after.
Qed.

Lemma on_embed_keeps_settled (message : Message) (e embed : Embed) (w : World) :
  settled e (card_database w) ->
  settled e (card_database (snd (on_embed message embed w))).
Proof.
  intros H. rewrite on_embed_database. unfold settled in *.
  destruct (embed_pairs e) as [[o cards]|]; [|exact I].
  destruct (embed_pairs embed) as [[o' cards']|]; [|exact H].
  now apply covered_kept.
Qed.

Lemma on_embed_settled_noop (message : Message) (embed : Embed) (w : World) :
  settled embed (card_database w) ->
  on_embed message embed w = (Ok tt, w).
Proof.
  intros H. rewrite on_embed_by_pairs. unfold settled in H.
  destruct (embed_pairs embed) as [[o cards]|]; [|reflexivity].
  destruct (embed_fields embed) as [[[name d] u]|]; [|reflexivity].
  rewrite index_embed_run. cbv zeta. rewrite (covered_noop o cards _ H).
  cbn [fst snd]. now rewrite with_card_database_same.
Qed.

Lemma for_each_outcome (message : Message) (embeds : list Embed) :
  forall w,
    (store_ready (fs w) = true ->
     fst (for_each (on_embed message) embeds w) = Ok tt
     /\ store_ready (fs (snd (for_each (on_embed message) embeds w))) = true)
    /\ (store_ready (fs w) = false ->
        (fst (for_each (on_embed message) embeds w) = Ok tt
         \/ fst (for_each (on_embed message) embeds w) = Raised OSError)
        /\ fs (snd (for_each (on_embed message) embeds w)) = fs w).
Proof.
  induction embeds as [|e embeds IH]; intros w.
  - cbn. split; intros H; [now split|]. split; [now left|reflexivity].
  - cbn [for_each]. unfold bind.
    destruct (on_embed_outcome message e w) as [Ht Hf].
    destruct (on_embed message e w) as [[[]|ex] w1]; cbn [fst snd] in *.
    + destruct (IH w1) as [Ht1 Hf1]. split; intros H.
      * destruct (Ht H) as [_ Hr]. now apply Ht1.
      * destruct (Hf H) as [_ E]. rewrite E in Hf1.
        destruct (Hf1 H) as [Ho E1]. split; [exact Ho|].
        now rewrite E1.
    + split; intros H.
      * destruct (Ht H) as [Hbad _]. discriminate.
      * destruct (Hf H) as [[Hbad|Ho] E]; [discriminate|].
        split; [now right|exact E].
Qed.

Lemma for_each_settles (message : Message) (embeds : list Embed) :
  forall w e,
    fst (for_each (on_embed message) embeds w) = Ok tt ->
    In e embeds \/ settled e (card_database w) ->
    settled e (card_database (snd (for_each (on_embed message) embeds w))).
Proof.
  induction embeds as [|x embeds IH]; intros w e Hok H.
  - destruct H as [[]|H]. exact H.
  - cbn [for_each] in *. unfold bind in *.
    pose proof (on_embed_settles message x w) as Hx.
    pose proof (on_embed_keeps_settled message e x w) as Hkeep.
    destruct (on_embed message x w) as [[[]|ex] w1]; [|discriminate].
    cbn [snd] in *. apply IH; [exact Hok|].
    destruct H as [[<-|H]|H]; [now right|now left|right; now apply Hkeep].
Qed.

Lemma for_each_settled_noop (message : Message) (embeds : list Embed) (w : World) :
  (forall e, In e embeds -> settled e (card_database w)) ->
  for_each (on_embed message) embeds w = (Ok tt, w).
Proof.
  induction embeds as [|x embeds IH]; intros H; [reflexivity|].
  cbn [for_each]. unfold bind.
  rewrite (on_embed_settled_noop message x w) by (apply H; now left).
  apply IH. intros e He. apply H. now right.
Qed.

End WithUnicode.

End ReplayFacts.

(* ================================================================== *)
(** * The message handler *)
(* ================================================================== *)

(** X1.  The owner list of every card after the mutator's loop: a
    non-blank card of the embed that did not list the owner gets the
    owner appended at the end of its list (a new card starts from the
    empty list); every other list, of a card outside the embed, of the
    blank name, or of a card that listed the owner already, is as it
    was.  No owner and no card is ever removed. *)
Theorem owners_after_indexing (o : pystr) (cards : list pystr) (db : database)
  (k : pystr) :
  let db' := fst (index_cards o cards db []) in
  (In k cards /\ is_card_name k /\ ~ In o (owners_of db k) ->
   owners_of db' k = owners_of db k ++ [o])
  /\ (~ In k cards \/ k = [] \/ In o (owners_of db k) ->
      owners_of db' k = owners_of db k)
  /\ (forall x, In x (owners_of db k) -> In x (owners_of db' k)).
Proof.
  cbv zeta. rewrite IndexFacts.index_cards_owners. repeat split.
  - intros (Hin & Hn & Ho). apply IndexFacts.in_cards in Hin.
    apply DbFacts.mem_false in Ho. unfold is_card_name in Hn.
    now rewrite Hin, Hn, Ho.
  - intros [H|[->|H]].
    + destruct (existsb (Str.eqb k) cards) eqn:E; [|reflexivity].
      apply IndexFacts.in_cards in E. contradiction.
    + cbn [Str.truthy]. now rewrite andb_false_r.
    + apply DbFacts.mem_In in H. rewrite H. cbn [negb].
      now rewrite andb_false_r.
  - intros x Hx. destruct (_ && _ && _); [apply in_or_app; now left|exact Hx].
Qed.

(** X2.  The cards the loop records as updated are, each once, exactly
    the non-blank cards of the embed that did not list the owner before;
    there are no more of them than lines in the embed. *)
Theorem updated_cards_exact (o : pystr) (cards : list pystr) (db : database) :
  let updated := snd (index_cards o cards db []) in
  NoDup updated
  /\ (forall n, In n updated
                <-> In n cards /\ is_card_name n /\ ~ In o (owners_of db n))
  /\ length updated <= length cards.
Proof.
  cbv zeta.
  destruct (IndexFacts.index_cards_news o cards db []) as (news & E & Hnd & Hin).
  cbn [app] in E. rewrite E. split; [exact Hnd|]. split; [exact Hin|].
  apply NoDup_incl_length; [exact Hnd|]. intros n Hn. now apply Hin.
Qed.

(** X3.  The keys of the mapping after the loop are the old keys in
    their order followed by the new cards, each a non-blank card of the
    embed; keys that were distinct stay distinct. *)
Theorem card_keys_grow_in_order (o : pystr) (cards : list pystr)
  (db : database) :
  let db' := fst (index_cards o cards db []) in
  (exists added,
      map fst db' = map fst db ++ added
      /\ forall k, In k added -> In k cards /\ is_card_name k)
  /\ (NoDup (map fst db) -> NoDup (map fst db')).
Proof.
  cbv zeta.
  destruct (IndexFacts.index_cards_keys o cards db []) as (added & E & Hin & Hnd).
  split; [|exact Hnd]. exists added. now split.
Qed.

Section MessageExtras.
Context {U : UnicodeData}.

Lemma index_embed_frame (message : Message) (o name : pystr)
  (cards : list pystr) (w : World) :
  clock (snd (index_embed message o name cards w)) = clock w
  /\ BOT_STATUS (snd (index_embed message o name cards w)) = BOT_STATUS w.
Proof.
  rewrite index_embed_run. cbv zeta.
  destruct (snd (index_cards o cards (card_database w) []));
    [split; reflexivity|].
  match goal with
  | |- clock (snd (save_database ?d ?w2)) = _ /\ _ =>
      destruct (save_database_frame d w2) as (E1 & E2 & _); rewrite E1, E2
  end.
  split; reflexivity.
Qed.

Lemma on_embed_frame (message : Message) (embed : Embed) (w : World) :
  clock (snd (on_embed message embed w)) = clock w
  /\ BOT_STATUS (snd (on_embed message embed w)) = BOT_STATUS w.
Proof.
  rewrite ReplayFacts.on_embed_by_pairs.
  destruct (embed_pairs embed) as [[o cards]|]; [|split; reflexivity].
  destruct (embed_fields embed) as [[[name d] u]|]; [|split; reflexivity].
  apply index_embed_frame.
Qed.

Lemma for_each_frame (message : Message) (embeds : list Embed) :
  forall w,
    clock (snd (for_each (on_embed message) embeds w)) = clock w
    /\ BOT_STATUS (snd (for_each (on_embed message) embeds w)) = BOT_STATUS w.
Proof.
  induction embeds as [|e embeds IH]; intros w; [split; reflexivity|].
  cbn [for_each]. unfold bind.
  destruct (on_embed_frame message e w) as [H1 H2].
  destruct (on_embed message e w) as [[[]|ex] w1]; cbn [snd] in *.
  - destruct (IH w1) as [H3 H4]. split; congruence.
  - now split.
Qed.

(** X4.  The only exception [on_message] lets out is the [OSError] of
    [os.makedirs], when the data directory is missing and cannot be
    made; in every other state of the store it returns normally (a
    write that fails is caught and logged).  It never changes the
    connection status. *)
Theorem on_message_raises_only_without_directory (message : Message)
  (w : World) :
  (fst (on_message message w) = Ok tt
   \/ (fst (on_message message w) = Raised OSError
       /\ dir_present (fs w) = false
       /\ makedirs_ok (fs w) = false))
  /\ BOT_STATUS (snd (on_message message w)) = BOT_STATUS w.
Proof.
  unfold on_message.
  destruct (msg_guild message); [|split; [now left|reflexivity]].
  match goal with |- context [if ?c then _ else _] => destruct c end;
    [split; [now left|reflexivity]|].
  split; [|apply for_each_frame].
  destruct (ReplayFacts.for_each_outcome message (msg_embeds message) w)
    as [Ht Hf].
  destruct (store_ready (fs w)) eqn:Hr.
  - left. now apply Ht.
  - destruct (Hf eq_refl) as [[Hok|Hraised] _]; [now left|right].
    split; [exact Hraised|]. now apply store_ready_cases.
Qed.

(** X5.  Processing a message that was processed to its end a second
    time changes nothing: no owner is added, no log line is written and
    the file is not opened, even if a write failed the first time. *)
Theorem replaying_a_message_changes_nothing (message : Message) (w : World) :
  fst (on_message message w) = Ok tt ->
  on_message message (snd (on_message message w))
  = (Ok tt, snd (on_message message w)).
Proof.
  unfold on_message.
  destruct (msg_guild message) as [g|]; [|reflexivity].
  match goal with
  | |- context [if ?c then _ else _] => destruct c
  end; [reflexivity|].
  intros Hok. apply ReplayFacts.for_each_settled_noop.
  intros e He. apply ReplayFacts.for_each_settles; [exact Hok|now left].
Qed.

End MessageExtras.

(* ================================================================== *)
(** * Failures of the store, and what a search touches *)
(* ================================================================== *)

(** X6.  A write the store does not accept, the data directory being
    there or made: [save_database] returns normally, having opened the
    file for writing once and logged one error.  The file is as it was
    when the store refused to open it; when the write failed after the
    file was opened, the file holds only the bytes that reached it.
    The in-memory database and the log list are as they were. *)
Theorem failed_save_is_swallowed (db : database) (w : World) :
  dir_present (fs w) = true \/ makedirs_ok (fs w) = true ->
  write_ok (fs w) = false ->
  let w' := snd (save_database db w) in
  fst (save_database db w) = Ok tt
  /\ logging_records w' = logging_records w ++ [(ERROR, save_error_message)]
  /\ writes w' = S (writes w)
  /\ file_bytes (fs w')
     = match write_fault (fs w) with
       | FailsAfter kept =>
           Some (firstn kept (map Utf8.byte_of (Json.dumps db)))
       | RefusesAll | RefusesFile =>
           if dir_present (fs w) then file_bytes (fs w) else None
       end
  /\ card_database w' = card_database w
  /\ LOG_MESSAGES w' = LOG_MESSAGES w.
Proof.
  intros Hdir Hw. cbv zeta.
  destruct (save_database_refused db w Hdir Hw) as (H1 & H2 & H3 & H4).
  destruct (save_database_keeps_memory db w) as [H5 H6].
  repeat (split; [assumption|]). exact H6.
Qed.

(** X7.  When the database file does not exist, [load_database] returns
    the empty mapping without trying to open the file and without
    logging anything, provided the data directory is there or can be
    made (it makes it if it is missing); the file is still absent
    afterwards.  When the directory is missing and cannot be made, the
    [OSError] of [os.makedirs] leaves [load_database]. *)
Theorem load_without_file (w : World) :
  file_present (fs w) = false ->
  let w' := snd (load_database w) in
  (dir_present (fs w) = true \/ makedirs_ok (fs w) = true ->
   fst (load_database w) = Ok (Json.JObj [])
   /\ io_trace w'
      = io_trace w
        ++ (if dir_present (fs w)
            then [Exists DATA_DIR; Exists DATABASE_FILE]
            else [Exists DATA_DIR; Makedirs DATA_DIR; Exists DATABASE_FILE])
   /\ logging_records w' = logging_records w
   /\ dir_present (fs w') = true
   /\ file_present (fs w') = false)
  /\ (dir_present (fs w) = false ->
      makedirs_ok (fs w) = false ->
      load_database w
      = (Raised OSError, traced [Exists DATA_DIR; Makedirs DATA_DIR] w)).
Proof.
  intros H. cbv zeta. split; [|apply load_database_no_directory].
  destruct w as [[d fb r wo wf] tr lr ck lm st cdb [sd md]].
  unfold file_present, makedirs_ok in *. cbn in H |- *. intros Hdir.
  destruct d; cbn in H.
  - unfold_io. rewrite H. unfold_io. rewrite <- !app_assoc.
    repeat split; try reflexivity. cbn. exact H.
  - destruct Hdir as [Hdir|Hdir]; [discriminate|].
    destruct wo, wf; cbn in Hdir; try discriminate;
      unfold_io; rewrite <- !app_assoc; repeat split; reflexivity.
Qed.


Section SearchExtras.
Context {U : UnicodeData}.



End SearchExtras.

(* ================================================================== *)
(** * From a saved database to a restart and to an answer *)
(* ================================================================== *)

Lemma db_get_In (db : database) (k : pystr) (l : list pystr) :
  db_get db k = Some l -> In (k, l) db.
Proof.
  induction db as [|[k' v] db IH]; cbn [db_get In]; [discriminate|].
  destruct (Str.eqb k' k) eqn:E.
  - apply StrFacts.eqb_eq in E. intros [= ->]. left. now subst.
  - intros H. right. now apply IH.
Qed.

(** What a load returns right after a save that the store accepted. *)
Lemma load_after_save (db : database) (w : World) :
  db_json_safe db ->
  write_ok (fs w) = true ->
  read_ok (fs w) = true ->
  exists w2,
    load_database (snd (save_database db w)) = (Ok (Json.of_database db), w2)
    /\ card_database w2 = card_database w.
Proof.
  intros Hsafe Hw Hr.
  destruct (dumps_on_disk db) as (He & Hd & Hn).
  destruct (save_database_stores db w _ Hw He) as [_ Hfs].
  destruct (save_database_keeps_memory db w) as [Hdb _].
  set (w1 := snd (save_database db w)) in *.
  rewrite (load_database_dumped db w1 Hsafe)
    by (rewrite Hfs; cbn; first [reflexivity|assumption]).
  eexists. split; [reflexivity|]. exact Hdb.
Qed.

(** X10.  Restart: after a save that the store accepted, building the
    bot again ([IndexerBot.__init__]) loads exactly the database that
    was saved into its memory. *)
Theorem restart_restores_database (db : database) (w : World) :
  db_json_safe db ->
  write_ok (fs w) = true ->
  read_ok (fs w) = true ->
  fst (bind (save_database db) (fun _ => bot_init) w) = Ok tt
  /\ card_database (snd (bind (save_database db) (fun _ => bot_init) w)) = db.
Proof.
  intros Hsafe Hw Hr.
  destruct (load_after_save db w Hsafe Hw Hr) as (w2 & Hload & _).
  destruct (dumps_on_disk db) as (He & _ & _).
  destruct (save_database_stores db w _ Hw He) as [Hok _].
  unfold bind at 1 2.
  destruct (save_database db w) as [[[]|e] w1]; cbn [fst snd] in *;
    [|discriminate].
  unfold bot_init, bind. rewrite Hload.
  rewrite JsonFacts.as_database_of_database. split; reflexivity.
Qed.

(** X11.  The file a successful save leaves behind is pure ASCII (every
    byte below 128, whatever characters the card names hold) and is the
    UTF-8 form of the indented JSON text of the database. *)
Theorem saved_file_is_ascii (db : database) (w : World) :
  write_ok (fs w) = true ->
  exists bs,
    file_bytes (fs (snd (save_database db w))) = Some bs
    /\ Forall (fun b => (Byte.to_N b < 128)%N) bs
    /\ Utf8.decode bs = Some (Json.dumps db).
Proof.
  intros Hw. destruct (dumps_on_disk db) as (He & Hd & _).
  destruct (save_database_stores db w _ Hw He) as [_ Hfs].
  exists (map Utf8.byte_of (Json.dumps db)).
  split; [now rewrite Hfs|]. split; [|exact Hd].
  apply Forall_map. pose proof (TextFacts.dumps_plain db) as Hp.
  unfold all_plain in Hp. rewrite Forall_forall in *. intros c Hc.
  destruct (TextFacts.plain_bounds c (Hp c Hc)) as [Hlt _].
  rewrite TextFacts.to_N_byte_of; lia.
Qed.

Section EndToEnd.
Context {U : UnicodeData}.

(** X12.  From a message to an answer: when a qualifying embed gives
    some card a new owner and the store accepts the write, a later
    search whose normalised query occurs in the lower-cased name of any
    non-blank card of that embed returns the embed's owner id. *)
Theorem indexed_owner_is_found (message : Message) (embed : Embed)
  (name description icon_url owner_id n q : pystr) (w : World) :
  embed_fields embed = Some (name, description, icon_url) ->
  is_listing name = true ->
  owner_id_match icon_url = Some owner_id ->
  write_ok (fs w) = true ->
  read_ok (fs w) = true ->
  snd (index_cards owner_id (cards_in_embed description)
         (card_database w) []) <> [] ->
  db_json_safe (fst (index_cards owner_id (cards_in_embed description)
                       (card_database w) [])) ->
  In n (cards_in_embed description) ->
  is_card_name n ->
  Str.truthy (Str.strip (Str.lower q)) = true ->
  Str.contains (Str.strip (Str.lower q)) (Str.lower n) = true ->
  exists owners,
    fst (api_search (Some q) (snd (on_embed message embed w))) = Ok owners
    /\ In owner_id owners.
Proof.
  intros Hf Hl Ho Hw Hr Hupd Hsafe Hn Hcn Hq Hc.
  rewrite (on_embed_qualifying message embed name description icon_url
             owner_id w Hf Hl Ho), index_embed_run.
  cbv zeta.
  set (cards := cards_in_embed description) in *.
  set (db' := fst (index_cards owner_id cards (card_database w) [])) in *.
  destruct (snd (index_cards owner_id cards (card_database w) []))
    as [|p l] eqn:E; [contradiction|].
  set (w2 := with_LOG_MESSAGES _ _).
  destruct (load_after_save db' w2 Hsafe Hw Hr) as (w3 & Hload & _).
  unfold api_search. rewrite Hq. cbn [negb]. unfold bind.
  rewrite Hload, JsonFacts.as_database_of_database.
  exists (sorted (found_ids (Str.strip (Str.lower q)) db')).
  split; [reflexivity|].
  apply (proj2 (OrderFacts.sorted_found_ids _ db')).
  pose proof (ReplayFacts.covered_after owner_id cards (card_database w) []
                n Hn Hcn) as Hin.
  fold db' in Hin. unfold owners_of in Hin.
  destruct (db_get db' n) as [owners|] eqn:Hg; [|destruct Hin].
  exists n, owners. split; [now apply db_get_In|]. now split.
Qed.

End EndToEnd.

(* ================================================================== *)
(** * What the two patterns and the split extract *)
(* ================================================================== *)

Module ExtractFacts.

Lemma split_from_head (sep : pystr) (s : pystr) :
  forall cur,
    hd [] (Str.split_from sep 0 cur s)
    = match Str.find sep s with
      | Some i => rev cur ++ firstn i s
      | None => rev cur ++ s
      end.
Proof.
  induction s as [|c s IH]; intros cur.
  - cbn [Str.split_from Str.find hd]. rewrite app_nil_r.
    destruct (Str.starts_with sep []); cbn [firstn]; now rewrite ?app_nil_r.
  - cbn [Str.split_from Str.find].
    destruct (Str.starts_with sep (c :: s)).
    + cbn [hd firstn]. now rewrite app_nil_r.
    + rewrite IH. cbn [rev].
      destruct (Str.find sep s) as [i|]; cbn [option_map firstn];
        now rewrite <- app_assoc.
Qed.

Lemma starts_with_split (p : pystr) :
  forall s, Str.starts_with p s = true -> s = p ++ skipn (length p) s.
Proof.
  induction p as [|c p IH]; intros s H; [reflexivity|].
  destruct s as [|x s]; [discriminate|].
  cbn [Str.starts_with] in H. apply andb_true_iff in H as [H1 H2].
  apply N.eqb_eq in H1. subst x. cbn [length skipn app]. f_equal. now apply IH.
Qed.

Lemma contains_app (needle pre post : pystr) :
  Str.contains needle (pre ++ needle ++ post) = true.
Proof.
  induction pre as [|c pre IH].
  - cbn [app]. destruct (needle ++ post) eqn:E;
      cbn [Str.contains]; rewrite <- E, ReFacts.starts_with_app; reflexivity.
  - cbn [app Str.contains]. rewrite IH. apply orb_true_r.
Qed.

Lemma contains_false_suffix (needle pre s : pystr) :
  Str.contains needle (pre ++ s) = false -> Str.starts_with needle s = false.
Proof.
  induction pre as [|c pre IH]; cbn [app].
  - destruct s; cbn [Str.contains]; intros H;
      apply orb_false_iff in H; tauto.
  - cbn [Str.contains]. intros H. apply orb_false_iff in H as [_ H]. auto.
Qed.

(** A match found by [re.search] is a match at some position. *)
Lemma search_inv (re : Re.pattern) (s : pystr) (r : list pystr * pystr) :
  Re.search re s = Some r ->
  exists pre s', s = pre ++ s' /\ Re.match_here re s' = Some r.
Proof.
  induction s as [|c s IH]; rewrite ReFacts.search_unfold.
  - destruct (Re.match_here re []) eqn:E; [|discriminate].
    intros [= <-]. now exists [], [].
  - destruct (Re.match_here re (c :: s)) eqn:E.
    + intros [= <-]. now exists [], (c :: s).
    + intros H. destruct (IH H) as (pre & s' & -> & Hm).
      now exists (c :: pre), s'.
Qed.

Lemma search_none (re : Re.pattern) (s : pystr) :
  (forall pre s', s = pre ++ s' -> Re.match_here re s' = None) ->
  Re.search re s = None.
Proof.
  induction s as [|c s IH]; intros H; rewrite ReFacts.search_unfold.
  - now rewrite (H [] [] eq_refl).
  - rewrite (H [] (c :: s) eq_refl). apply IH.
    intros pre s' ->. now apply (H (c :: pre) s').
Qed.

(** What a greedy repetition returns when it matches. *)
Lemma backtrack_inv (k : pystr -> Re.result) (s : pystr) (min : nat) :
  forall n segs rest,
    Re.backtrack k s min n = Some (segs, rest) ->
    exists m segs',
      min <= m <= n
      /\ k (skipn m s) = Some (segs', rest)
      /\ segs = firstn m s :: segs'.
Proof.
  induction n as [|n IH]; intros segs rest H; cbn [Re.backtrack] in H.
  - destruct (Nat.ltb_spec 0 min); [discriminate|].
    destruct (k (skipn 0 s)) as [[segs' rest']|] eqn:E; [|discriminate].
    injection H as <- <-. exists 0, segs'. repeat split; [lia|lia|exact E].
  - destruct (Nat.ltb_spec (S n) min); [discriminate|].
    destruct (k (skipn (S n) s)) as [[segs' rest']|] eqn:E.
    + injection H as <- <-. exists (S n), segs'.
      repeat split; [lia|lia|exact E].
    + destruct (IH _ _ H) as (m & segs' & Hm & Hk & Hs).
      exists m, segs'. repeat split; [lia|lia|exact Hk|exact Hs].
Qed.

Lemma backtrack_first (k : pystr -> Re.result) (s : pystr) (min n : nat)
  (segs : list pystr) (rest : pystr) :
  min <= n ->
  k (skipn n s) = Some (segs, rest) ->
  Re.backtrack k s min n = Some (firstn n s :: segs, rest).
Proof.
  intros Hn Hk. destruct n as [|n]; cbn [Re.backtrack].
  - destruct (Nat.ltb_spec 0 min); [lia|]. now rewrite Hk.
  - destruct (Nat.ltb_spec (S n) min); [lia|]. now rewrite Hk.
Qed.

Lemma span_firstn (cls : codepoint -> bool) (s : pystr) :
  forall m, m <= Re.span_len cls s ->
            forallb cls (firstn m s) = true /\ length (firstn m s) = m.
Proof.
  induction s as [|c s IH]; intros m Hm; cbn [Re.span_len] in Hm.
  - assert (m = 0) by lia. subst. now split.
  - destruct m as [|m]; [now split|].
    destruct (cls c) eqn:E; [|lia].
    destruct (IH m ltac:(lia)) as [H1 H2].
    rewrite firstn_cons. cbn [forallb length]. rewrite E, H1, H2. now split.
Qed.

End ExtractFacts.

Section ExtractExtras.
Context {U : UnicodeData}.

(** X13.  The owner label is the text of the author name before its
    first ["'s"], and the whole author name when it has none. *)
Theorem owner_label_before_first_possessive (name : pystr) :
  owner_name_of name
  = match Str.find (Str.str "'s") name with
    | Some i => firstn i name
    | None => name
    end.
Proof.
  unfold owner_name_of, Str.split. rewrite ExtractFacts.split_from_head.
  now destruct (Str.find (Str.str "'s") name).
Qed.

(** What a match of the avatar pattern at the head of [s] looks like. *)
Lemma avatar_match_inv (s : pystr) (segs : list pystr) (rest : pystr) :
  Re.match_here avatar_re s = Some (segs, rest) ->
  let d := nth 9 segs [] in
  d <> [] /\ forallb Str.is_decimal d = true
  /\ s = Str.str "/avatars/" ++ d ++ Str.ch "/" :: rest.
Proof.
  unfold avatar_re. rewrite ReFacts.match_lits.
  destruct (Str.starts_with (Str.str "/avatars/") s) eqn:Hs; [|discriminate].
  apply ExtractFacts.starts_with_split in Hs.
  set (t := skipn (length (Str.str "/avatars/")) s) in *.
  destruct (Re.match_here _ t) as [[segs2 rest2]|] eqn:Hm; [|discriminate].
  intros [= <- <-]. cbn [Re.match_here] in Hm.
  apply ExtractFacts.backtrack_inv in Hm
    as (m & segs' & Hmn & Hk & ->).
  destruct (skipn m t) as [|x r] eqn:Hsk; [discriminate|].
  destruct (N.eqb_spec x (Str.ch "/")) as [->|]; [|discriminate].
  injection Hk as <- <-.
  destruct (ExtractFacts.span_firstn Str.is_decimal t m ltac:(lia)) as [Hd Hl].
  cbv zeta.
  repeat match goal with
         | |- context [nth 9 ?l []] =>
             progress change (nth 9 l []) with (firstn m t)
         end.
  repeat split.
  - intros E. rewrite E in Hl. cbn in Hl. lia.
  - exact Hd.
  - rewrite Hs at 1. f_equal. rewrite <- (firstn_skipn m t) at 1.
    now rewrite Hsk.
Qed.

Lemma owner_id_match_inv (icon_url d : pystr) :
  owner_id_match icon_url = Some d ->
  d <> [] /\ forallb Str.is_decimal d = true
  /\ Str.contains (Str.str "/avatars/" ++ d ++ [Str.ch "/"]) icon_url = true.
Proof.
  unfold owner_id_match.
  destruct (Re.search avatar_re icon_url) as [[segs rest]|] eqn:E;
    [|discriminate].
  intros [= <-].
  apply ExtractFacts.search_inv in E as (pre & s' & -> & Hm).
  apply avatar_match_inv in Hm. cbv zeta in Hm.
  destruct Hm as (Hne & Hd & ->). repeat split; [exact Hne|exact Hd|].
  set (d := nth 9 segs []).
  replace (Str.str "/avatars/" ++ d ++ Str.ch "/" :: rest)
    with ((Str.str "/avatars/" ++ d ++ [Str.ch "/"]) ++ rest)
    by (rewrite <- !app_assoc; reflexivity).
  apply ExtractFacts.contains_app.
Qed.

(** X14.  The owner id: an icon URL that does not contain ["/avatars/"]
    yields none (the embed is then passed over); an id that is found is
    a non-empty run of decimal digits that stands in the URL between
    ["/avatars/"] and a slash. *)
Theorem owner_id_is_a_digit_run (icon_url : pystr) :
  (Str.contains (Str.str "/avatars/") icon_url = false ->
   owner_id_match icon_url = None)
  /\ (forall d,
         owner_id_match icon_url = Some d ->
         d <> [] /\ forallb Str.is_decimal d = true
         /\ Str.contains (Str.str "/avatars/" ++ d ++ [Str.ch "/"]) icon_url
            = true).
Proof.
  split.
  - intros Hc. unfold owner_id_match.
    rewrite ExtractFacts.search_none; [reflexivity|].
    intros pre s' ->. apply ReFacts.avatar_no_match_here.
    now apply (ExtractFacts.contains_false_suffix _ pre).
  - apply owner_id_match_inv.
Qed.

End ExtractExtras.

(* ================================================================== *)
(** * Lines that clean to their name *)
(* ================================================================== *)

Module CleanFacts.

Lemma span_len_head_not (cls : codepoint -> bool) (run s : pystr) :
  forallb cls run = true -> head_not cls s ->
  Re.span_len cls (run ++ s) = length run.
Proof.
  intros Hr Hs. induction run as [|c run IH]; cbn [app Re.span_len length].
  - destruct s as [|x s]; [reflexivity|]. cbn in Hs. cbn [Re.span_len].
    now rewrite Hs.
  - cbn [forallb] in Hr. apply andb_true_iff in Hr as [Hc Hr].
    rewrite Hc. f_equal. now apply IH.
Qed.

(** A repetition takes a whole run when the rest of the pattern matches
    what follows it. *)
Lemma match_rep (cls : codepoint -> bool) (min : nat) (re : Re.pattern)
  (run s : pystr) (segs : list pystr) (rest : pystr) :
  forallb cls run = true -> head_not cls s -> min <= length run ->
  Re.match_here re s = Some (segs, rest) ->
  Re.match_here (Re.Rep cls min :: re) (run ++ s) = Some (run :: segs, rest).
Proof.
  intros Hr Hs Hmin Hm. cbn [Re.match_here].
  rewrite (span_len_head_not cls run s Hr Hs).
  rewrite (ExtractFacts.backtrack_first _ _ min (length run) segs rest Hmin).
  - now rewrite ReFacts.firstn_length_app.
  - now rewrite ReFacts.skipn_length_app.
Qed.

Lemma dropwhile_head_not (p : codepoint -> bool) (s : pystr) :
  head_not p s -> Str.dropwhile p s = s.
Proof.
  destruct s as [|c s]; [reflexivity|]. cbn. now intros ->.
Qed.

Lemma repeat_app (A : Type) (x : A) (a b : nat) :
  repeat x a ++ repeat x b = repeat x (a + b).
Proof. induction a as [|a IH]; [reflexivity|]. cbn. now rewrite IH. Qed.

Section WithUnicode.
Context {U : UnicodeData}.

Lemma strip_fixed (s : pystr) :
  (forall c, first_char s = Some c -> Str.is_space c = false) ->
  (forall c, last_char s = Some c -> Str.is_space c = false) ->
  Str.strip s = s.
Proof.
  intros Hf Hl. unfold Str.strip, Str.lstrip, Str.rstrip.
  rewrite (dropwhile_head_not Str.is_space s).
  - rewrite (dropwhile_head_not Str.is_space (rev s)).
    + apply rev_involutive.
    + unfold last_char in Hl. destruct (rev s) as [|x r]; [exact I|].
      cbn. now apply Hl.
  - unfold first_char in Hf. destruct s as [|x r]; [exact I|].
    cbn. now apply Hf.
Qed.

Lemma strip_idempotent (s : pystr) : Str.strip (Str.strip s) = Str.strip s.
Proof.
  apply strip_fixed; intros c; [apply StrFacts.strip_first|apply StrFacts.strip_last].
Qed.

Lemma spaces_are_space (k : nat) : forallb Str.is_space (repeat 32%N k) = true.
Proof. induction k as [|k IH]; [reflexivity|]. cbn [repeat forallb]. now rewrite IH. Qed.

Lemma is_tag_not_space (c : codepoint) :
  is_tag c = true -> Str.is_space c = false.
Proof.
  unfold is_tag, Str.is_space.
  destruct (N.leb_spec 65 c), (N.leb_spec c 90), (N.eqb_spec c 45);
    cbn [andb orb]; try discriminate; intros _;
    (destruct (N.ltb_spec c 128); [|lia]);
    destruct (N.leb_spec 9 c), (N.leb_spec c 13), (N.leb_spec 28 c),
      (N.leb_spec c 32); cbn [andb orb]; try reflexivity; lia.
Qed.

Lemma head_not_spaces (cls : codepoint -> bool) (k : nat) (s : pystr) :
  cls 32%N = false -> head_not cls s -> head_not cls (repeat 32%N k ++ s).
Proof. intros H Hs. destruct k; [exact Hs|exact H]. Qed.

End WithUnicode.

End CleanFacts.

Section CleanExtras.
Context {U : UnicodeData}.

Lemma match_lit (x : codepoint) (re : Re.pattern) (s : pystr)
  (segs : list pystr) (rest : pystr) :
  Re.match_here re s = Some (segs, rest) ->
  Re.match_here (Re.Lit x :: re) (x :: s) = Some ([x] :: segs, rest).
Proof. intros H. cbn [Re.match_here]. now rewrite N.eqb_refl, H. Qed.

(** The prefix pattern on a line with a tag, or with a name that does
    not start like a tag: it takes everything before the name. *)
Lemma card_prefix_match (ds tag rest : pystr) (c : codepoint)
  (k1 k2 k3 : nat) :
  ds <> [] ->
  forallb Str.is_decimal ds = true ->
  forallb is_tag tag = true ->
  Str.is_space c = false ->
  (tag <> [] /\ 1 <= k3) \/ is_tag c = false ->
  exists segs,
    Re.match_here card_prefix_re
      (ds ++ repeat 32%N k1 ++ [Str.ch "-"] ++ repeat 32%N k2 ++ tag
       ++ repeat 32%N k3 ++ c :: rest)
    = Some (segs, c :: rest).
Proof.
  intros Hne Hds Htag Hc Hsep.
  assert (Hlen : 1 <= length ds) by (destruct ds; [contradiction|cbn; lia]).
  assert (Hd : head_not Str.is_decimal
            (repeat 32%N k1 ++ [Str.ch "-"] ++ repeat 32%N k2 ++ tag
             ++ repeat 32%N k3 ++ c :: rest)).
  { apply CleanFacts.head_not_spaces; reflexivity. }
  unfold card_prefix_re.
  destruct tag as [|t0 tag'].
  - destruct Hsep as [[Hx _]|Hnt]; [contradiction|].
    eexists.
    apply CleanFacts.match_rep; [exact Hds|exact Hd|exact Hlen|].
    apply CleanFacts.match_rep;
      [apply CleanFacts.spaces_are_space|reflexivity|lia|].
    apply match_lit.
    cbn [app]. rewrite app_assoc, CleanFacts.repeat_app.
    apply CleanFacts.match_rep;
      [apply CleanFacts.spaces_are_space|exact Hc|lia|].
    apply (CleanFacts.match_rep is_tag 0 _ [] (c :: rest));
      [reflexivity|exact Hnt|cbn; lia|].
    apply (CleanFacts.match_rep Str.is_space 0 _ [] (c :: rest));
      [reflexivity|exact Hc|cbn; lia|].
    reflexivity.
  - assert (Ht0 : Str.is_space t0 = false).
    { cbn [forallb] in Htag. apply andb_true_iff in Htag as [H0 _].
      now apply CleanFacts.is_tag_not_space. }
    eexists.
    apply CleanFacts.match_rep; [exact Hds|exact Hd|exact Hlen|].
    apply CleanFacts.match_rep;
      [apply CleanFacts.spaces_are_space|reflexivity|lia|].
    apply match_lit.
    apply CleanFacts.match_rep;
      [apply CleanFacts.spaces_are_space|exact Ht0|lia|].
    apply CleanFacts.match_rep; [exact Htag| |lia|].
    { destruct Hsep as [[_ Hk]|Hnt].
      - destruct k3; [lia|reflexivity].
      - apply CleanFacts.head_not_spaces; [reflexivity|exact Hnt]. }
    apply CleanFacts.match_rep;
      [apply CleanFacts.spaces_are_space|exact Hc|lia|].
    reflexivity.
Qed.

(** X15.  A line of the form digits, spaces, a dash, spaces, a tag of
    capital letters and dashes, spaces, and a name cleans to the name:
    provided the name starts and ends with a non-whitespace character
    and either the tag is there and a space follows it, or the name does
    not start with a capital letter or a dash. *)
Theorem clean_tagged_line (ds tag rest : pystr) (c : codepoint)
  (k1 k2 k3 : nat) :
  ds <> [] ->
  forallb Str.is_decimal ds = true ->
  forallb is_tag tag = true ->
  Str.is_space c = false ->
  (tag <> [] /\ 1 <= k3) \/ is_tag c = false ->
  (forall x, last_char (c :: rest) = Some x -> Str.is_space x = false) ->
  clean_card_name
    (ds ++ repeat 32%N k1 ++ [Str.ch "-"] ++ repeat 32%N k2 ++ tag
     ++ repeat 32%N k3 ++ c :: rest)
  = c :: rest.
Proof.
  intros Hne Hds Htag Hc Hsep Hlast.
  destruct (card_prefix_match ds tag rest c k1 k2 k3 Hne Hds Htag Hc Hsep)
    as [segs Hm].
  unfold clean_card_name, Re.sub_prefix. rewrite Hm.
  apply CleanFacts.strip_fixed; [|exact Hlast].
  intros x [= <-]. exact Hc.
Qed.

End CleanExtras.

(* ================================================================== *)
(** * What the handler keeps *)
(* ================================================================== *)

Module TidyFacts.

Section WithUnicode.
Context {U : UnicodeData}.

Lemma tidy_set (db : database) (k : pystr) (v : list pystr) :
  tidy db -> clean_name k -> Forall digit_run v -> tidy (db_set db k v).
Proof.
  unfold tidy. intros Ht Hk Hv.
  induction db as [|[k' v'] db IH]; cbn [db_set].
  - constructor; [split; assumption|constructor].
  - inversion Ht as [|e l [Hk' Hv'] Ht']; subst. cbn [fst snd] in *.
    destruct (Str.eqb k' k).
    + constructor; [split; assumption|assumption].
    + constructor; [split; assumption|now apply IH].
Qed.

Lemma tidy_owners (db : database) (k : pystr) :
  tidy db -> Forall digit_run (owners_of db k).
Proof.
  unfold tidy, owners_of. intros Ht.
  induction db as [|[k' v'] db IH]; cbn [db_get]; [constructor|].
  inversion Ht as [|e l [Hk' Hv'] Ht']; subst. cbn [fst snd] in *.
  destruct (Str.eqb k' k); [exact Hv'|now apply IH].
Qed.

Lemma index_cards_tidy (o : pystr) (cards : list pystr) :
  digit_run o ->
  Forall (fun n => n = [] \/ clean_name n) cards ->
  forall db upd, tidy db -> tidy (fst (index_cards o cards db upd)).
Proof.
  intros Ho. induction cards as [|n cards IH]; intros Hcards db upd Ht;
    [exact Ht|].
  inversion Hcards as [|x l [->|Hn] Hrest]; subst.
  - rewrite DbFacts.index_cards_blank. now apply IH.
  - rewrite (DbFacts.index_cards_cons o n cards db upd (proj1 Hn)).
    destruct (mem o (owners_of db n)); apply IH; [exact Hrest|exact Ht|exact Hrest|].
    apply tidy_set; [exact Ht|exact Hn|].
    apply Forall_app. split; [now apply tidy_owners|].
    constructor; [exact Ho|constructor].
Qed.

Lemma cards_in_embed_clean (description : pystr) :
  Forall (fun n => n = [] \/ clean_name n) (cards_in_embed description).
Proof.
  unfold cards_in_embed. apply Forall_forall. intros n Hn.
  apply in_map_iff in Hn as (line & <- & _).
  destruct (DbFacts.blank_or_card_name (clean_card_name line)) as [E|Hc];
    [now left|right].
  split; [exact Hc|]. unfold clean_card_name.
  split; intros c; [apply StrFacts.strip_first|apply StrFacts.strip_last].
Qed.

Lemma embed_pairs_clean (embed : Embed) (o : pystr) (cards : list pystr) :
  embed_pairs embed = Some (o, cards) ->
  digit_run o /\ Forall (fun n => n = [] \/ clean_name n) cards.
Proof.
  unfold embed_pairs.
  destruct (embed_fields embed) as [[[name d] u]|]; [|discriminate].
  destruct (is_listing name); [|discriminate].
  destruct (owner_id_match u) as [x|] eqn:E; [|discriminate].
  intros [= <- <-]. split; [|apply cards_in_embed_clean].
  destruct (owner_id_match_inv u x E) as (H1 & H2 & _). now split.
Qed.

(** A property of the in-memory database that every pass of the
    mutator keeps is kept by [on_message]. *)
Lemma on_message_database (P : database -> Prop) (message : Message) :
  (forall embed o cards db,
      embed_pairs embed = Some (o, cards) ->
      P db -> P (fst (index_cards o cards db []))) ->
  forall w,
    P (card_database w) -> P (card_database (snd (on_message message w))).
Proof.
  intros Hstep w Hw. unfold on_message.
  destruct (msg_guild message); [|exact Hw].
  match goal with |- context [if ?c then _ else _] => destruct c end;
    [exact Hw|].
  generalize dependent w.
  induction (msg_embeds message) as [|e embeds IH]; intros w Hw; [exact Hw|].
  cbn [for_each]. unfold bind.
  pose proof (ReplayFacts.on_embed_database message e w) as Hdb.
  assert (H1 : P (card_database (snd (on_embed message e w)))).
  { rewrite Hdb.
    destruct (embed_pairs e) as [[o cards]|] eqn:E; [|exact Hw].
    now apply (Hstep e). }
  destruct (on_embed message e w) as [[[]|ex] w1]; cbn [snd] in *.
  - now apply IH.
  - exact H1.
Qed.

End WithUnicode.

End TidyFacts.

Section InvariantExtras.
Context {U : UnicodeData}.

(** X16.  The shape of the database: when every key of the in-memory
    database is a non-blank name without whitespace at either end and
    every owner a non-empty run of decimal digits, the same holds after
    [on_message], whatever the message. *)
Theorem on_message_keeps_database_tidy (message : Message) (w : World) :
  tidy (card_database w) ->
  tidy (card_database (snd (on_message message w))).
Proof.
  apply (TidyFacts.on_message_database tidy).
  intros embed o cards db E Ht.
  destruct (TidyFacts.embed_pairs_clean embed o cards E) as [Ho Hc].
  now apply TidyFacts.index_cards_tidy.
Qed.

(** X17.  [on_message] only adds: every card of the in-memory database
    is still a key afterwards, in the same position, and every owner
    listed under a card is still listed under it. *)
Theorem on_message_only_adds (message : Message) (w : World) (k : pystr) :
  let db := card_database w in
  let db' := card_database (snd (on_message message w)) in
  incl (owners_of db k) (owners_of db' k)
  /\ exists added, map fst db' = map fst db ++ added.
Proof.
  cbv zeta.
  apply (TidyFacts.on_message_database
           (fun d => incl (owners_of (card_database w) k) (owners_of d k)
                     /\ exists added,
                          map fst d = map fst (card_database w) ++ added)).
  - intros embed o cards db _ [Hi (added & E)]. split.
    + intros x Hx. apply ReplayFacts.owners_kept. now apply Hi.
    + destruct (IndexFacts.index_cards_keys o cards db [])
        as (more & E2 & _ & _).
      exists (added ++ more). now rewrite E2, E, app_assoc.
  - split; [apply incl_refl|]. exists []. now rewrite app_nil_r.
Qed.

End InvariantExtras.

Section LogExtras.
Context {U : UnicodeData}.

Lemma index_embed_log (message : Message) (o name : pystr)
  (cards : list pystr) (w : World) :
  exists news,
    length news <= 1
    /\ (news = [] -> LOG_MESSAGES (snd (index_embed message o name cards w))
                     = LOG_MESSAGES w)
    /\ (news <> [] -> LOG_MESSAGES (snd (index_embed message o name cards w))
                      = firstn 50 (news ++ LOG_MESSAGES w)).
Proof.
  rewrite index_embed_run. cbv zeta.
  destruct (snd (index_cards o cards (card_database w) [])) as [|p l].
  - exists []. split; [cbn; lia|]. split; [reflexivity|congruence].
  - match goal with
    | |- context [save_database ?d ?w2] =>
        destruct (save_database_keeps_memory d w2) as [_ E]
    end.
    eexists [_]. split; [cbn; lia|]. split; [discriminate|].
    intros _. rewrite E. reflexivity.
Qed.

Lemma on_embed_log (message : Message) (embed : Embed) (w : World) :
  length (LOG_MESSAGES w) <= 50 ->
  exists news,
    length news <= 1
    /\ LOG_MESSAGES (snd (on_embed message embed w))
       = firstn 50 (news ++ LOG_MESSAGES w).
Proof.
  intros Hlen.
  assert (Hsame : LOG_MESSAGES w = firstn 50 ([] ++ LOG_MESSAGES w)).
  { cbn [app]. symmetry. now apply firstn_all2. }
  rewrite ReplayFacts.on_embed_by_pairs.
  destruct (embed_pairs embed) as [[o cards]|];
    [|exists []; split; [cbn; lia|exact Hsame]].
  destruct (embed_fields embed) as [[[name d] u]|];
    [|exists []; split; [cbn; lia|exact Hsame]].
  destruct (index_embed_log message o (owner_name_of name) cards w)
    as (news & Hn & H0 & H1).
  exists news. split; [exact Hn|].
  destruct news as [|x news]; [rewrite H0 by reflexivity; exact Hsame|].
  now apply H1.
Qed.

Lemma for_each_log (message : Message) (embeds : list Embed) :
  forall w,
    length (LOG_MESSAGES w) <= 50 ->
    exists news,
      length news <= length embeds
      /\ LOG_MESSAGES (snd (for_each (on_embed message) embeds w))
         = firstn 50 (news ++ LOG_MESSAGES w).
Proof.
  induction embeds as [|e embeds IH]; intros w Hlen.
  - exists []. split; [cbn; lia|]. cbn [for_each ret snd app]. symmetry.
    now apply firstn_all2.
  - cbn [for_each]. unfold bind.
    destruct (on_embed_log message e w Hlen) as (n1 & Hn1 & E1).
    destruct (on_embed message e w) as [[[]|ex] w1]; cbn [snd] in *.
    + assert (Hlen1 : length (LOG_MESSAGES w1) <= 50).
      { rewrite E1. apply firstn_le_length. }
      destruct (IH w1 Hlen1) as (n2 & Hn2 & E2).
      exists (n2 ++ n1). split; [rewrite length_app; cbn [length]; lia|].
      rewrite E2, E1, firstn_app_firstn. now rewrite app_assoc.
    + exists n1. split; [cbn [length]; lia|exact E1].
Qed.

(** X18.  The log list under [on_message]: when it holds at most 50
    lines, a message puts at most one new line per embed in front of
    the old ones, and the list is cut to its first 50 lines. *)
Theorem on_message_logs_once_per_embed (message : Message) (w : World) :
  length (LOG_MESSAGES w) <= 50 ->
  exists news,
    length news <= length (msg_embeds message)
    /\ LOG_MESSAGES (snd (on_message message w))
       = firstn 50 (news ++ LOG_MESSAGES w).
Proof.
  intros Hlen.
  assert (Hsame : exists news,
             length news <= length (msg_embeds message)
             /\ LOG_MESSAGES w = firstn 50 (news ++ LOG_MESSAGES w)).
  { exists []. split; [cbn; lia|]. cbn [app]. symmetry. now apply firstn_all2. }
  unfold on_message.
  destruct (msg_guild message); [|exact Hsame].
  match goal with |- context [if ?c then _ else _] => destruct c end;
    [exact Hsame|].
  now apply for_each_log.
Qed.

(** X19.  When nothing is new, nothing happens: a message outside the
    indexed server, or from another author than the indexed bot, or
    whose embeds (if any) are each passed over or list only cards that
    already have the embed's owner, leaves everything as it was: no
    mutation, no log line, no file access. *)
Theorem on_message_without_news (message : Message) (w : World) :
  msg_guild message <> Some TARGET_SERVER_ID
  \/ msg_author_id message <> TARGET_BOT_ID
  \/ (forall e, In e (msg_embeds message) -> settled e (card_database w)) ->
  on_message message w = (Ok tt, w).
Proof.
  intros H. unfold on_message.
  destruct (msg_guild message) as [g|]; [|reflexivity].
  destruct (N.eqb_spec g TARGET_SERVER_ID) as [->|Hg]; [|reflexivity].
  destruct (N.eqb_spec (msg_author_id message) TARGET_BOT_ID) as [Ha|Ha];
    [|reflexivity].
  cbn [negb orb].
  destruct H as [H|[H|H]]; [now contradiction H|contradiction|].
  destruct (msg_embeds message) as [|e l] eqn:E; [reflexivity|].
  now apply ReplayFacts.for_each_settled_noop.
Qed.

End LogExtras.

(* ================================================================== *)
(** * The search and the memory of the bot *)
(* ================================================================== *)

Lemma load_database_memory (db : database) (w : World) :
  load_database (with_card_database db w)
  = (fst (load_database w), with_card_database db (snd (load_database w))).
Proof.
  destruct w as [[d fb r wo wf] tr lr ck lm st cdb [sd md]]. unfold_io.
  destruct d; unfold_io; [destruct fb as [bs|]; unfold_io;
    [destruct r; unfold_io;
      [destruct (Utf8.decode bs) as [text|]; unfold_io;
        [destruct (Json.loads _ _ (Utf8.universal_newlines text)); unfold_io
        |]|]|]|destruct wo, wf; unfold_io];
    reflexivity.
Qed.

Section MemoryExtras.
Context {U : UnicodeData}.

(** X20.  A search answers from the file, not from the bot's memory:
    whatever in-memory database the bot holds, the search returns the
    same result and leaves that database in place. *)
Theorem search_answers_from_the_file (q : option pystr) (db : database)
  (w : World) :
  api_search q (with_card_database db w)
  = (fst (api_search q w), with_card_database db (snd (api_search q w))).
Proof.
  unfold api_search. destruct (negb _); [reflexivity|].
  unfold bind. rewrite load_database_memory.
  destruct (load_database w) as [[v|e] w1]; cbn [fst snd]; [|reflexivity].
  destruct (Json.as_database v); reflexivity.
Qed.

End MemoryExtras.

(* ================================================================== *)
(** * The further theorems at concrete inputs *)
(* ================================================================== *)

Lemma replaying_a_message_changes_nothing_example :
  fst (@on_message ascii_only example_message fresh_world) = Ok tt
  /\ @on_message ascii_only example_message
       (snd (@on_message ascii_only example_message fresh_world))
     = (Ok tt, snd (@on_message ascii_only example_message fresh_world)).
Proof.
  assert (H : fst (@on_message ascii_only example_message fresh_world) = Ok tt)
    by (vm_compute; reflexivity).
  split; [exact H|].
  exact (@replaying_a_message_changes_nothing ascii_only example_message
           fresh_world H).
Defined.

Lemma failed_save_is_swallowed_example :
  dir_present (fs (boot (full_disk_fs [x7b; x7d]) (Str.str "12:00:00"))) = true
  /\ write_ok (fs (boot (full_disk_fs [x7b; x7d]) (Str.str "12:00:00")))
     = false
  /\ fst (save_database example_db
            (boot (full_disk_fs [x7b; x7d]) (Str.str "12:00:00"))) = Ok tt
  /\ logging_records
       (snd (save_database example_db
               (boot (full_disk_fs [x7b; x7d]) (Str.str "12:00:00"))))
     = [(ERROR, save_error_message)]
  /\ file_bytes
       (fs (snd (save_database example_db
                   (boot (full_disk_fs [x7b; x7d]) (Str.str "12:00:00")))))
     = Some [].
Proof.
  split; [reflexivity|]. split; [reflexivity|].
  destruct (failed_save_is_swallowed example_db
              (boot (full_disk_fs [x7b; x7d]) (Str.str "12:00:00"))
              (or_introl eq_refl) eq_refl) as (H1 & H2 & _ & H4 & _).
  split; [exact H1|]. split; [exact H2|exact H4].
Defined.

Lemma load_without_file_example :
  file_present (fs fresh_world) = false
  /\ fst (load_database fresh_world) = Ok (Json.JObj [])
  /\ io_trace (snd (load_database fresh_world))
     = [Exists DATA_DIR; Makedirs DATA_DIR; Exists DATABASE_FILE]
  /\ dir_present (fs (snd (load_database fresh_world))) = true
  /\ load_database (boot no_directory_fs (Str.str "12:00:00"))
     = (Raised OSError,
        traced [Exists DATA_DIR; Makedirs DATA_DIR]
          (boot no_directory_fs (Str.str "12:00:00"))).
Proof.
  split; [reflexivity|].
  destruct (load_without_file fresh_world eq_refl) as [H _].
  destruct (H (or_intror eq_refl)) as (H1 & H2 & _ & H4 & _).
  split; [exact H1|]. split; [exact H2|]. split; [exact H4|].
  destruct (load_without_file (boot no_directory_fs (Str.str "12:00:00"))
              eq_refl) as [_ H5].
  exact (H5 eq_refl eq_refl).
Defined.


Lemma restart_restores_database_example :
  db_json_safe example_db
  /\ write_ok (fs fresh_world) = true
  /\ read_ok (fs fresh_world) = true
  /\ fst (bind (save_database example_db) (fun _ => bot_init) fresh_world)
     = Ok tt
  /\ card_database
       (snd (bind (save_database example_db) (fun _ => bot_init) fresh_world))
     = example_db.
Proof.
  assert (H : db_json_safe example_db).
  { split.
    - cbn [map fst example_db]. distinct.
    - repeat constructor. }
  split; [exact H|]. split; [reflexivity|]. split; [reflexivity|].
  exact (restart_restores_database example_db fresh_world H eq_refl eq_refl).
Defined.

Lemma saved_file_is_ascii_example :
  write_ok (fs fresh_world) = true
  /\ exists bs,
       file_bytes (fs (snd (save_database example_db fresh_world))) = Some bs
       /\ Forall (fun b => (Byte.to_N b < 128)%N) bs
       /\ Utf8.decode bs = Some (Json.dumps example_db).
Proof.
  split; [reflexivity|].
  exact (saved_file_is_ascii example_db fresh_world eq_refl).
Defined.

Lemma indexed_owner_is_found_example :
  @embed_fields example_embed
  = Some (Str.str "Alice's Collection", Str.str "12 - AB Firebolt Dragon",
          example_url)
  /\ @is_listing ascii_only (Str.str "Alice's Collection") = true
  /\ @owner_id_match ascii_only example_url = Some (Str.str "555")
  /\ In (Str.str "Firebolt Dragon")
       (@cards_in_embed ascii_only (Str.str "12 - AB Firebolt Dragon"))
  /\ exists owners,
       fst (@api_search ascii_only (Some (Str.str " DRAG "))
              (snd (@on_embed ascii_only example_message example_embed
                      fresh_world)))
       = Ok owners
       /\ In (Str.str "555") owners.
Proof.
  split; [reflexivity|]. split; [vm_compute; reflexivity|].
  split; [vm_compute; reflexivity|].
  split; [left; vm_compute; reflexivity|].
  apply (@indexed_owner_is_found ascii_only example_message example_embed
           (Str.str "Alice's Collection") (Str.str "12 - AB Firebolt Dragon")
           example_url (Str.str "555") (Str.str "Firebolt Dragon")
           (Str.str " DRAG ") fresh_world).
  - reflexivity.
  - vm_compute; reflexivity.
  - vm_compute; reflexivity.
  - reflexivity.
  - reflexivity.
  - vm_compute. discriminate.
  - replace (fst (index_cards (Str.str "555")
                    (@cards_in_embed ascii_only
                       (Str.str "12 - AB Firebolt Dragon"))
                    (card_database fresh_world) []))
      with indexed_db by (vm_compute; reflexivity).
    split.
    + cbn [map fst indexed_db]. distinct.
    + repeat constructor.
  - left; vm_compute; reflexivity.
  - reflexivity.
  - vm_compute; reflexivity.
  - vm_compute; reflexivity.
Defined.

Lemma clean_tagged_line_example :
  @clean_card_name ascii_only (Str.str "12 - AB Firebolt Dragon")
  = Str.str "Firebolt Dragon".
Proof.
  apply (@clean_tagged_line ascii_only (Str.str "12") (Str.str "AB")
           (Str.str "irebolt Dragon") (Str.ch "F") 1 1 1).
  - discriminate.
  - reflexivity.
  - reflexivity.
  - reflexivity.
  - left. split; [discriminate|lia].
  - intros x H. vm_compute in H. injection H as <-. reflexivity.
Defined.

Lemma on_message_keeps_database_tidy_example :
  @tidy ascii_only (card_database (with_card_database example_db fresh_world))
  /\ @tidy ascii_only
       (card_database
          (snd (@on_message ascii_only example_message
                  (with_card_database example_db fresh_world)))).
Proof.
  assert (H : @tidy ascii_only
                (card_database (with_card_database example_db fresh_world))).
  { unfold tidy. cbn [card_database with_card_database example_db].
    repeat (apply Forall_cons;
            [split;
             [split; [reflexivity|];
              split; intros c E; vm_compute in E; injection E as <-; reflexivity
             |cbn [snd];
              repeat (apply Forall_cons; [split; [discriminate|reflexivity]|]);
              apply Forall_nil]|]).
    apply Forall_nil. }
  split; [exact H|].
  exact (@on_message_keeps_database_tidy ascii_only example_message _ H).
Defined.

Lemma on_message_logs_once_per_embed_example :
  length (LOG_MESSAGES fresh_world) <= 50
  /\ exists news,
       length news <= 1
       /\ LOG_MESSAGES (snd (@on_message ascii_only example_message fresh_world))
          = firstn 50 (news ++ LOG_MESSAGES fresh_world).
Proof.
  assert (H : length (LOG_MESSAGES fresh_world) <= 50) by (cbn; lia).
  split; [exact H|].
  exact (@on_message_logs_once_per_embed ascii_only example_message
           fresh_world H).
Defined.

Lemma on_message_without_news_example :
  (forall e, In e (msg_embeds example_message) ->
             @settled ascii_only e
               (card_database (with_card_database indexed_db fresh_world)))
  /\ @on_message ascii_only example_message
       (with_card_database indexed_db fresh_world)
     = (Ok tt, with_card_database indexed_db fresh_world).
Proof.
  assert (H : forall e, In e (msg_embeds example_message) ->
                @settled ascii_only e
                  (card_database (with_card_database indexed_db fresh_world))).
  { intros e [<-|[]]. unfold settled.
    replace (@embed_pairs ascii_only example_embed)
      with (Some (Str.str "555", [Str.str "Firebolt Dragon"]))
      by (vm_compute; reflexivity).
    intros n [<-|[]] _. left. reflexivity. }
  split; [exact H|].
  apply (@on_message_without_news ascii_only). right. right. exact H.
Defined.
